(** * Certificate generator backend (server.js): model and verified properties

    A shallow embedding of the request handlers of [server.js]:
    [/api/simple_generate], [/api/simple_certificate] and [/api/stats],
    together with the [useInMemoryStore] selector, the in-memory array, the
    MongoDB collection behind the [SimpleCertificate] model and the
    connection callbacks that flip the selector.

    Modelling conventions.
    - A JavaScript string is a [string] of Latin-1 code units (every ASCII
      string is covered); [trim], [toLowerCase] and the class [\s] are
      written out on that range.
    - A handler is a state-passing function.  Each [await] is a point where
      callbacks of the event loop may run before the awaited database
      operation completes: the handler takes a [Schedule], one batch of
      events per [await] it reaches.  The empty schedule is a request that
      nothing interleaves with.
    - A database operation that is awaited is carried out on the
      collection; an outage is seen through the connection events only.
    - [Math.random()] is a sequence of rationals supplied to the request,
      [new Date()] an integer number of milliseconds.
    - The identifier loop [while (!isUnique)] has no bound in the source; it
      is run with fuel and [None] stands for "still looping". *)

From Stdlib Require Import List String Ascii Bool Arith ZArith QArith Qround Lia.
From Stdlib Require Import Permutation.
Import ListNotations.

Local Open Scope string_scope.
Local Open Scope Z_scope.

(** ** JavaScript strings *)

Module JsString.

(** WhiteSpace and LineTerminator code units below 256: TAB, LF, VT, FF,
    CR, SPACE and NBSP.  [String.prototype.trim] and the regex class [\s]
    use the same set. *)
Definition is_white_space (c : ascii) : bool :=
  let n := nat_of_ascii c in
  (((9 <=? n) && (n <=? 13)) || (n =? 32) || (n =? 160))%nat.

Fixpoint trimStart (s : string) : string :=
  match s with
  | EmptyString => EmptyString
  | String c s' => if is_white_space c then trimStart s' else s
  end.

Fixpoint trimEnd (s : string) : string :=
  match s with
  | EmptyString => EmptyString
  | String c s' =>
      match trimEnd s' with
      | EmptyString => if is_white_space c then EmptyString else String c EmptyString
      | t => String c t
      end
  end.

(** [s.trim()] *)
Definition trim (s : string) : string := trimEnd (trimStart s).

(** Upper-case letters below 256: A-Z, and U+00C0..U+00DE except the
    multiplication sign U+00D7.  Each maps to the code unit 32 above. *)
Definition is_upper (c : ascii) : bool :=
  let n := nat_of_ascii c in
  (((65 <=? n) && (n <=? 90)) ||
   ((192 <=? n) && (n <=? 222) && negb (n =? 215)))%nat.

Definition lower_char (c : ascii) : ascii :=
  if is_upper c then ascii_of_nat (nat_of_ascii c + 32) else c.

(** [s.toLowerCase()] *)
Fixpoint toLowerCase (s : string) : string :=
  match s with
  | EmptyString => EmptyString
  | String c s' => String (lower_char c) (toLowerCase s')
  end.

(** [s.charAt(i)]: the empty string when [i] is out of range. *)
Definition charAt (s : string) (i : Z) : string :=
  if i <? 0 then EmptyString
  else match String.get (Z.to_nat i) s with
       | Some c => String c EmptyString
       | None => EmptyString
       end.

(** JavaScript truthiness of a value that is a string or absent. *)
Definition truthy (v : option string) : bool :=
  match v with
  | None => false
  | Some EmptyString => false
  | Some _ => true
  end.

Fixpoint forallb (p : ascii -> bool) (s : string) : bool :=
  match s with
  | EmptyString => true
  | String c s' => p c && forallb p s'
  end.

End JsString.

(** ** Regular expressions, matched by derivatives *)

Module Regex.

Inductive regex : Type :=
| Void
| Eps
| Class (p : ascii -> bool)
| Seq (r1 r2 : regex)
| Alt (r1 r2 : regex)
| Star (r : regex).

(** [r+] *)
Definition Plus (r : regex) : regex := Seq r (Star r).

Fixpoint nullable (r : regex) : bool :=
  match r with
  | Void => false
  | Eps => true
  | Class _ => false
  | Seq r1 r2 => nullable r1 && nullable r2
  | Alt r1 r2 => nullable r1 || nullable r2
  | Star _ => true
  end.

Fixpoint deriv (c : ascii) (r : regex) : regex :=
  match r with
  | Void => Void
  | Eps => Void
  | Class p => if p c then Eps else Void
  | Seq r1 r2 =>
      if nullable r1 then Alt (Seq (deriv c r1) r2) (deriv c r2)
      else Seq (deriv c r1) r2
  | Alt r1 r2 => Alt (deriv c r1) (deriv c r2)
  | Star r1 => Seq (deriv c r1) (Star r1)
  end.

(** [/^r$/.test(s)]: the whole string is in the language of [r]. *)
Fixpoint test (r : regex) (s : string) : bool :=
  match s with
  | EmptyString => nullable r
  | String c s' => test (deriv c r) s'
  end.

Definition Char (a : ascii) : regex := Class (Ascii.eqb a).

End Regex.

(** [[^\s@]] *)
Definition not_space_at (c : ascii) : bool :=
  negb (JsString.is_white_space c) && negb (Ascii.eqb c "@").

(** [const emailRegex = /^[^\s@]+@[^\s@]+\.[^\s@]+$/;] *)
Definition emailRegex : Regex.regex :=
  Regex.Seq (Regex.Plus (Regex.Class not_space_at))
    (Regex.Seq (Regex.Char "@")
       (Regex.Seq (Regex.Plus (Regex.Class not_space_at))
          (Regex.Seq (Regex.Char ".")
             (Regex.Plus (Regex.Class not_space_at))))).

(** ** Data model *)

(** One certificate: an element of [inMemoryStore], or a document of the
    collection behind the [SimpleCertificate] model.  Mongoose's [_id],
    [createdAt] and [updatedAt] are left out; a document is identified by
    its position in the collection, which never shrinks. *)
Record Certificate : Type := mkCertificate {
  reference_id : string;
  user_name : string;
  user_email : string;
  certificate_type : string;
  timestamp : Z;
  downloaded : bool;
  download_count : Z
}.

(** The promise returned by [mongoose.connect(MONGODB_URI)]. *)
Inductive ConnectPromise : Type := Pending | Fulfilled | Rejected.

(** The mutable state of the process ([useInMemoryStore], [inMemoryStore])
    and of the database ([SimpleCertificate]). *)
Record State : Type := mkState {
  connectPromise : ConnectPromise;
  useInMemoryStore : bool;
  inMemoryStore : list Certificate;
  SimpleCertificate : list Certificate
}.

(** The process as it starts, against a database holding [db]:
    [let useInMemoryStore = false; const inMemoryStore = [];] and the
    connection attempt just issued. *)
Definition boot (db : list Certificate) : State :=
  mkState Pending false [] db.

Definition set_useInMemoryStore (b : bool) (s : State) : State :=
  mkState (connectPromise s) b (inMemoryStore s) (SimpleCertificate s).

Definition set_inMemoryStore (l : list Certificate) (s : State) : State :=
  mkState (connectPromise s) (useInMemoryStore s) l (SimpleCertificate s).

Definition set_SimpleCertificate (l : list Certificate) (s : State) : State :=
  mkState (connectPromise s) (useInMemoryStore s) (inMemoryStore s) l.

Definition settle (p : ConnectPromise) (s : State) : State :=
  mkState p (useInMemoryStore s) (inMemoryStore s) (SimpleCertificate s).

(** ** Arrays and collections *)

Section Lists.
Context {A : Type}.

(** Position and value of the first element satisfying [p]:
    [Array.prototype.find], which returns the element itself (an alias,
    not a copy), and [findOne], which returns one matching document. *)
Fixpoint find_first (p : A -> bool) (l : list A) : option (nat * A) :=
  match l with
  | [] => None
  | x :: l' =>
      if p x then Some (O, x)
      else match find_first p l' with
           | Some (i, y) => Some (S i, y)
           | None => None
           end
  end.

(** Assignment to fields of the object at position [i]. *)
Fixpoint update_at (i : nat) (f : A -> A) (l : list A) : list A :=
  match l, i with
  | [], _ => []
  | x :: l', O => f x :: l'
  | x :: l', S j => x :: update_at j f l'
  end.

(** [Array.prototype.sort(cmp)]: a stable sort; [x] goes before [y] when
    [cmp x y <= 0] and [x] came first. *)
Fixpoint sort_insert (cmp : A -> A -> Z) (x : A) (l : list A) : list A :=
  match l with
  | [] => [x]
  | y :: l' => if cmp x y <=? 0 then x :: y :: l' else y :: sort_insert cmp x l'
  end.

Definition sort (cmp : A -> A -> Z) (l : list A) : list A :=
  fold_right (sort_insert cmp) [] l.

End Lists.

Definition by_email (email : string) (c : Certificate) : bool :=
  String.eqb (user_email c) email.

Definition by_reference_id (id : string) (c : Certificate) : bool :=
  String.eqb (reference_id c) id.

(** [(a, b) => new Date(b.timestamp) - new Date(a.timestamp)] *)
Definition newest_first (a b : Certificate) : Z := timestamp b - timestamp a.

(** ** The MongoDB collection, as [simpleCertificateSchema] declares it *)

Module Mongo.

Inductive Error : Type := ValidationError | DuplicateKey.

(** [required: true] on a String path: Mongoose rejects the empty string. *)
Definition required (v : string) : bool := negb (String.eqb v "").

(** [new SimpleCertificate({...})]: the setter [lowercase: true] runs on
    [user.email]; every path with a default is given explicitly. *)
Definition construct (reference_id name email certificate_type : string)
    (timestamp : Z) (downloaded : bool) (download_count : Z) : Certificate :=
  mkCertificate reference_id name (JsString.toLowerCase email)
    certificate_type timestamp downloaded download_count.

(** Validation on [save()]: [reference_id], [user.name] and [user.email]
    are [required]. *)
Definition validate (doc : Certificate) : bool :=
  required (reference_id doc) && required (user_name doc) &&
  required (user_email doc).

(** The indexes of the schema: [reference_id] is [unique: true];
    [user.email] is [index: true] only, so it admits duplicates. *)
Definition violates_unique_index (doc : Certificate)
    (coll : list Certificate) : bool :=
  List.existsb (by_reference_id (reference_id doc)) coll.

(** [await doc.save()] of a new document. *)
Definition save (doc : Certificate) (coll : list Certificate)
    : Error + list Certificate :=
  if negb (validate doc) then inl ValidationError
  else if violates_unique_index doc coll then inl DuplicateKey
  else inr (coll ++ [doc])%list.

(** [findOne(filter)] *)
Definition findOne (filter : Certificate -> bool) (coll : list Certificate)
    : option (nat * Certificate) :=
  find_first filter coll.

(** [countDocuments(filter)] *)
Definition countDocuments (filter : Certificate -> bool)
    (coll : list Certificate) : Z :=
  Z.of_nat (List.length (List.filter filter coll)).

(** [find().sort({ timestamp: -1 }).limit(n)]; documents with equal
    timestamps are kept in collection order. *)
Definition find_sorted_limit (n : nat) (coll : list Certificate)
    : list Certificate :=
  firstn n (sort newest_first coll).

End Mongo.

(** ** The event loop *)

(** Callbacks that may run while a request is suspended at an [await]. *)
Inductive Event : Type :=
| ConnectThen                      (* mongoose.connect(...).then(...) *)
| ConnectCatch                     (* mongoose.connect(...).catch(...) *)
| OnConnected                      (* connection.on('connected') *)
| OnDisconnected                   (* connection.on('disconnected') *)
| OnError                          (* connection.on('error') *)
| RemoteSave (doc : Certificate).  (* the save() of another request in flight *)

Definition fire (s : State) (e : Event) : State :=
  match e with
  | ConnectThen =>
      match connectPromise s with
      | Pending => settle Fulfilled (set_useInMemoryStore false s)
      | _ => s
      end
  | ConnectCatch =>
      match connectPromise s with
      | Pending => settle Rejected (set_useInMemoryStore true s)
      | _ => s
      end
  | OnConnected => set_useInMemoryStore false s
  | OnDisconnected => set_useInMemoryStore true s
  | OnError => s
  | RemoteSave doc =>
      match Mongo.save doc (SimpleCertificate s) with
      | inl _ => s
      | inr coll => set_SimpleCertificate coll s
      end
  end.

(** One batch of events for each [await] the request reaches, in order;
    past the end of the list nothing interleaves. *)
Definition Schedule : Type := list (list Event).

(** Suspension at an [await]: the next batch runs before the awaited
    operation is carried out. *)
Definition await (sched : Schedule) (s : State) : State * Schedule :=
  match sched with
  | [] => (s, [])
  | batch :: rest => (fold_left fire batch s, rest)
  end.

(** ** Requests, responses and the trace of store accesses *)

Inductive Backend : Type := Durable | InMemory.

(** What a handler asks of a store. *)
Inductive Step : Type :=
| CheckEmail       (* look for a certificate with the e-mail *)
| CheckReference   (* look for a certificate with the candidate id *)
| Insert           (* inMemoryStore.push / newCertificate.save() *)
| Fetch            (* look a certificate up by id *)
| MarkDownloaded   (* write downloaded and download_count *)
| Count            (* length / countDocuments *)
| Recent.          (* the ten newest certificates *)

Definition Access : Type := (Step * Backend)%type.

(** The backend the selector designates. *)
Definition active (s : State) : Backend :=
  if useInMemoryStore s then InMemory else Durable.

Definition store (b : Backend) (s : State) : list Certificate :=
  match b with
  | InMemory => inMemoryStore s
  | Durable => SimpleCertificate s
  end.

(** An entry of [recent] in the statistics. *)
Record Row : Type := mkRow {
  row_reference_id : string;
  row_name : string;
  row_email : string;
  row_timestamp : Z;
  row_downloaded : bool;
  row_download_count : Z
}.

Definition select_row (c : Certificate) : Row :=
  mkRow (reference_id c) (user_name c) (user_email c) (timestamp c)
    (downloaded c) (download_count c).

Inductive Response : Type :=
| GenerateOk (existing : bool) (reference_id name email message : string)
| CertificateOk (reference_id name email certificate_type : string)
    (timestamp : Z)
| StatsOk (total downloaded pending : Z) (recent : list Row)
| ClientError (error : string)
| NotFound (error : string)
| ServerError (error : string).

(** The HTTP status: [res.json] alone answers 200. *)
Definition status (r : Response) : Z :=
  match r with
  | GenerateOk _ _ _ _ _ | CertificateOk _ _ _ _ _ | StatsOk _ _ _ _ => 200
  | ClientError _ => 400
  | NotFound _ => 404
  | ServerError _ => 500
  end.

(** What one request leaves behind. *)
Record Outcome : Type := mkOutcome {
  response : Response;
  state : State;
  accesses : list Access
}.

(** ** The identifier generator *)

Definition chars : string := "0123456789ABCDEFGHIJKLMNOPQRSTUVWXYZ".

(** [chars.charAt(Math.floor(Math.random() * chars.length))] for the value
    [r] of [Math.random()]. *)
Definition random_char (r : Q) : string :=
  JsString.charAt chars
    (Qfloor (r * inject_Z (Z.of_nat (String.length chars)))).

(** The [for] loop of [generateRandomCode], from [i] up to 5; [rand k] is
    the value of the [k]-th call of [Math.random()] by this request and
    [k] the number of calls made so far. *)
Fixpoint random_code_loop (rand : nat -> Q) (k : nat) (n : nat) (code : string)
    : string :=
  match n with
  | O => code
  | S n' => random_code_loop rand (S k) n' (code ++ random_char (rand k))
  end.

Definition generateRandomCode (rand : nat -> Q) (k : nat) : string :=
  random_code_loop rand k 5 "".

(** The candidate of the [j]-th turn of the loop:
    [`CSAC2025-${generateRandomCode()}`]. *)
Definition candidate (rand : nat -> Q) (j : nat) : string :=
  "CSAC2025-" ++ generateRandomCode rand (5 * j).

(** [while (!isUnique) { ... }], from turn [j] on.  The selector is read at
    every turn; only the durable probe suspends. *)
Fixpoint ensure_unique (rand : nat -> Q) (fuel : nat) (j : nat)
    (sched : Schedule) (s : State) (log : list Access)
    : option (string * State * Schedule * list Access) :=
  match fuel with
  | O => None
  | S fuel' =>
      let reference_id := candidate rand j in
      if useInMemoryStore s then
        let log' := (log ++ [(CheckReference, InMemory)])%list in
        match find_first (by_reference_id reference_id) (inMemoryStore s) with
        | None => Some (reference_id, s, sched, log')
        | Some _ => ensure_unique rand fuel' (S j) sched s log'
        end
      else
        let '(s1, sched1) := await sched s in
        let log' := (log ++ [(CheckReference, Durable)])%list in
        match Mongo.findOne (by_reference_id reference_id)
                (SimpleCertificate s1) with
        | None => Some (reference_id, s1, sched1, log')
        | Some _ => ensure_unique rand fuel' (S j) sched1 s1 log'
        end
  end.

(** ** POST /api/simple_generate *)

(** "Check if certificate already exists": the selector is read, and the
    store it designates is searched for the e-mail. *)
Definition check_existing (cleanEmail : string) (sched : Schedule) (s : State)
    : option (nat * Certificate) * State * Schedule * list Access :=
  if useInMemoryStore s then
    (find_first (by_email cleanEmail) (inMemoryStore s), s, sched,
     [(CheckEmail, InMemory)])
  else
    let '(s1, sched1) := await sched s in
    (Mongo.findOne (by_email cleanEmail) (SimpleCertificate s1), s1, sched1,
     [(CheckEmail, Durable)]).

(** "Store either in MongoDB or in-memory": the selector is read again.
    An error thrown by [save()] reaches the [catch] of the handler. *)
Definition store_certificate (reference_id cleanName cleanEmail : string)
    (now : Z) (sched : Schedule) (s : State) (log : list Access) : Outcome :=
  if useInMemoryStore s then
    let memObj :=
      mkCertificate reference_id cleanName cleanEmail "Attended" now false 0 in
    mkOutcome
      (GenerateOk false reference_id cleanName cleanEmail
         "Certificate generated successfully (in-memory)!")
      (set_inMemoryStore (inMemoryStore s ++ [memObj])%list s)
      (log ++ [(Insert, InMemory)])%list
  else
    let newCertificate :=
      Mongo.construct reference_id cleanName cleanEmail "Attended" now false 0 in
    let '(s1, _) := await sched s in
    match Mongo.save newCertificate (SimpleCertificate s1) with
    | inl _ =>
        mkOutcome (ServerError "Internal server error") s1
          (log ++ [(Insert, Durable)])%list
    | inr coll =>
        mkOutcome
          (GenerateOk false reference_id cleanName cleanEmail
             "Certificate generated successfully!")
          (set_SimpleCertificate coll s1)
          (log ++ [(Insert, Durable)])%list
    end.

(** The body of the handler once [name] and [email] are known to be
    truthy strings. *)
Definition generate_checked (rand : nat -> Q) (fuel : nat) (now : Z)
    (sched : Schedule) (name email : string) (s : State) : option Outcome :=
  let cleanName := JsString.trim name in
  let cleanEmail := JsString.toLowerCase (JsString.trim email) in
  if negb (Regex.test emailRegex cleanEmail) then
    Some (mkOutcome (ClientError "Invalid email format") s [])
  else
    let '(existing, s1, sched1, log1) := check_existing cleanEmail sched s in
    match existing with
    | Some (_, c) =>
        Some (mkOutcome
                (GenerateOk true (reference_id c) (user_name c) (user_email c)
                   (if useInMemoryStore s
                    then "Certificate already generated for this email (in-memory)"
                    else "Certificate already generated for this email"))
                s1 log1)
    | None =>
        match ensure_unique rand fuel 0 sched1 s1 log1 with
        | None => None
        | Some (reference_id, s2, sched2, log2) =>
            Some (store_certificate reference_id cleanName cleanEmail now
                    sched2 s2 log2)
        end
    end.

(** The handler.  [name] and [email] are the fields of [req.body], absent
    or strings; [None] is a request whose identifier loop has not ended
    within [fuel] turns. *)
Definition simple_generate (rand : nat -> Q) (fuel : nat) (now : Z)
    (sched : Schedule) (name email : option string) (s : State)
    : option Outcome :=
  if negb (JsString.truthy name) || negb (JsString.truthy email) then
    Some (mkOutcome (ClientError "Name and email are required") s [])
  else
    match name, email with
    | Some name, Some email => generate_checked rand fuel now sched name email s
    | _, _ => Some (mkOutcome (ClientError "Name and email are required") s [])
    end.

(** ** GET /api/simple_certificate *)

(** [certificate.download_count || 0]: zero is the only falsy count. *)
Definition or_zero (n : Z) : Z := if n =? 0 then 0 else n.

Definition certificate_json (c : Certificate) : Response :=
  CertificateOk (reference_id c) (user_name c) (user_email c)
    (certificate_type c) (timestamp c).

(** [id] is [req.query.id], absent or a string.  The selector is read
    once; in the durable branch the document fetched is mutated locally
    and its two modified paths are written back by [certificate.save()]. *)
Definition simple_certificate (sched : Schedule) (id : option string)
    (s : State) : Outcome :=
  if negb (JsString.truthy id) then
    mkOutcome (ClientError "Certificate ID is required") s []
  else
    match id with
    | None => mkOutcome (ClientError "Certificate ID is required") s []
    | Some id =>
        if useInMemoryStore s then
          match find_first (by_reference_id id) (inMemoryStore s) with
          | None =>
              mkOutcome (NotFound "Certificate not found (in-memory)") s
                [(Fetch, InMemory)]
          | Some (i, certificate) =>
              let mark c :=
                mkCertificate (reference_id c) (user_name c) (user_email c)
                  (certificate_type c) (timestamp c) true
                  (or_zero (download_count c) + 1) in
              mkOutcome (certificate_json (mark certificate))
                (set_inMemoryStore (update_at i mark (inMemoryStore s)) s)
                [(Fetch, InMemory); (MarkDownloaded, InMemory)]
          end
        else
          let '(s1, sched1) := await sched s in
          match Mongo.findOne (by_reference_id id) (SimpleCertificate s1) with
          | None =>
              mkOutcome (NotFound "Certificate not found") s1
                [(Fetch, Durable)]
          | Some (i, certificate) =>
              let count := download_count certificate + 1 in
              let write c :=
                mkCertificate (reference_id c) (user_name c) (user_email c)
                  (certificate_type c) (timestamp c) true count in
              let '(s2, _) := await sched1 s1 in
              mkOutcome (certificate_json (write certificate))
                (set_SimpleCertificate
                   (update_at i write (SimpleCertificate s2)) s2)
                [(Fetch, Durable); (MarkDownloaded, Durable)]
          end
    end.

(** [n] lookups of the same id in a row, nothing interleaved: the answers
    in order, and the state they leave. *)
Fixpoint lookups (n : nat) (id : option string) (s : State)
    : list Response * State :=
  match n with
  | O => ([], s)
  | S n' =>
      let o := simple_certificate [] id s in
      let '(answers, s') := lookups n' id (state o) in
      (response o :: answers, s')
  end.

(** ** GET /api/stats *)

Definition stats (sched : Schedule) (s : State) : Outcome :=
  if useInMemoryStore s then
    let totalCertificates := Z.of_nat (List.length (inMemoryStore s)) in
    let downloadedCertificates :=
      Z.of_nat (List.length (List.filter downloaded (inMemoryStore s))) in
    let recentCertificates :=
      List.map select_row (firstn 10 (sort newest_first (inMemoryStore s))) in
    mkOutcome
      (StatsOk totalCertificates downloadedCertificates
         (totalCertificates - downloadedCertificates) recentCertificates)
      s [(Count, InMemory); (Count, InMemory); (Recent, InMemory)]
  else
    let '(s1, sched1) := await sched s in
    let totalCertificates :=
      Mongo.countDocuments (fun _ => true) (SimpleCertificate s1) in
    let '(s2, sched2) := await sched1 s1 in
    let downloadedCertificates :=
      Mongo.countDocuments downloaded (SimpleCertificate s2) in
    let '(s3, _) := await sched2 s2 in
    let recentCertificates :=
      List.map select_row (Mongo.find_sorted_limit 10 (SimpleCertificate s3)) in
    mkOutcome
      (StatsOk totalCertificates downloadedCertificates
         (totalCertificates - downloadedCertificates) recentCertificates)
      s3 [(Count, Durable); (Count, Durable); (Recent, Durable)].

(** ** Predicates used by the statements *)

(** All store accesses of a request went to the backend [b]. *)
Definition served_by (b : Backend) (log : list Access) : Prop :=
  Forall (fun a => snd a = b) log.

(** A request observed one value of the selector. *)
Definition consistent (log : list Access) : Prop :=
  exists b, served_by b log.

(** Events that leave [useInMemoryStore] alone. *)
Definition keeps_selector (e : Event) : Prop :=
  match e with
  | OnError | RemoteSave _ => True
  | _ => False
  end.

(** A schedule during which the selector is never written. *)
Definition steady (sched : Schedule) : Prop :=
  Forall (Forall keeps_selector) sched.

(** The contract of [Math.random()]: a value in [[0, 1)]. *)
Definition unit_interval (rand : nat -> Q) : Prop :=
  forall k, (0 <= rand k)%Q /\ (rand k < 1)%Q.

(** A character of the alphabet [[0-9A-Z]]. *)
Definition alnum_upper (c : ascii) : bool :=
  let n := nat_of_ascii c in
  (((48 <=? n) && (n <=? 57)) || ((65 <=? n) && (n <=? 90)))%nat.

(** [CSAC2025-] followed by exactly five characters of [[0-9A-Z]]. *)
Definition well_formed_id (id : string) : Prop :=
  exists code, id = "CSAC2025-" ++ code /\ String.length code = 5%nat /\
               JsString.forallb alnum_upper code = true.

(** Timestamps never increase along the list. *)
Fixpoint newest_first_sorted (l : list Z) : Prop :=
  match l with
  | [] => True
  | t :: l' => (forall t', In t' l' -> t' <= t) /\ newest_first_sorted l'
  end.

(** The spec's validity of a name: not empty once trimmed. *)
Definition valid_name (name : string) : Prop := JsString.trim name <> "".

(** The e-mail as the handler normalizes it. *)
Definition normalize (email : string) : string :=
  JsString.toLowerCase (JsString.trim email).

Definition valid_email (email : string) : Prop :=
  Regex.test emailRegex (normalize email) = true.

(** ** Sample inputs *)

Module Sample.

(** [Math.random()] answering 0 every time: the code [00000]. *)
Definition zeros : nat -> Q := fun _ => 0%Q.

(** [Math.random()] answering 0.5, 0.99, 0.25, 0, 0.75 and then 0. *)
Definition mixed : nat -> Q :=
  fun k => nth k [1 # 2; 99 # 100; 1 # 4; 0; 3 # 4]%Q 0%Q.

(** 1 January 2030, in milliseconds since the epoch. *)
Definition in_2030 : Z := 1893456000000.

(** The process after the first connection attempt has failed. *)
Definition offline : State := fire (boot []) ConnectCatch.

(** The process connected to an empty database. *)
Definition online : State := fire (boot []) ConnectThen.

Definition ada : Certificate :=
  mkCertificate "CSAC2025-00000" "Ada Lovelace" "ada@example.com"
    "Attended" 1000 false 0.

Definition bob : Certificate :=
  mkCertificate "CSAC2025-IZ90R" "Bob" "bob@example.com"
    "Attended" 2000 true 3.

(** The in-memory store holding both, the process being offline. *)
Definition archive : State :=
  set_inMemoryStore [ada; bob] offline.

(** The process online again, the array still holding both. *)
Definition reconnected : State := fire archive OnConnected.

(** [Math.random()] answering 0/36, 1/36, ..., 35/36 and round again:
    the codes [01234], [56789], [ABCDE], ... *)
Definition counting : nat -> Q := fun k => Z.of_nat (k mod 36) # 36.

Definition dan : Certificate :=
  mkCertificate "CSAC2025-01234" "Dan" "dan@example.com"
    "Attended" 500 true 1.

(** The process offline, the array holding one certificate. *)
Definition shelf : State := set_inMemoryStore [dan] offline.

Definition carol : Certificate :=
  mkCertificate "CSAC2025-00000" "Carol" "carol@example.com"
    "Attended" 3000 false 0.

(** The array after a failover has overtaken Carol's request: her record
    carries the reference id of the first one. *)
Definition doubled : State :=
  set_inMemoryStore [ada; bob; carol] (fire reconnected OnDisconnected).

(** The process online, the collection holding four certificates of
    four dates. *)
Definition filed : State :=
  set_SimpleCertificate [ada; bob; dan; carol] online.

End Sample.

(** No white space in front. *)
Definition starts_clean (s : string) : Prop :=
  match s with
  | EmptyString => True
  | String c _ => JsString.is_white_space c = false
  end.

(** ** The language of a regular expression *)

(** The strings a regular expression denotes, against which the matcher
    by derivatives is checked. *)
Inductive denotes : Regex.regex -> string -> Prop :=
| denotes_eps : denotes Regex.Eps ""
| denotes_class (p : ascii -> bool) (c : ascii) :
    p c = true -> denotes (Regex.Class p) (String c "")
| denotes_seq (r1 r2 : Regex.regex) (s1 s2 : string) :
    denotes r1 s1 -> denotes r2 s2 -> denotes (Regex.Seq r1 r2) (s1 ++ s2)
| denotes_alt_l (r1 r2 : Regex.regex) (s : string) :
    denotes r1 s -> denotes (Regex.Alt r1 r2) s
| denotes_alt_r (r1 r2 : Regex.regex) (s : string) :
    denotes r2 s -> denotes (Regex.Alt r1 r2) s
| denotes_star_nil (r : Regex.regex) : denotes (Regex.Star r) ""
| denotes_star_cons (r : Regex.regex) (s1 s2 : string) :
    denotes r s1 -> denotes (Regex.Star r) s2 ->
    denotes (Regex.Star r) (s1 ++ s2).

(** A non-empty run of characters other than white space and [@]. *)
Definition word (s : string) : Prop :=
  s <> "" /\ JsString.forallb not_space_at s = true.

(** [local@domain.tld]: three such runs, the first two separated by [@],
    the last two by a dot; [domain] and [tld] may hold further dots. *)
Definition email_shape (s : string) : Prop :=
  exists local domain tld,
    s = local ++ "@" ++ domain ++ "." ++ tld /\
    word local /\ word domain /\ word tld.

(** ** GET /api/certificates *)

(** An entry of [certificates]: the fields selected by the listing. *)
Record CertificateRow : Type := mkCertificateRow {
  listed_reference_id : string;
  listed_name : string;
  listed_email : string;
  listed_certificate_type : string;
  listed_timestamp : Z;
  listed_downloaded : bool;
  listed_download_count : Z
}.

Definition select_listed (c : Certificate) : CertificateRow :=
  mkCertificateRow (reference_id c) (user_name c) (user_email c)
    (certificate_type c) (timestamp c) (downloaded c) (download_count c).

(** The body [{ success: true, count, certificates }]. *)
Record Listing : Type := mkListing {
  listing_count : Z;
  listing_certificates : list CertificateRow
}.

(** The handler: the selector is read once; the durable branch awaits
    [find().sort({ timestamp: -1 }).select(...)].  The answer and the
    state left. *)
Definition list_certificates (sched : Schedule) (s : State)
    : Listing * State :=
  if useInMemoryStore s then
    let certificates :=
      List.map select_listed (sort newest_first (inMemoryStore s)) in
    (mkListing (Z.of_nat (List.length certificates)) certificates, s)
  else
    let '(s1, _) := await sched s in
    let certificates :=
      List.map select_listed (sort newest_first (SimpleCertificate s1)) in
    (mkListing (Z.of_nat (List.length certificates)) certificates, s1).

(** ** The handlers before the in-memory fallback *)

(** The second copy of the server in [server.js]: no selector and no
    array, every handler works on the collection.  The state is the
    collection; a schedule lists, for each [await], the documents that
    other requests save meanwhile.  (Its [catch] of [mongoose.connect]
    ends the process, so no request is served without a connection.) *)
Module Legacy.

Definition Schedule : Type := list (list Certificate).

Definition remote_save (coll : list Certificate) (doc : Certificate)
    : list Certificate :=
  match Mongo.save doc coll with
  | inl _ => coll
  | inr coll' => coll'
  end.

Definition await (sched : Schedule) (coll : list Certificate)
    : list Certificate * Schedule :=
  match sched with
  | [] => (coll, [])
  | batch :: rest => (fold_left remote_save batch coll, rest)
  end.

Fixpoint ensure_unique (rand : nat -> Q) (fuel : nat) (j : nat)
    (sched : Schedule) (coll : list Certificate)
    : option (string * list Certificate * Schedule) :=
  match fuel with
  | O => None
  | S fuel' =>
      let reference_id := candidate rand j in
      let '(coll1, sched1) := await sched coll in
      match Mongo.findOne (by_reference_id reference_id) coll1 with
      | None => Some (reference_id, coll1, sched1)
      | Some _ => ensure_unique rand fuel' (S j) sched1 coll1
      end
  end.

Definition simple_generate (rand : nat -> Q) (fuel : nat) (now : Z)
    (sched : Schedule) (name email : option string) (coll : list Certificate)
    : option (Response * list Certificate) :=
  if negb (JsString.truthy name) || negb (JsString.truthy email) then
    Some (ClientError "Name and email are required", coll)
  else
    match name, email with
    | Some name, Some email =>
        let cleanName := JsString.trim name in
        let cleanEmail := JsString.toLowerCase (JsString.trim email) in
        if negb (Regex.test emailRegex cleanEmail) then
          Some (ClientError "Invalid email format", coll)
        else
          let '(coll1, sched1) := await sched coll in
          match Mongo.findOne (by_email cleanEmail) coll1 with
          | Some (_, c) =>
              Some (GenerateOk true (reference_id c) (user_name c)
                      (user_email c)
                      "Certificate already generated for this email",
                    coll1)
          | None =>
              match ensure_unique rand fuel 0 sched1 coll1 with
              | None => None
              | Some (reference_id, coll2, sched2) =>
                  let newCertificate :=
                    Mongo.construct reference_id cleanName cleanEmail
                      "Attended" now false 0 in
                  let '(coll3, _) := await sched2 coll2 in
                  match Mongo.save newCertificate coll3 with
                  | inl _ => Some (ServerError "Internal server error", coll3)
                  | inr coll4 =>
                      Some (GenerateOk false reference_id cleanName cleanEmail
                              "Certificate generated successfully!",
                            coll4)
                  end
              end
          end
    | _, _ => Some (ClientError "Name and email are required", coll)
    end.

Definition simple_certificate (sched : Schedule) (id : option string)
    (coll : list Certificate) : Response * list Certificate :=
  if negb (JsString.truthy id) then
    (ClientError "Certificate ID is required", coll)
  else
    match id with
    | None => (ClientError "Certificate ID is required", coll)
    | Some id =>
        let '(coll1, sched1) := await sched coll in
        match Mongo.findOne (by_reference_id id) coll1 with
        | None => (NotFound "Certificate not found", coll1)
        | Some (i, certificate) =>
            let count := download_count certificate + 1 in
            let write c :=
              mkCertificate (reference_id c) (user_name c) (user_email c)
                (certificate_type c) (timestamp c) true count in
            let '(coll2, _) := await sched1 coll1 in
            (certificate_json (write certificate), update_at i write coll2)
        end
    end.

Definition stats (sched : Schedule) (coll : list Certificate)
    : Response * list Certificate :=
  let '(coll1, sched1) := await sched coll in
  let totalCertificates := Mongo.countDocuments (fun _ => true) coll1 in
  let '(coll2, sched2) := await sched1 coll1 in
  let downloadedCertificates := Mongo.countDocuments downloaded coll2 in
  let '(coll3, _) := await sched2 coll2 in
  let recentCertificates :=
    List.map select_row (Mongo.find_sorted_limit 10 coll3) in
  (StatsOk totalCertificates downloadedCertificates
     (totalCertificates - downloadedCertificates) recentCertificates,
   coll3).

End Legacy.

(** ** Requests in sequence *)

(** The backend the selector does not designate. *)
Definition standby (s : State) : Backend :=
  if useInMemoryStore s then Durable else InMemory.

Definition set_store (b : Backend) (l : list Certificate) (s : State) : State :=
  match b with
  | InMemory => set_inMemoryStore l s
  | Durable => set_SimpleCertificate l s
  end.

(** A certificate after one more download. *)
Definition mark_downloaded (c : Certificate) : Certificate :=
  mkCertificate (reference_id c) (user_name c) (user_email c)
    (certificate_type c) (timestamp c) true (download_count c + 1).

(** A request and every input it reads. *)
Inductive Request : Type :=
| Generate (rand : nat -> Q) (fuel : nat) (now : Z)
    (name email : option string)
| Download (id : option string)
| Statistics.

(** A request served with nothing interleaved. *)
Definition serve (r : Request) (s : State) : option Outcome :=
  match r with
  | Generate rand fuel now name email =>
      simple_generate rand fuel now [] name email s
  | Download id => Some (simple_certificate [] id s)
  | Statistics => Some (stats [] s)
  end.

Definition admissible (r : Request) : Prop :=
  match r with
  | Generate rand _ _ _ _ => unit_interval rand
  | _ => True
  end.

(** The callbacks of the connection, as opposed to other requests. *)
Definition connection_event (e : Event) : Prop :=
  match e with
  | RemoteSave _ => False
  | _ => True
  end.

(** The states of a process started on an empty database that serves its
    requests one at a time, the connection coming and going in between. *)
Inductive reachable : State -> Prop :=
| reachable_boot : reachable (boot [])
| reachable_event (s : State) (e : Event) :
    reachable s -> connection_event e -> reachable (fire s e)
| reachable_request (s : State) (r : Request) (o : Outcome) :
    reachable s -> admissible r -> serve r s = Some o -> reachable (state o).

(** The counter and the flag of a certificate agree. *)
Definition coherent (c : Certificate) : Prop :=
  0 <= download_count c /\ (downloaded c = true <-> 0 < download_count c).

(** What holds of every certificate the handlers have stored. *)
Definition issued (c : Certificate) : Prop :=
  well_formed_id (reference_id c) /\
  Regex.test emailRegex (user_email c) = true /\
  normalize (user_email c) = user_email c /\
  JsString.trim (user_name c) = user_name c /\
  certificate_type c = "Attended" /\
  coherent c.

Definition store_ok (l : list Certificate) : Prop :=
  NoDup (map reference_id l) /\ NoDup (map user_email l) /\ Forall issued l.

Definition invariant (s : State) : Prop :=
  store_ok (inMemoryStore s) /\ store_ok (SimpleCertificate s).

(** What identifies a certificate: every field but the two that a
    download writes. *)
Definition identity (c : Certificate)
    : string * string * string * string * Z :=
  (reference_id c, user_name c, user_email c, certificate_type c, timestamp c).

(** A row of the listing without its [certificate_type]: a row of the
    statistics. *)
Definition listed_to_row (r : CertificateRow) : Row :=
  mkRow (listed_reference_id r) (listed_name r) (listed_email r)
    (listed_timestamp r) (listed_downloaded r) (listed_download_count r).

(** [l'] is [l] with records added at the end. *)
Definition extends (l l' : list Certificate) : Prop :=
  exists suffix, l' = (l ++ suffix)%list.

(** ** Runs of the process *)

(** What happens to the process: a callback fires, or a request is
    handled while the events of its schedule fire at its awaits. *)
Inductive Action : Type :=
| Fire (e : Event)
| Handle (sched : Schedule) (r : Request).

Definition handle (sched : Schedule) (r : Request) (s : State)
    : option Outcome :=
  match r with
  | Generate rand fuel now name email =>
      simple_generate rand fuel now sched name email s
  | Download id => Some (simple_certificate sched id s)
  | Statistics => Some (stats sched s)
  end.

Definition act (a : Action) (s : State) : option State :=
  match a with
  | Fire e => Some (fire s e)
  | Handle sched r => option_map state (handle sched r s)
  end.

Fixpoint run (acts : list Action) (s : State) : option State :=
  match acts with
  | [] => Some s
  | a :: rest =>
      match act a s with
      | Some s' => run rest s'
      | None => None
      end
  end.

(** Every event that a run may fire. *)
Definition scheduled (a : Action) : list Event :=
  match a with
  | Fire e => [e]
  | Handle sched _ => List.concat sched
  end.

Definition scheduled_events (acts : list Action) : list Event :=
  flat_map scheduled acts.

(** How the selector and the connection attempt of [s'] derive from those
    of [s] when only events among [evs] have fired in between: a settled
    attempt stays settled, and the selector is [true] only if it was, or
    a 'disconnected' event is among [evs], or the attempt has been
    rejected by a [catch] among [evs]. *)
Definition tracks (evs : list Event) (s s' : State) : Prop :=
  (connectPromise s' = Pending -> connectPromise s = Pending) /\
  (useInMemoryStore s' = true ->
   useInMemoryStore s = true \/ In OnDisconnected evs \/
   (In ConnectCatch evs /\ connectPromise s' <> Pending)).

(** * Properties *)

(** ** Scenarios of the specification, evaluated *)

Example emailRegex_accepts : Regex.test emailRegex "ada@example.com" = true.
Proof. reflexivity. Qed.

Example emailRegex_rejects : Regex.test emailRegex "not-an-email" = false.
Proof. reflexivity. Qed.

Example normalize_ada : normalize "ADA@Example.com " = "ada@example.com".
Proof. reflexivity. Qed.

Example trim_blank : JsString.trim "   " = "".
Proof. reflexivity. Qed.

Example trim_inner : JsString.trim "  Ada  Lovelace  " = "Ada  Lovelace".
Proof. reflexivity. Qed.

Example emailRegex_cases :
  map (Regex.test emailRegex)
    ["a@b.c"; "a@b.c.d"; "a@..c"; "a@b"; "a@b."; "a@.c"; "@b.c"; "a b@c.d";
     "a@@b.c"; "a@b@c.d"; ""]
  = [true; true; true; false; false; false; false; false; false; false; false].
Proof. reflexivity. Qed.

(** ** Strings *)

Lemma lower_char_idem (c : ascii) :
  JsString.lower_char (JsString.lower_char c) = JsString.lower_char c.
Proof.
  destruct c as [b0 b1 b2 b3 b4 b5 b6 b7].
  destruct b0, b1, b2, b3, b4, b5, b6, b7; reflexivity.
Qed.

Lemma toLowerCase_idem (s : string) :
  JsString.toLowerCase (JsString.toLowerCase s) = JsString.toLowerCase s.
Proof.
  induction s as [|c s IH]; simpl.
  - reflexivity.
  - now rewrite lower_char_idem, IH.
Qed.

Lemma normalize_lower (email : string) :
  JsString.toLowerCase (normalize email) = normalize email.
Proof. apply toLowerCase_idem. Qed.

Lemma string_length_app (a b : string) :
  String.length (a ++ b) = (String.length a + String.length b)%nat.
Proof. induction a as [|c a IH]; simpl; [reflexivity | now rewrite IH]. Qed.

Lemma string_forallb_app (p : ascii -> bool) (a b : string) :
  JsString.forallb p (a ++ b) = JsString.forallb p a && JsString.forallb p b.
Proof.
  induction a as [|c a IH]; simpl; [reflexivity |].
  now rewrite IH, andb_assoc.
Qed.

Lemma regex_test_nonempty (s : string) :
  Regex.test emailRegex s = true -> s <> "".
Proof. intros H ->. discriminate H. Qed.

(** ** The identifier generator *)

Lemma floor_in_range (r : Q) :
  (0 <= r)%Q -> (r < 1)%Q -> 0 <= Qfloor (r * inject_Z 36) < 36.
Proof.
  intros H0 H1. split.
  - change 0 with (Qfloor (inject_Z 0)).
    apply Qfloor_resp_le.
    change (inject_Z 0) with (0 * inject_Z 36)%Q.
    apply Qmult_le_compat_r; [exact H0 | discriminate].
  - assert (Hlt : (r * inject_Z 36 < inject_Z 36)%Q).
    { setoid_replace (inject_Z 36) with (1 * inject_Z 36)%Q at 2 by ring.
      apply Qmult_lt_compat_r; [reflexivity | exact H1]. }
    pose proof (Qfloor_le (r * inject_Z 36)) as Hle.
    pose proof (Qle_lt_trans _ _ _ Hle Hlt) as Hz.
    rewrite <- Zlt_Qlt in Hz. exact Hz.
Qed.

Lemma charAt_chars (i : Z) :
  0 <= i < 36 ->
  exists c, JsString.charAt chars i = String c "" /\ alnum_upper c = true.
Proof.
  intros Hi.
  assert (Hn : exists n, i = Z.of_nat n /\ (n < 36)%nat).
  { exists (Z.to_nat i). lia. }
  destruct Hn as (n & -> & Hn).
  do 36 (destruct n as [|n]; [eexists; split; reflexivity|]).
  lia.
Qed.

Lemma random_char_alnum (r : Q) :
  (0 <= r)%Q -> (r < 1)%Q ->
  exists c, random_char r = String c "" /\ alnum_upper c = true.
Proof.
  intros H0 H1. unfold random_char.
  apply charAt_chars. change (Z.of_nat (String.length chars)) with 36.
  now apply floor_in_range.
Qed.

Lemma random_code_loop_ok (rand : nat -> Q) :
  unit_interval rand ->
  forall n k code,
    String.length (random_code_loop rand k n code)
    = (String.length code + n)%nat /\
    JsString.forallb alnum_upper (random_code_loop rand k n code)
    = JsString.forallb alnum_upper code.
Proof.
  intros Hr n. induction n as [|n IH]; intros k code; simpl.
  - split; [lia | reflexivity].
  - destruct (Hr k) as [H0 H1].
    destruct (random_char_alnum (rand k) H0 H1) as (c & Hc & Hal).
    destruct (IH (S k) (code ++ random_char (rand k))) as [Hlen Hall].
    rewrite Hlen, Hall, string_length_app, string_forallb_app, Hc. simpl.
    rewrite Hal. split; [lia | now rewrite !andb_true_r].
Qed.

Lemma candidate_well_formed (rand : nat -> Q) (j : nat) :
  unit_interval rand -> well_formed_id (candidate rand j).
Proof.
  intros Hr. exists (generateRandomCode rand (5 * j)).
  destruct (random_code_loop_ok rand Hr 5 (5 * j)%nat "") as [Hlen Hall].
  repeat split; assumption.
Qed.

Lemma candidate_prefix (rand : nat -> Q) (j : nat) :
  String.prefix "CSAC2025-" (candidate rand j) = true.
Proof.
  unfold candidate.
  generalize (generateRandomCode rand (5 * j)). intros code.
  cbn. now destruct code.
Qed.

Lemma candidate_nonempty (rand : nat -> Q) (j : nat) : candidate rand j <> "".
Proof. discriminate. Qed.

(** ** Arrays and collections *)

Section ListFacts.
Context {A : Type}.
Implicit Types (p : A -> bool) (l : list A).

Lemma find_first_none p l :
  find_first p l = None <-> List.existsb p l = false.
Proof.
  induction l as [|x l IH]; simpl; [tauto|].
  destruct (p x); simpl.
  - split; discriminate.
  - destruct (find_first p l) as [[i y]|].
    + split; [discriminate | intros H; apply IH in H; discriminate].
    + tauto.
Qed.

Lemma find_first_some p l i x :
  find_first p l = Some (i, x) -> nth_error l i = Some x /\ p x = true.
Proof.
  revert i. induction l as [|y l IH]; simpl; intros i H; [discriminate|].
  destruct (p y) eqn:Hy.
  - injection H as <- <-. now split.
  - destruct (find_first p l) as [[j z]|]; [|discriminate].
    injection H as <- <-. now apply IH.
Qed.

Lemma find_first_app_l p l l' i x :
  find_first p l = Some (i, x) -> find_first p (l ++ l') = Some (i, x).
Proof.
  revert i. induction l as [|y l IH]; simpl; intros i H; [discriminate|].
  destruct (p y); [exact H|].
  destruct (find_first p l) as [[j z]|]; [|discriminate].
  injection H as <- <-. now rewrite (IH j eq_refl).
Qed.

Lemma find_first_app_new p l x :
  find_first p l = None -> p x = true ->
  find_first p (l ++ [x]) = Some (List.length l, x).
Proof.
  induction l as [|y l IH]; simpl; intros H Hx.
  - now rewrite Hx.
  - destruct (p y); [discriminate|].
    destruct (find_first p l) as [[j z]|]; [discriminate|].
    now rewrite IH.
Qed.

Lemma find_first_not_in p l :
  find_first p l = None -> forall x, In x l -> p x = false.
Proof.
  intros H x Hx. apply find_first_none in H.
  destruct (p x) eqn:Hp; [|reflexivity].
  assert (List.existsb p l = true) by (apply existsb_exists; eauto).
  congruence.
Qed.

Lemma update_at_length i (f : A -> A) l :
  List.length (update_at i f l) = List.length l.
Proof.
  revert i. induction l as [|x l IH]; intros [|i]; simpl; auto.
Qed.

Lemma update_at_nth i (f : A -> A) l x :
  nth_error l i = Some x -> nth_error (update_at i f l) i = Some (f x).
Proof.
  revert i. induction l as [|y l IH]; intros [|i]; simpl; try discriminate.
  - now intros [= ->].
  - apply IH.
Qed.

(** Fields that the update leaves alone keep the search result in place. *)
Lemma find_first_update p (f : A -> A) l i x :
  (forall y, p (f y) = p y) ->
  find_first p l = Some (i, x) ->
  find_first p (update_at i f l) = Some (i, f x).
Proof.
  intros Hf. revert i. induction l as [|y l IH]; simpl; intros i H.
  - discriminate.
  - destruct (p y) eqn:Hy.
    + injection H as <- <-. simpl. now rewrite Hf, Hy.
    + destruct (find_first p l) as [[j z]|]; [|discriminate].
      injection H as <- <-. simpl. rewrite Hy.
      now rewrite (IH j eq_refl).
Qed.

Lemma in_firstn n l x : In x (firstn n l) -> In x l.
Proof.
  revert l. induction n as [|n IH]; intros [|y l]; simpl; try tauto.
  intros [-> | H]; [now left | right; now apply IH].
Qed.

Lemma sort_insert_perm (cmp : A -> A -> Z) x l :
  Permutation (x :: l) (sort_insert cmp x l).
Proof.
  induction l as [|y l IH]; simpl.
  - apply Permutation_refl.
  - destruct (cmp x y <=? 0).
    + apply Permutation_refl.
    + eapply perm_trans; [apply perm_swap|]. now apply perm_skip.
Qed.

Lemma sort_perm (cmp : A -> A -> Z) l : Permutation l (sort cmp l).
Proof.
  induction l as [|x l IH]; simpl.
  - apply perm_nil.
  - eapply perm_trans; [|apply sort_insert_perm]. now apply perm_skip.
Qed.

End ListFacts.

Lemma sort_insert_newest_first (x : Certificate) (l : list Certificate) :
  newest_first_sorted (map timestamp l) ->
  newest_first_sorted (map timestamp (sort_insert newest_first x l)).
Proof.
  induction l as [|y l IH]; simpl; intros Hs.
  - split; [intros t [] | exact I].
  - destruct Hs as [Hy Hl]. unfold newest_first at 1.
    destruct (timestamp y - timestamp x <=? 0) eqn:Hc.
    + apply Z.leb_le in Hc. simpl. repeat split; auto.
      intros t [<- | Ht]; [lia|]. specialize (Hy t Ht). lia.
    + apply Z.leb_gt in Hc. simpl. split; [|now apply IH].
      intros t Ht. apply in_map_iff in Ht. destruct Ht as (c & <- & Hin).
      apply (Permutation_in _ (Permutation_sym (sort_insert_perm _ x l))) in Hin.
      destruct Hin as [<- | Hin]; [lia|].
      apply Hy. now apply in_map.
Qed.

Lemma sort_newest_first (l : list Certificate) :
  newest_first_sorted (map timestamp (sort newest_first l)).
Proof.
  induction l as [|x l IH]; simpl; [exact I|].
  now apply sort_insert_newest_first.
Qed.

Lemma firstn_newest_first (n : nat) (l : list Z) :
  newest_first_sorted l -> newest_first_sorted (firstn n l).
Proof.
  revert l. induction n as [|n IH]; intros [|t l]; simpl; auto.
  intros [Ht Hl]. split; [|now apply IH].
  intros t' Hin. apply Ht. now apply in_firstn in Hin.
Qed.

Lemma recent_rows (n : nat) (l : list Certificate) :
  let rows := map select_row (firstn n (sort newest_first l)) in
  (List.length rows <= n)%nat /\
  newest_first_sorted (map row_timestamp rows) /\
  (forall r, In r rows -> exists c, In c l /\ r = select_row c).
Proof.
  cbv zeta. repeat split.
  - rewrite length_map. apply firstn_le_length.
  - rewrite map_map. simpl.
    rewrite <- firstn_map. apply firstn_newest_first, sort_newest_first.
  - intros r Hr. apply in_map_iff in Hr. destruct Hr as (c & <- & Hc).
    exists c. split; [|reflexivity].
    apply (Permutation_in _ (Permutation_sym (sort_perm newest_first l))).
    now apply in_firstn in Hc.
Qed.

(** ** The event loop and the selector *)

Lemma fire_keeps (s : State) (e : Event) :
  keeps_selector e ->
  useInMemoryStore (fire s e) = useInMemoryStore s /\
  inMemoryStore (fire s e) = inMemoryStore s /\
  connectPromise (fire s e) = connectPromise s.
Proof.
  destruct e; simpl; try contradiction; intros _; auto.
  destruct (Mongo.save doc (SimpleCertificate s)); auto.
Qed.

Lemma fire_inMemoryStore (s : State) (e : Event) :
  inMemoryStore (fire s e) = inMemoryStore s.
Proof.
  destruct e; simpl; auto.
  - now destruct (connectPromise s).
  - now destruct (connectPromise s).
  - now destruct (Mongo.save doc (SimpleCertificate s)).
Qed.

Lemma batch_inMemoryStore (batch : list Event) (s : State) :
  inMemoryStore (fold_left fire batch s) = inMemoryStore s.
Proof.
  revert s. induction batch as [|e batch IH]; intros s; simpl; [reflexivity|].
  now rewrite IH, fire_inMemoryStore.
Qed.

Lemma batch_keeps (batch : list Event) (s : State) :
  Forall keeps_selector batch ->
  useInMemoryStore (fold_left fire batch s) = useInMemoryStore s.
Proof.
  revert s. induction batch as [|e batch IH]; intros s Hb; simpl.
  - reflexivity.
  - inversion Hb as [|? ? He Hb']; subst.
    rewrite (IH _ Hb'). now apply fire_keeps.
Qed.

(** The in-memory array is only written by handlers, never by an event. *)
Lemma await_inMemoryStore (sched : Schedule) (s : State) :
  inMemoryStore (fst (await sched s)) = inMemoryStore s.
Proof.
  destruct sched as [|batch rest]; simpl; [reflexivity|].
  apply batch_inMemoryStore.
Qed.

Lemma await_steady (sched : Schedule) (s : State) :
  steady sched ->
  useInMemoryStore (fst (await sched s)) = useInMemoryStore s /\
  steady (snd (await sched s)).
Proof.
  intros Hs. destruct sched as [|batch rest]; simpl.
  - split; [reflexivity | constructor].
  - inversion Hs as [|? ? Hb Hr]; subst. split; [|exact Hr].
    now apply batch_keeps.
Qed.

Lemma await_quiet (s : State) : await [] s = (s, []).
Proof. reflexivity. Qed.

Lemma served_by_app (b : Backend) (l l' : list Access) :
  served_by b l -> served_by b l' -> served_by b (l ++ l').
Proof. intros H H'. apply Forall_app. now split. Qed.

Lemma active_InMemory (s : State) :
  active s = InMemory <-> useInMemoryStore s = true.
Proof. unfold active. destruct (useInMemoryStore s); split; congruence. Qed.

Lemma active_Durable (s : State) :
  active s = Durable <-> useInMemoryStore s = false.
Proof. unfold active. destruct (useInMemoryStore s); split; congruence. Qed.

(** ** The uniqueness loop *)

(** What the loop guarantees when it ends, under any schedule: the
    identifier is one of the candidates, and the last probe, against the
    backend [b] selected at that turn, found nothing.  A probe of the
    in-memory array does not suspend, so the selector still designates it
    when the loop is left. *)
Lemma ensure_unique_spec (rand : nat -> Q) (fuel : nat) :
  forall j sched s log id s2 sched2 log2,
    ensure_unique rand fuel j sched s log = Some (id, s2, sched2, log2) ->
    exists j' b probes,
      (j <= j')%nat /\ id = candidate rand j' /\
      log2 = (log ++ probes ++ [(CheckReference, b)])%list /\
      find_first (by_reference_id id) (store b s2) = None /\
      (b = InMemory -> useInMemoryStore s2 = true) /\
      inMemoryStore s2 = inMemoryStore s.
Proof.
  induction fuel as [|fuel IH]; intros j sched s log id s2 sched2 log2 H;
    simpl in H; [discriminate|].
  destruct (useInMemoryStore s) eqn:Hflag.
  - destruct (find_first _ (inMemoryStore s)) as [[i c]|] eqn:Hfind.
    + apply IH in H.
      destruct H as (j' & b & probes & Hj & Hid & Hlog & Hnone & Hmem & Hst).
      exists j', b, ((CheckReference, InMemory) :: probes).
      split; [lia|]. split; [exact Hid|]. split; [|now auto].
      rewrite Hlog, <- app_assoc. reflexivity.
    + injection H as <- <- <- <-.
      exists j, InMemory, []. split; [lia|]. now auto.
  - destruct (await sched s) as [s1 sched1] eqn:Haw.
    assert (Hs1 : inMemoryStore s1 = inMemoryStore s).
    { change s1 with (fst (s1, sched1)). rewrite <- Haw.
      apply await_inMemoryStore. }
    unfold Mongo.findOne in H.
    destruct (find_first _ (SimpleCertificate s1)) as [[i c]|] eqn:Hfind.
    + apply IH in H.
      destruct H as (j' & b & probes & Hj & Hid & Hlog & Hnone & Hmem & Hst).
      exists j', b, ((CheckReference, Durable) :: probes).
      split; [lia|]. split; [exact Hid|]. split.
      { rewrite Hlog, <- app_assoc. reflexivity. }
      split; [exact Hnone|]. split; [exact Hmem | congruence].
    + injection H as <- <- <- <-.
      exists j, Durable, []. split; [lia|]. split; [reflexivity|].
      split; [reflexivity|]. split; [exact Hfind|].
      split; [discriminate | exact Hs1].
Qed.

(** Under a schedule that never writes the selector, every probe goes to
    the backend active when the loop was entered. *)
Lemma ensure_unique_steady (rand : nat -> Q) (fuel : nat) :
  forall j sched s log id s2 sched2 log2,
    steady sched ->
    ensure_unique rand fuel j sched s log = Some (id, s2, sched2, log2) ->
    steady sched2 /\ useInMemoryStore s2 = useInMemoryStore s /\
    exists probes, log2 = (log ++ probes)%list /\ served_by (active s) probes.
Proof.
  induction fuel as [|fuel IH]; intros j sched s log id s2 sched2 log2 Hst H;
    simpl in H; [discriminate|].
  destruct (useInMemoryStore s) eqn:Hflag.
  - assert (Hact : active s = InMemory) by now apply active_InMemory.
    destruct (find_first _ (inMemoryStore s)) as [[i c]|] eqn:Hfind.
    + apply IH in H; [|exact Hst].
      destruct H as (Hst2 & Hf & probes & Hlog & Hsv).
      split; [exact Hst2|]. split; [congruence|].
      exists ((CheckReference, InMemory) :: probes). split.
      * rewrite Hlog, <- app_assoc. reflexivity.
      * constructor; [now rewrite Hact | exact Hsv].
    + injection H as <- <- <- <-.
      split; [exact Hst|]. split; [congruence|].
      exists [(CheckReference, InMemory)]. split; [reflexivity|].
      constructor; [now rewrite Hact | constructor].
  - assert (Hact : active s = Durable) by now apply active_Durable.
    destruct (await_steady sched s Hst) as [Hkeep Hrest].
    destruct (await sched s) as [s1 sched1] eqn:Haw. simpl in Hkeep, Hrest.
    assert (Hact1 : active s1 = active s) by (unfold active; now rewrite Hkeep).
    unfold Mongo.findOne in H.
    destruct (find_first _ (SimpleCertificate s1)) as [[i c]|] eqn:Hfind.
    + apply IH in H; [|exact Hrest].
      destruct H as (Hst2 & Hf & probes & Hlog & Hsv).
      split; [exact Hst2|]. split; [congruence|].
      exists ((CheckReference, Durable) :: probes). split.
      * rewrite Hlog, <- app_assoc. reflexivity.
      * constructor; [now rewrite Hact | now rewrite <- Hact1].
    + injection H as <- <- <- <-.
      split; [exact Hrest|]. split; [congruence|].
      exists [(CheckReference, Durable)]. split; [reflexivity|].
      constructor; [now rewrite Hact | constructor].
Qed.

(** With nothing interleaved the loop leaves the state as it found it. *)
Lemma ensure_unique_quiet (rand : nat -> Q) (fuel : nat) :
  forall j s log id s2 sched2 log2,
    ensure_unique rand fuel j [] s log = Some (id, s2, sched2, log2) ->
    s2 = s /\ sched2 = [] /\
    find_first (by_reference_id id) (store (active s) s) = None.
Proof.
  induction fuel as [|fuel IH]; intros j s log id s2 sched2 log2 H;
    simpl in H; [discriminate|].
  unfold active. destruct (useInMemoryStore s) eqn:Hflag; simpl.
  - destruct (find_first _ (inMemoryStore s)) as [[i c]|] eqn:Hfind.
    + apply IH in H. unfold active in H. now rewrite Hflag in H.
    + now injection H as <- <- <- <-.
  - unfold Mongo.findOne in H.
    destruct (find_first _ (SimpleCertificate s)) as [[i c]|] eqn:Hfind.
    + apply IH in H. unfold active in H. now rewrite Hflag in H.
    + now injection H as <- <- <- <-.
Qed.

(** The loop ends as soon as a candidate is free: with nothing
    interleaved, fuel beyond the first free candidate is enough. *)
Lemma ensure_unique_terminates (rand : nat -> Q) (s : State) (n : nat) :
  forall j log,
    find_first (by_reference_id (candidate rand (j + n)))
      (store (active s) s) = None ->
    forall fuel, (n < fuel)%nat ->
      exists id log2, ensure_unique rand fuel j [] s log = Some (id, s, [], log2).
Proof.
  induction n as [|n IH]; intros j log Hfree fuel Hfuel;
    (destruct fuel as [|fuel]; [lia|]); simpl;
    unfold active in Hfree; destruct (useInMemoryStore s) eqn:Hflag;
    simpl in Hfree; unfold Mongo.findOne.
  - rewrite Nat.add_0_r in Hfree. rewrite Hfree. eauto.
  - rewrite Nat.add_0_r in Hfree. rewrite Hfree. eauto.
  - destruct (find_first (by_reference_id (candidate rand j))
                (inMemoryStore s)) as [[i c]|]; [|eauto].
    apply IH; [|lia]. replace (S j + n)%nat with (j + S n)%nat by lia.
    unfold active. rewrite Hflag. exact Hfree.
  - destruct (find_first (by_reference_id (candidate rand j))
                (SimpleCertificate s)) as [[i c]|]; [|eauto].
    apply IH; [|lia]. replace (S j + n)%nat with (j + S n)%nat by lia.
    unfold active. rewrite Hflag. exact Hfree.
Qed.

(** ** The steps of the generate handler *)

Lemma save_inr (doc : Certificate) (coll coll' : list Certificate) :
  Mongo.save doc coll = inr coll' ->
  Mongo.validate doc = true /\
  find_first (by_reference_id (reference_id doc)) coll = None /\
  coll' = (coll ++ [doc])%list.
Proof.
  unfold Mongo.save, Mongo.violates_unique_index.
  destruct (Mongo.validate doc); simpl; [|discriminate].
  destruct (List.existsb _ coll) eqn:Hex; [discriminate|].
  intros [= <-]. repeat split. now apply find_first_none.
Qed.

Lemma save_fresh (doc : Certificate) (coll : list Certificate) :
  Mongo.validate doc = true ->
  find_first (by_reference_id (reference_id doc)) coll = None ->
  Mongo.save doc coll = inr (coll ++ [doc])%list.
Proof.
  intros Hv Hf. apply find_first_none in Hf.
  unfold Mongo.save, Mongo.violates_unique_index. now rewrite Hv, Hf.
Qed.

(** A record is created by the last step only, at the end of the store
    the selector designates when that step starts; the durable store
    refuses an identifier it already holds, the array takes anything. *)
Lemma store_certificate_created
    (id cn ce : string) (now : Z) (sched : Schedule) (s : State)
    (log : list Access) (id' n e m : string) :
  JsString.toLowerCase ce = ce ->
  response (store_certificate id cn ce now sched s log)
  = GenerateOk false id' n e m ->
  id' = id /\ n = cn /\ e = ce /\
  exists pre,
    store (active s) (state (store_certificate id cn ce now sched s log))
    = (pre ++ [mkCertificate id cn ce "Attended" now false 0])%list /\
    accesses (store_certificate id cn ce now sched s log)
    = (log ++ [(Insert, active s)])%list /\
    (active s = InMemory -> pre = inMemoryStore s) /\
    (active s = Durable -> find_first (by_reference_id id) pre = None).
Proof.
  intros Hlow. unfold store_certificate, active.
  destruct (useInMemoryStore s) eqn:Hflag.
  - simpl. intros [= <- <- <- <-]. repeat split.
    exists (inMemoryStore s). repeat split. discriminate.
  - destruct (await sched s) as [s1 rest].
    unfold Mongo.construct. rewrite Hlow.
    destruct (Mongo.save _ (SimpleCertificate s1)) as [err|coll] eqn:Hsave;
      simpl; [discriminate|].
    intros [= <- <- <- <-]. repeat split.
    apply save_inr in Hsave. destruct Hsave as (_ & Hfresh & ->).
    exists (SimpleCertificate s1). repeat split; [discriminate | now auto].
Qed.

Lemma simple_generate_falsy
    (rand : nat -> Q) (fuel : nat) (now : Z) (sched : Schedule)
    (name email : option string) (s : State) :
  JsString.truthy name = false \/ JsString.truthy email = false ->
  simple_generate rand fuel now sched name email s
  = Some (mkOutcome (ClientError "Name and email are required") s []).
Proof.
  unfold simple_generate. intros [H | H]; rewrite H; simpl.
  - reflexivity.
  - now rewrite orb_true_r.
Qed.

Lemma simple_generate_truthy
    (rand : nat -> Q) (fuel : nat) (now : Z) (sched : Schedule)
    (name email : option string) (s : State) :
  JsString.truthy name = true -> JsString.truthy email = true ->
  exists name0 email0,
    name = Some name0 /\ email = Some email0 /\
    name0 <> "" /\ email0 <> "" /\
    simple_generate rand fuel now sched name email s
    = generate_checked rand fuel now sched name0 email0 s.
Proof.
  unfold simple_generate. intros Hn He. rewrite Hn, He. simpl.
  destruct name as [name0|]; [|discriminate].
  destruct email as [email0|]; [|discriminate].
  exists name0, email0. repeat split; intros ->; discriminate.
Qed.

(** The shape of a request that created a record. *)
Lemma generate_created
    (rand : nat -> Q) (fuel : nat) (now : Z) (sched : Schedule)
    (name email : option string) (s : State) (o : Outcome)
    (id n e m : string) :
  simple_generate rand fuel now sched name email s = Some o ->
  response o = GenerateOk false id n e m ->
  exists name0 email0 j bp b pre log,
    name = Some name0 /\ email = Some email0 /\
    n = JsString.trim name0 /\ e = normalize email0 /\
    id = candidate rand j /\
    store b (state o)
    = (pre ++ [mkCertificate id n e "Attended" now false 0])%list /\
    accesses o = (log ++ [(CheckReference, bp); (Insert, b)])%list /\
    (bp = b -> find_first (by_reference_id id) pre = None).
Proof.
  intros Hrun Hresp.
  destruct (JsString.truthy name) eqn:Hn;
    [|rewrite simple_generate_falsy in Hrun by auto;
      injection Hrun as <-; discriminate].
  destruct (JsString.truthy email) eqn:He;
    [|rewrite simple_generate_falsy in Hrun by auto;
      injection Hrun as <-; discriminate].
  destruct (simple_generate_truthy rand fuel now sched name email s Hn He)
    as (name0 & email0 & -> & -> & _ & _ & Heq).
  rewrite Heq in Hrun. clear Heq. unfold generate_checked in Hrun.
  fold (normalize email0) in Hrun.
  destruct (negb (Regex.test emailRegex (normalize email0))).
  { injection Hrun as <-; discriminate. }
  destruct (check_existing (normalize email0) sched s)
    as [[[existing s1] sched1] log1].
  destruct existing as [[i c]|].
  { injection Hrun as <-; discriminate. }
  destruct (ensure_unique rand fuel 0 sched1 s1 log1)
    as [[[[id0 s2] sched2] log2]|] eqn:Hloop; [|discriminate].
  injection Hrun as <-.
  apply ensure_unique_spec in Hloop.
  destruct Hloop as (j & bp & probes & _ & Hid & Hlog & Hnone & Hmem & _).
  apply store_certificate_created in Hresp; [|apply normalize_lower].
  destruct Hresp as (-> & -> & -> & pre & Hstore & Hacc & Hpm & Hpd).
  exists name0, email0, j, bp, (active s2), pre, (log1 ++ probes)%list.
  split; [reflexivity|]. split; [reflexivity|]. split; [reflexivity|].
  split; [reflexivity|]. split; [exact Hid|]. split; [exact Hstore|]. split.
  - rewrite Hacc, Hlog, <- !app_assoc. reflexivity.
  - intros ->. destruct (active s2) eqn:Hact; [now auto|].
    rewrite (Hpm eq_refl). exact Hnone.
Qed.

(** * The claims *)

(** ** C10: a lookup without an id *)

(** C10: a lookup whose [id] query parameter is absent or empty answers
    400 with the error 'Certificate ID is required'; it reads and writes
    neither store, and the answer is not the 404 of a missing record. *)
Theorem missing_id_is_client_error
    (sched : Schedule) (id : option string) (s : State) :
  id = None \/ id = Some "" ->
  simple_certificate sched id s
  = mkOutcome (ClientError "Certificate ID is required") s [] /\
  status (response (simple_certificate sched id s)) = 400 /\
  (forall e, response (simple_certificate sched id s) <> NotFound e).
Proof.
  intros [-> | ->]; repeat split; discriminate.
Qed.

Lemma missing_id_is_client_error_witness :
  simple_certificate [[OnDisconnected]] (Some "") Sample.online
  = mkOutcome (ClientError "Certificate ID is required") Sample.online [] /\
  status (response (simple_certificate [[OnDisconnected]] (Some "")
                      Sample.online)) = 400 /\
  (forall e, response (simple_certificate [[OnDisconnected]] (Some "")
                         Sample.online) <> NotFound e).
Proof.
  apply (missing_id_is_client_error [[OnDisconnected]] (Some "") Sample.online).
  right. reflexivity.
Defined.

(** A missing record is a different answer: 404. *)
Example lookup_unknown_id :
  response (simple_certificate [] (Some "CSAC2025-ZZZZZ") Sample.online)
  = NotFound "Certificate not found".
Proof. reflexivity. Qed.

(** ** C8: statistics *)

Lemma newest_first_sorted_app (l1 l2 : list Z) :
  newest_first_sorted (l1 ++ l2) ->
  newest_first_sorted l1 /\
  forall t t', In t l1 -> In t' l2 -> t' <= t.
Proof.
  induction l1 as [|x l1 IH]; simpl.
  - intros _. split; [exact I | intros t t' []].
  - intros [Hx Hs]. destruct (IH Hs) as [Hs1 Hle]. split.
    + split; [|exact Hs1]. intros t' Hin. apply Hx, in_or_app. now left.
    + intros t t' [<- | Hin] Hin'.
      * apply Hx, in_or_app. now right.
      * now apply Hle.
Qed.

(** C8: for every state, the statistics answer [total], the number of
    records of the active store, [downloaded], the number of those with
    [downloaded = true], [pending = total - downloaded], and [recent]:
    the reference id, name, e-mail, timestamp, download mark and download
    count of the ten newest records of that store, or of all when there
    are fewer, newest timestamp first: no record left out is newer than
    one listed.  The state is left as it was. *)
Theorem stats_of_active_store (s : State) :
  let records := store (active s) s in
  let total := Z.of_nat (List.length records) in
  let done := Z.of_nat (List.length (List.filter downloaded records)) in
  exists newest older,
    Permutation (newest ++ older) records /\
    List.length newest = Nat.min 10 (List.length records) /\
    newest_first_sorted (map timestamp newest) /\
    (forall c c', In c newest -> In c' older -> timestamp c' <= timestamp c) /\
    response (stats [] s)
    = StatsOk total done (total - done)
        (map (fun c =>
                mkRow (reference_id c) (user_name c) (user_email c)
                  (timestamp c) (downloaded c) (download_count c))
           newest) /\
    state (stats [] s) = s.
Proof.
  cbv zeta. set (records := store (active s) s).
  exists (firstn 10 (sort newest_first records)),
         (skipn 10 (sort newest_first records)).
  pose proof (sort_newest_first records) as Hsorted.
  rewrite <- (firstn_skipn 10 (sort newest_first records)), map_app in Hsorted.
  apply newest_first_sorted_app in Hsorted. destruct Hsorted as [Hs Hle].
  split; [rewrite firstn_skipn; apply Permutation_sym, sort_perm|].
  split.
  { rewrite length_firstn.
    now rewrite <- (Permutation_length (sort_perm newest_first records)). }
  split; [exact Hs|]. split.
  { intros c c' Hc Hc'. apply Hle; now apply in_map. }
  split.
  - subst records. unfold stats, active.
    destruct (useInMemoryStore s); cbn [await response store]; [reflexivity|].
    unfold Mongo.countDocuments, Mongo.find_sorted_limit.
    now rewrite filter_true.
  - unfold stats. now destruct (useInMemoryStore s).
Qed.

(** The figures and the rows of a small store. *)
Example stats_of_three :
  response (stats [] Sample.archive)
  = StatsOk 2 1 1
      [mkRow "CSAC2025-IZ90R" "Bob" "bob@example.com" 2000 true 3;
       mkRow "CSAC2025-00000" "Ada Lovelace" "ada@example.com" 1000 false 0].
Proof. reflexivity. Qed.

(** ** C7: the selector while the first connection attempt is pending *)

(** C7, as stated, fails: with the attempt of [mongoose.connect] still
    pending the selector is [false], the durable backend is the active
    one, and a request is sent to it. *)
Lemma pending_attempt_not_in_memory :
  connectPromise (boot []) = Pending /\
  active (boot []) <> InMemory /\
  accesses (simple_certificate [] (Some "CSAC2025-ZZZZZ") (boot []))
  = [(Fetch, Durable)] /\
  accesses (stats [] (boot []))
  = [(Count, Durable); (Count, Durable); (Recent, Durable)].
Proof. repeat split. discriminate. Qed.

(** ** C4: invalid input *)

(** The part of C4 that the handler does: an absent or empty name or
    e-mail, and an e-mail that the pattern rejects once normalized, are
    answered 400 and leave both stores untouched. *)
Lemma invalid_email_rejected
    (rand : nat -> Q) (fuel : nat) (now : Z) (sched : Schedule)
    (name : option string) (email : string) (s : State) :
  Regex.test emailRegex (normalize email) = false ->
  exists error,
    simple_generate rand fuel now sched name (Some email) s
    = Some (mkOutcome (ClientError error) s []).
Proof.
  intros Hbad.
  destruct (JsString.truthy name) eqn:Hn;
    [|eexists; apply simple_generate_falsy; now left].
  destruct (JsString.truthy (Some email)) eqn:He;
    [|eexists; apply simple_generate_falsy; now right].
  destruct (simple_generate_truthy rand fuel now sched name (Some email) s
              Hn He) as (name0 & email0 & -> & [= <-] & _ & _ & ->).
  unfold generate_checked. fold (normalize email). rewrite Hbad. simpl.
  eauto.
Qed.

Lemma empty_name_rejected
    (rand : nat -> Q) (fuel : nat) (now : Z) (sched : Schedule)
    (name email : option string) (s : State) :
  name = None \/ name = Some "" ->
  simple_generate rand fuel now sched name email s
  = Some (mkOutcome (ClientError "Name and email are required") s []).
Proof.
  intros H. apply simple_generate_falsy. left. now destruct H as [-> | ->].
Qed.

Example generate_empty_name :
  simple_generate Sample.zeros 1 0 [] (Some "") (Some "x@y.com") Sample.online
  = Some (mkOutcome (ClientError "Name and email are required")
            Sample.online []).
Proof. reflexivity. Qed.

Example generate_not_an_email :
  simple_generate Sample.zeros 1 0 [] (Some "Bob") (Some "not-an-email")
    Sample.online
  = Some (mkOutcome (ClientError "Invalid email format") Sample.online []).
Proof. reflexivity. Qed.

(** C4 at a name made of blanks, in-memory store active: the name passes
    [!name], is trimmed to the empty string afterwards, and a record with
    an empty name is stored and answered 200. *)
Theorem blank_name_is_stored (rand : nat -> Q) (now : Z) :
  simple_generate rand 1 now [] (Some "   ") (Some "x@y.com") Sample.offline
  = Some (mkOutcome
            (GenerateOk false (candidate rand 0) "" "x@y.com"
               "Certificate generated successfully (in-memory)!")
            (set_inMemoryStore
               [mkCertificate (candidate rand 0) "" "x@y.com" "Attended"
                  now false 0]
               Sample.offline)
            [(CheckEmail, InMemory); (CheckReference, InMemory);
             (Insert, InMemory)]).
Proof. reflexivity. Qed.

(** The same request with the durable backend active: the schema's
    [required: true] on [user.name] refuses the empty name at [save()],
    and the handler answers 500, not 400. *)
Lemma blank_name_durable (rand : nat -> Q) (now : Z) :
  simple_generate rand 1 now [] (Some "   ") (Some "x@y.com") Sample.online
  = Some (mkOutcome (ServerError "Internal server error") Sample.online
            [(CheckEmail, Durable); (CheckReference, Durable);
             (Insert, Durable)]).
Proof. reflexivity. Qed.

(** ** C9: the prefix of a reference id *)

(** C9: whatever the date [now] of the request, the reference id of a
    record that generate creates is the constant ["CSAC2025-"] followed by
    a random code: a candidate of the loop, in which the clock plays no
    part.  The record stored carries that id and the date. *)
Theorem reference_prefix_is_constant
    (rand : nat -> Q) (fuel : nat) (now : Z) (sched : Schedule)
    (name email : option string) (s : State) (o : Outcome)
    (id n e m : string) :
  simple_generate rand fuel now sched name email s = Some o ->
  response o = GenerateOk false id n e m ->
  String.prefix "CSAC2025-" id = true /\
  (exists j, id = "CSAC2025-" ++ generateRandomCode rand (5 * j)) /\
  exists b pre c,
    store b (state o) = (pre ++ [c])%list /\
    reference_id c = id /\ timestamp c = now.
Proof.
  intros Hrun Hresp.
  destruct (generate_created _ _ _ _ _ _ _ _ _ _ _ _ Hrun Hresp)
    as (name0 & email0 & j & bp & b & pre & log & _ & _ & _ & _ & Hid
        & Hstore & _).
  split; [rewrite Hid; apply candidate_prefix|].
  split; [exists j; exact Hid|].
  exists b, pre, (mkCertificate id n e "Attended" now false 0).
  now rewrite Hstore.
Qed.

Lemma reference_prefix_is_constant_witness :
  String.prefix "CSAC2025-" "CSAC2025-IZ90R" = true /\
  (exists j,
      "CSAC2025-IZ90R"
      = "CSAC2025-" ++ generateRandomCode Sample.mixed (5 * j)) /\
  exists b pre c,
    store b
      (set_inMemoryStore
         [mkCertificate "CSAC2025-IZ90R" "Ada Lovelace" "ada@example.com"
            "Attended" Sample.in_2030 false 0] Sample.offline)
    = (pre ++ [c])%list /\
    reference_id c = "CSAC2025-IZ90R" /\ timestamp c = Sample.in_2030.
Proof.
  apply (reference_prefix_is_constant Sample.mixed 1 Sample.in_2030 []
           (Some "Ada Lovelace") (Some "ADA@Example.com ") Sample.offline
           (mkOutcome
              (GenerateOk false "CSAC2025-IZ90R" "Ada Lovelace"
                 "ada@example.com"
                 "Certificate generated successfully (in-memory)!")
              (set_inMemoryStore
                 [mkCertificate "CSAC2025-IZ90R" "Ada Lovelace"
                    "ada@example.com" "Attended" Sample.in_2030 false 0]
                 Sample.offline)
              [(CheckEmail, InMemory); (CheckReference, InMemory);
               (Insert, InMemory)])
           "CSAC2025-IZ90R" "Ada Lovelace" "ada@example.com"
           "Certificate generated successfully (in-memory)!").
  - vm_compute. reflexivity.
  - reflexivity.
Defined.

(** ** C3: downloads are counted *)

Lemma or_zero_id (n : Z) : or_zero n = n.
Proof. unfold or_zero. destruct (Z.eqb_spec n 0); congruence. Qed.

(** One lookup of a record that the active store holds: the record is
    answered, and it stays where it was with [downloaded] set and
    [download_count] one higher. *)
Lemma lookup_once (id : string) (s : State) (i : nat) (c : Certificate) :
  id <> "" ->
  find_first (by_reference_id id) (store (active s) s) = Some (i, c) ->
  let o := simple_certificate [] (Some id) s in
  response o = certificate_json c /\
  active (state o) = active s /\
  exists c',
    find_first (by_reference_id id) (store (active s) (state o))
    = Some (i, c') /\
    downloaded c' = true /\
    download_count c' = download_count c + 1 /\
    certificate_json c' = certificate_json c.
Proof.
  intros Hid Hfind. cbv zeta. unfold simple_certificate.
  assert (Ht : JsString.truthy (Some id) = true) by (now destruct id).
  rewrite Ht. cbn [negb]. unfold active in *.
  destruct (useInMemoryStore s) eqn:Hflag; cbn [store] in Hfind.
  - rewrite Hfind. cbn [response state accesses].
    split; [reflexivity|].
    split; [cbn; now rewrite Hflag|].
    eexists. split.
    + cbn [store set_inMemoryStore inMemoryStore].
      apply find_first_update; [reflexivity | exact Hfind].
    + cbn. now rewrite or_zero_id.
  - cbn [await]. unfold Mongo.findOne. rewrite Hfind.
    cbn [response state accesses].
    split; [reflexivity|].
    split; [cbn; now rewrite Hflag|].
    eexists. split.
    + cbn [store set_SimpleCertificate SimpleCertificate].
      apply find_first_update; [reflexivity | exact Hfind].
    + cbn. auto.
Qed.

Lemma lookups_counted (id : string) (i : nat) (n : nat) :
  id <> "" ->
  forall (s : State) (c : Certificate),
    find_first (by_reference_id id) (store (active s) s) = Some (i, c) ->
    fst (lookups n (Some id) s) = repeat (certificate_json c) n /\
    active (snd (lookups n (Some id) s)) = active s /\
    exists c',
      find_first (by_reference_id id)
        (store (active s) (snd (lookups n (Some id) s))) = Some (i, c') /\
      (downloaded c' = true \/ (n = O /\ c' = c)) /\
      download_count c' = download_count c + Z.of_nat n /\
      certificate_json c' = certificate_json c.
Proof.
  intros Hid. induction n as [|n IH]; intros s c Hfind.
  - cbn. repeat split. exists c. rewrite Z.add_0_r. auto.
  - destruct (lookup_once id s i c Hid Hfind)
      as (Hresp & Hact & c1 & Hfind1 & Hdown1 & Hcount1 & Hjson1).
    cbn [lookups].
    set (o := simple_certificate [] (Some id) s) in *.
    rewrite <- Hact in Hfind1.
    destruct (IH (state o) c1 Hfind1)
      as (Hans & Hact' & c' & Hfind' & Hdown' & Hcount' & Hjson').
    destruct (lookups n (Some id) (state o)) as [answers s'].
    cbn [fst snd] in *.
    split; [now rewrite Hresp, Hans, Hjson1|].
    split; [congruence|].
    exists c'. rewrite <- Hact. split; [exact Hfind'|].
    split; [left; destruct Hdown' as [H | [_ ->]]; assumption|].
    split; [lia | congruence].
Qed.

(** Where reference ids are unique, the record that the store answers
    for the id of a record it holds is that record. *)
Lemma stored_record_is_found (l : list Certificate) (c : Certificate) :
  NoDup (map reference_id l) -> In c l ->
  exists i, find_first (by_reference_id (reference_id c)) l = Some (i, c).
Proof.
  induction l as [|x l IH]; intros Hnd Hin; [contradiction|].
  inversion Hnd as [|r rs Hx Hnd']; subst. cbn [find_first].
  unfold by_reference_id at 1.
  destruct (String.eqb_spec (reference_id x) (reference_id c)) as [Heq|Hne].
  - destruct Hin as [-> | Hin]; [now exists O|].
    exfalso. apply Hx. rewrite Heq. now apply in_map.
  - destruct Hin as [-> | Hin]; [congruence|].
    destruct (IH Hnd' Hin) as (i & ->). now exists (S i).
Qed.

(** The search by id finds the first record that carries the id. *)
Lemma first_with_id_is_found (l : list Certificate) :
  forall (i : nat) (c : Certificate),
    nth_error l i = Some c ->
    (forall j c', (j < i)%nat -> nth_error l j = Some c' ->
                  reference_id c' <> reference_id c) ->
    find_first (by_reference_id (reference_id c)) l = Some (i, c).
Proof.
  induction l as [|x l IH]; intros [|i] c Hnth Hfirst; simpl in *;
    try discriminate.
  - injection Hnth as ->. unfold by_reference_id. now rewrite String.eqb_refl.
  - unfold by_reference_id at 1.
    destruct (String.eqb_spec (reference_id x) (reference_id c)) as [E|_].
    + exfalso. apply (Hfirst O x); [lia | reflexivity | exact E].
    + rewrite (IH i c Hnth); [reflexivity|].
      intros j c' Hj Hc'. apply (Hfirst (S j) c'); [lia | exact Hc'].
Qed.

(** The state in which C3 is tried below is the one that the request
    overtaken by a failover leaves. *)
Example doubled_is_left_by_failover :
  option_map state
    (simple_generate Sample.zeros 1 3000 [[]; [OnDisconnected]] (Some "Carol")
       (Some "carol@example.com") Sample.reconnected)
  = Some Sample.doubled.
Proof. vm_compute. reflexivity. Qed.

(** C3, as stated, fails for a record that shares its reference id with
    an earlier record of the active store, as Carol's does after the
    failover that overtook her request: three lookups of her id each
    answer Ada's record and count on Ada's; Carol's record, third of the
    array, stays without a download. *)
Lemma lookup_answers_the_first_of_two :
  In Sample.carol (store (active Sample.doubled) Sample.doubled) /\
  fst (lookups 3 (Some (reference_id Sample.carol)) Sample.doubled)
  = repeat
      (CertificateOk "CSAC2025-00000" "Ada Lovelace" "ada@example.com"
         "Attended" 1000) 3 /\
  store (active Sample.doubled)
    (snd (lookups 3 (Some (reference_id Sample.carol)) Sample.doubled))
  = [mkCertificate "CSAC2025-00000" "Ada Lovelace" "ada@example.com"
       "Attended" 1000 true 3;
     Sample.bob; Sample.carol] /\
  downloaded Sample.carol = false /\ download_count Sample.carol = 0.
Proof.
  split; [right; right; now left|]. repeat split.
Qed.

(** C3, amended: for a record [c] of the active store, at position [i],
    with a reference id that is not empty and that no earlier record of
    the store carries (every record, where reference ids are unique),
    [n >= 1] lookups of its id, one after the other, each answer the
    reference id, name, e-mail, type and timestamp of [c], and leave at
    position [i] the record [c] with [downloaded = true] and
    [download_count] raised by [n], one per call: [n] itself for a
    record whose count was 0, as it is at creation. *)
Theorem downloads_are_counted
    (n : nat) (s : State) (i : nat) (c : Certificate) :
  reference_id c <> "" ->
  nth_error (store (active s) s) i = Some c ->
  (forall j c', (j < i)%nat -> nth_error (store (active s) s) j = Some c' ->
                reference_id c' <> reference_id c) ->
  (1 <= n)%nat ->
  fst (lookups n (Some (reference_id c)) s)
  = repeat
      (CertificateOk (reference_id c) (user_name c) (user_email c)
         (certificate_type c) (timestamp c)) n /\
  nth_error
    (store (active s) (snd (lookups n (Some (reference_id c)) s))) i
  = Some (mkCertificate (reference_id c) (user_name c) (user_email c)
            (certificate_type c) (timestamp c) true
            (download_count c + Z.of_nat n)) /\
  active (snd (lookups n (Some (reference_id c)) s)) = active s.
Proof.
  intros Hid Hnth Hfirst Hn.
  pose proof (first_with_id_is_found _ i c Hnth Hfirst) as Hfind.
  destruct (lookups_counted (reference_id c) i n Hid s c Hfind)
    as (Hans & Hact & c' & Hfind' & Hdown & Hcount & Hjson).
  assert (Hc' : c' = mkCertificate (reference_id c) (user_name c)
                       (user_email c) (certificate_type c) (timestamp c)
                       true (download_count c + Z.of_nat n)).
  { destruct Hdown as [Hd | [H _]]; [|lia].
    destruct c' as [r' n' e' t' ts' d' k']. cbn in *.
    unfold certificate_json in Hjson. cbn in Hjson.
    injection Hjson as -> -> -> -> ->. now subst. }
  destruct (find_first_some _ _ _ _ Hfind') as [Hnth' _].
  split; [exact Hans|]. rewrite Hnth', Hc'.
  split; [reflexivity | exact Hact].
Qed.

Lemma downloads_are_counted_witness :
  fst (lookups 3 (Some (reference_id Sample.ada)) Sample.doubled)
  = repeat
      (CertificateOk (reference_id Sample.ada) (user_name Sample.ada)
         (user_email Sample.ada) (certificate_type Sample.ada)
         (timestamp Sample.ada)) 3 /\
  nth_error
    (store (active Sample.doubled)
       (snd (lookups 3 (Some (reference_id Sample.ada)) Sample.doubled))) 0
  = Some (mkCertificate (reference_id Sample.ada) (user_name Sample.ada)
            (user_email Sample.ada) (certificate_type Sample.ada)
            (timestamp Sample.ada) true
            (download_count Sample.ada + Z.of_nat 3)) /\
  active (snd (lookups 3 (Some (reference_id Sample.ada)) Sample.doubled))
  = active Sample.doubled.
Proof.
  apply (downloads_are_counted 3 Sample.doubled 0 Sample.ada).
  - discriminate.
  - reflexivity.
  - intros j c' Hj. lia.
  - lia.
Defined.

(** The first lookup already sets the flag; a record downloaded three
    times before counts on from three. *)
Example first_lookup_marks :
  map downloaded
    (inMemoryStore (snd (lookups 1 (Some "CSAC2025-00000") Sample.archive)))
  = [true; true] /\
  map download_count
    (inMemoryStore (snd (lookups 2 (Some "CSAC2025-IZ90R") Sample.archive)))
  = [0; 5].
Proof. split; reflexivity. Qed.

(** ** C1: generating twice for one e-mail *)

Lemma check_existing_quiet (email : string) (s : State) :
  check_existing email [] s
  = (find_first (by_email email) (store (active s) s), s, [],
     [(CheckEmail, active s)]).
Proof.
  unfold check_existing, active, Mongo.findOne.
  now destruct (useInMemoryStore s).
Qed.

Lemma valid_name_nonempty (name : string) : valid_name name -> name <> "".
Proof. intros H ->. now apply H. Qed.

Lemma valid_email_nonempty (email : string) : valid_email email -> email <> "".
Proof. intros H ->. discriminate H. Qed.

Lemma truthy_nonempty (v : string) : v <> "" -> JsString.truthy (Some v) = true.
Proof. destruct v; [congruence | reflexivity]. Qed.

(** A request for an e-mail that the active store already holds is
    answered with the record held, whatever its fuel and random values,
    and changes nothing. *)
Lemma generate_existing
    (rand : nat -> Q) (fuel : nat) (now : Z) (name email : string) (s : State)
    (i : nat) (c : Certificate) :
  name <> "" -> valid_email email ->
  find_first (by_email (normalize email)) (store (active s) s) = Some (i, c) ->
  exists m,
    simple_generate rand fuel now [] (Some name) (Some email) s
    = Some (mkOutcome
              (GenerateOk true (reference_id c) (user_name c) (user_email c) m)
              s [(CheckEmail, active s)]).
Proof.
  intros Hn He Hfind.
  destruct (simple_generate_truthy rand fuel now [] (Some name) (Some email) s
              (truthy_nonempty _ Hn)
              (truthy_nonempty _ (valid_email_nonempty _ He)))
    as (name0 & email0 & [= <-] & [= <-] & _ & _ & ->).
  unfold generate_checked. fold (normalize email).
  unfold valid_email in He. rewrite He. cbn [negb].
  rewrite check_existing_quiet, Hfind. eauto.
Qed.

(** A request for a new e-mail, nothing interleaved: once the loop has
    ended, the record is appended to the active store and answered. *)
Lemma generate_new
    (rand : nat -> Q) (fuel : nat) (now : Z) (name email : string) (s : State)
    (o : Outcome) :
  valid_name name -> valid_email email ->
  find_first (by_email (normalize email)) (store (active s) s) = None ->
  simple_generate rand fuel now [] (Some name) (Some email) s = Some o ->
  exists id m,
    let c := mkCertificate id (JsString.trim name) (normalize email)
               "Attended" now false 0 in
    response o = GenerateOk false id (JsString.trim name) (normalize email) m /\
    find_first (by_reference_id id) (store (active s) s) = None /\
    active (state o) = active s /\
    store (active s) (state o) = (store (active s) s ++ [c])%list.
Proof.
  intros Hn He Hfind Hrun.
  destruct (simple_generate_truthy rand fuel now [] (Some name) (Some email) s
              (truthy_nonempty _ (valid_name_nonempty _ Hn))
              (truthy_nonempty _ (valid_email_nonempty _ He)))
    as (name0 & email0 & [= <-] & [= <-] & _ & _ & Heq).
  rewrite Heq in Hrun. clear Heq.
  unfold generate_checked in Hrun. fold (normalize email) in Hrun.
  unfold valid_email in He. rewrite He in Hrun. cbn [negb] in Hrun.
  rewrite check_existing_quiet, Hfind in Hrun.
  destruct (ensure_unique rand fuel 0 [] s [(CheckEmail, active s)])
    as [[[[id s2] sched2] log2]|] eqn:Hloop; [|discriminate].
  injection Hrun as <-.
  assert (Hid : String.eqb id "" = false).
  { destruct (ensure_unique_spec _ _ _ _ _ _ _ _ _ _ Hloop)
      as (j & _ & _ & _ & -> & _). reflexivity. }
  apply ensure_unique_quiet in Hloop. destruct Hloop as (-> & -> & Hfresh).
  exists id. unfold store_certificate, active in *.
  destruct (useInMemoryStore s) eqn:Hflag; cbn [store] in *.
  - eexists. cbn. rewrite Hflag. auto.
  - cbn [await]. rewrite save_fresh.
    + eexists. cbn. rewrite Hflag. unfold Mongo.construct.
      rewrite normalize_lower. auto.
    + unfold Mongo.validate, Mongo.construct, Mongo.required. cbn.
      rewrite normalize_lower, Hid.
      destruct (String.eqb_spec (JsString.trim name) "") as [E|_];
        [now apply Hn in E|].
      destruct (String.eqb_spec (normalize email) "") as [E|_];
        [|reflexivity].
      rewrite E in He. discriminate He.
    + exact Hfresh.
Qed.

(** C1: after a generate request with a valid name and e-mail has been
    answered, with reference id [id], a second request with the same
    normalized e-mail is answered with the record already held: marked
    [existing], with the same [id], name and e-mail, by the e-mail check
    alone, and the state, hence the active store, is left as it was. *)
Theorem generate_twice_returns_existing
    (rand : nat -> Q) (fuel : nat) (now : Z) (name email : string)
    (s : State) (o1 : Outcome) :
  valid_name name -> valid_email email ->
  simple_generate rand fuel now [] (Some name) (Some email) s = Some o1 ->
  exists existing id n e m,
    response o1 = GenerateOk existing id n e m /\
    e = normalize email /\
    (exists c, In c (store (active (state o1)) (state o1)) /\
               reference_id c = id /\ user_name c = n /\ user_email c = e) /\
    forall rand' fuel' now' name' email',
      name' <> "" -> normalize email' = normalize email ->
      exists m',
        simple_generate rand' fuel' now' [] (Some name') (Some email')
          (state o1)
        = Some (mkOutcome (GenerateOk true id n e m') (state o1)
                  [(CheckEmail, active (state o1))]).
Proof.
  intros Hn He Hrun.
  destruct (find_first (by_email (normalize email)) (store (active s) s))
    as [[i c]|] eqn:Hfind.
  - destruct (generate_existing rand fuel now name email s i c
                (valid_name_nonempty _ Hn) He Hfind) as (m & Heq).
    rewrite Heq in Hrun. injection Hrun as <-. cbn [response state].
    destruct (find_first_some _ _ _ _ Hfind) as [Hnth Hmail].
    apply String.eqb_eq in Hmail.
    exists true, (reference_id c), (user_name c), (user_email c), m.
    split; [reflexivity|]. split; [exact Hmail|].
    split; [exists c; split; [eapply nth_error_In; eauto | auto]|].
    intros rand' fuel' now' name' email' Hn' Hsame.
    apply (generate_existing rand' fuel' now' name' email' s i c Hn').
    + unfold valid_email. now rewrite Hsame.
    + now rewrite Hsame.
  - destruct (generate_new rand fuel now name email s o1 Hn He Hfind Hrun)
      as (id & m & Hresp & _ & Hact & Hstore).
    set (c := mkCertificate id (JsString.trim name) (normalize email)
                "Attended" now false 0) in *.
    exists false, id, (JsString.trim name), (normalize email), m.
    split; [exact Hresp|]. split; [reflexivity|].
    split.
    { exists c. rewrite Hact, Hstore. split; [|now auto].
      apply in_or_app. right. now left. }
    intros rand' fuel' now' name' email' Hn' Hsame.
    apply (generate_existing rand' fuel' now' name' email' (state o1)
             (List.length (store (active s) s)) c Hn').
    + unfold valid_email. now rewrite Hsame.
    + rewrite Hsame, Hact, Hstore. apply find_first_app_new; [exact Hfind|].
      apply String.eqb_refl.
Qed.

Lemma generate_twice_returns_existing_witness :
  exists o1,
    simple_generate Sample.mixed 1 1000 [] (Some "Ada Lovelace")
      (Some "ADA@Example.com ") Sample.online = Some o1 /\
    exists existing id n e m,
      response o1 = GenerateOk existing id n e m /\
      e = normalize "ADA@Example.com " /\
      (exists c, In c (store (active (state o1)) (state o1)) /\
                 reference_id c = id /\ user_name c = n /\ user_email c = e) /\
      forall rand' fuel' now' name' email',
        name' <> "" -> normalize email' = normalize "ADA@Example.com " ->
        exists m',
          simple_generate rand' fuel' now' [] (Some name') (Some email')
            (state o1)
          = Some (mkOutcome (GenerateOk true id n e m') (state o1)
                    [(CheckEmail, active (state o1))]).
Proof.
  eexists. split; [vm_compute; reflexivity|].
  apply (generate_twice_returns_existing Sample.mixed 1 1000 "Ada Lovelace"
           "ADA@Example.com " Sample.online).
  - unfold valid_name. vm_compute. discriminate.
  - reflexivity.
  - vm_compute. reflexivity.
Defined.

(** The scenario of the specification: the record is created with the
    e-mail lower-cased and trimmed, and asking again answers it. *)
Example generate_ada :
  exists o1 o2,
    simple_generate Sample.mixed 1 1000 [] (Some "Ada Lovelace")
      (Some "ADA@Example.com ") Sample.online = Some o1 /\
    response o1
    = GenerateOk false "CSAC2025-IZ90R" "Ada Lovelace" "ada@example.com"
        "Certificate generated successfully!" /\
    simple_generate Sample.zeros 0 2000 [] (Some "A. Lovelace")
      (Some " ada@EXAMPLE.com") (state o1) = Some o2 /\
    response o2
    = GenerateOk true "CSAC2025-IZ90R" "Ada Lovelace" "ada@example.com"
        "Certificate already generated for this email" /\
    state o2 = state o1.
Proof. do 2 eexists. repeat split; vm_compute; reflexivity. Qed.

(** With a valid name and e-mail and nothing interleaved, generate does
    answer: fuel beyond the first free candidate is enough. *)
Lemma generate_answers
    (rand : nat -> Q) (now : Z) (name email : string) (s : State) (k : nat) :
  valid_name name -> valid_email email ->
  find_first (by_reference_id (candidate rand k)) (store (active s) s) = None ->
  forall fuel, (k < fuel)%nat ->
    exists o existing id n e m,
      simple_generate rand fuel now [] (Some name) (Some email) s = Some o /\
      response o = GenerateOk existing id n e m.
Proof.
  intros Hn He Hfree fuel Hfuel.
  destruct (find_first (by_email (normalize email)) (store (active s) s))
    as [[i c]|] eqn:Hfind.
  - destruct (generate_existing rand fuel now name email s i c
                (valid_name_nonempty _ Hn) He Hfind) as (m & Heq).
    rewrite Heq. repeat eexists.
  - assert (Hrun : exists o,
               simple_generate rand fuel now [] (Some name) (Some email) s
               = Some o).
    { destruct (simple_generate_truthy rand fuel now [] (Some name)
                  (Some email) s
                  (truthy_nonempty _ (valid_name_nonempty _ Hn))
                  (truthy_nonempty _ (valid_email_nonempty _ He)))
        as (name0 & email0 & [= <-] & [= <-] & _ & _ & ->).
      unfold generate_checked. fold (normalize email).
      unfold valid_email in He. rewrite He. cbn [negb].
      rewrite check_existing_quiet, Hfind.
      destruct (ensure_unique_terminates rand s k 0
                  [(CheckEmail, active s)] Hfree fuel Hfuel)
        as (id & log2 & ->).
      eauto. }
    destruct Hrun as (o & Hrun).
    destruct (generate_new rand fuel now name email s o Hn He Hfind Hrun)
      as (id & m & Hresp & _).
    rewrite Hrun. repeat eexists. exact Hresp.
Qed.

(** ** Which backend serves a request *)

Lemma store_certificate_accesses
    (id cn ce : string) (now : Z) (sched : Schedule) (s : State)
    (log : list Access) :
  accesses (store_certificate id cn ce now sched s log)
  = (log ++ [(Insert, active s)])%list.
Proof.
  unfold store_certificate, active.
  destruct (useInMemoryStore s); [reflexivity|].
  destruct (await sched s) as [s1 rest].
  now destruct (Mongo.save _ (SimpleCertificate s1)).
Qed.

Lemma check_existing_steady (email : string) (sched : Schedule) (s : State) :
  steady sched ->
  forall existing s1 sched1 log1,
    check_existing email sched s = (existing, s1, sched1, log1) ->
    steady sched1 /\ useInMemoryStore s1 = useInMemoryStore s /\
    log1 = [(CheckEmail, active s)].
Proof.
  intros Hst existing s1 sched1 log1. unfold check_existing, active.
  destruct (useInMemoryStore s) eqn:Hflag.
  - intros [= <- <- <- <-]. auto.
  - destruct (await_steady sched s Hst) as [Hkeep Hrest].
    destruct (await sched s) as [s' sched']. cbn [fst snd] in *.
    intros [= <- <- <- <-]. split; [exact Hrest|]. split; [congruence|].
    reflexivity.
Qed.

(** The array is searched and extended without suspending: a loop entered
    with the in-memory store selected ends in the state it started from. *)
Lemma ensure_unique_memory (rand : nat -> Q) (fuel : nat) :
  forall j sched s log id s2 sched2 log2,
    useInMemoryStore s = true ->
    ensure_unique rand fuel j sched s log = Some (id, s2, sched2, log2) ->
    s2 = s /\ exists probes, log2 = (log ++ probes)%list /\
                            served_by InMemory probes.
Proof.
  induction fuel as [|fuel IH]; intros j sched s log id s2 sched2 log2 Hflag H;
    simpl in H; [discriminate|].
  rewrite Hflag in H.
  destruct (find_first _ (inMemoryStore s)) as [[i c]|].
  - apply IH in H; [|exact Hflag].
    destruct H as (-> & probes & -> & Hsv). split; [reflexivity|].
    exists ((CheckReference, InMemory) :: probes). split.
    + now rewrite <- app_assoc.
    + now constructor.
  - injection H as <- <- <- <-. split; [reflexivity|].
    exists [(CheckReference, InMemory)]. split; [reflexivity|].
    now repeat constructor.
Qed.

(** A generate request that starts with the in-memory store selected
    never suspends, and works on that store alone. *)
Lemma generate_in_memory
    (rand : nat -> Q) (fuel : nat) (now : Z) (sched : Schedule)
    (name email : option string) (s : State) (o : Outcome) :
  useInMemoryStore s = true ->
  simple_generate rand fuel now sched name email s = Some o ->
  served_by InMemory (accesses o).
Proof.
  intros Hflag Hrun.
  destruct (JsString.truthy name) eqn:Hn;
    [|rewrite simple_generate_falsy in Hrun by auto;
      injection Hrun as <-; constructor].
  destruct (JsString.truthy email) eqn:He;
    [|rewrite simple_generate_falsy in Hrun by auto;
      injection Hrun as <-; constructor].
  destruct (simple_generate_truthy rand fuel now sched name email s Hn He)
    as (name0 & email0 & -> & -> & _ & _ & Heq).
  rewrite Heq in Hrun. clear Heq. unfold generate_checked in Hrun.
  destruct (negb (Regex.test emailRegex _)).
  { injection Hrun as <-. constructor. }
  unfold check_existing in Hrun. rewrite Hflag in Hrun.
  destruct (find_first _ (inMemoryStore s)) as [[i c]|].
  { injection Hrun as <-. now repeat constructor. }
  destruct (ensure_unique rand fuel 0 sched s [(CheckEmail, InMemory)])
    as [[[[id s2] sched2] log2]|] eqn:Hloop; [|discriminate].
  injection Hrun as <-.
  apply ensure_unique_memory in Hloop; [|exact Hflag].
  destruct Hloop as (-> & probes & -> & Hsv).
  rewrite store_certificate_accesses.
  rewrite (proj2 (active_InMemory s) Hflag).
  apply served_by_app; [apply served_by_app|]; auto;
    now repeat constructor.
Qed.

(** A generate request during which the selector is not written works on
    the store that was active when it started. *)
Lemma generate_steady
    (rand : nat -> Q) (fuel : nat) (now : Z) (sched : Schedule)
    (name email : option string) (s : State) (o : Outcome) :
  steady sched ->
  simple_generate rand fuel now sched name email s = Some o ->
  served_by (active s) (accesses o).
Proof.
  intros Hst Hrun.
  destruct (JsString.truthy name) eqn:Hn;
    [|rewrite simple_generate_falsy in Hrun by auto;
      injection Hrun as <-; constructor].
  destruct (JsString.truthy email) eqn:He;
    [|rewrite simple_generate_falsy in Hrun by auto;
      injection Hrun as <-; constructor].
  destruct (simple_generate_truthy rand fuel now sched name email s Hn He)
    as (name0 & email0 & -> & -> & _ & _ & Heq).
  rewrite Heq in Hrun. clear Heq. unfold generate_checked in Hrun.
  destruct (negb (Regex.test emailRegex _)).
  { injection Hrun as <-. constructor. }
  destruct (check_existing _ sched s) as [[[existing s1] sched1] log1] eqn:Hpre.
  apply check_existing_steady in Hpre; [|exact Hst].
  destruct Hpre as (Hst1 & Hflag1 & ->).
  destruct existing as [[i c]|].
  { injection Hrun as <-. now repeat constructor. }
  destruct (ensure_unique rand fuel 0 sched1 s1 [(CheckEmail, active s)])
    as [[[[id s2] sched2] log2]|] eqn:Hloop; [|discriminate].
  injection Hrun as <-.
  apply ensure_unique_steady in Hloop; [|exact Hst1].
  destruct Hloop as (_ & Hflag2 & probes & -> & Hsv).
  rewrite store_certificate_accesses.
  assert (H1 : active s1 = active s) by (unfold active; now rewrite Hflag1).
  assert (H2 : active s2 = active s)
    by (unfold active; now rewrite Hflag2, Hflag1).
  rewrite H1 in Hsv. rewrite H2.
  apply served_by_app; [apply served_by_app|]; auto;
    now repeat constructor.
Qed.

(** A lookup reads the selector once. *)
Lemma lookup_served_by_active (sched : Schedule) (id : option string)
    (s : State) :
  served_by (active s) (accesses (simple_certificate sched id s)).
Proof.
  unfold simple_certificate, active.
  destruct (negb (JsString.truthy id)); [constructor|].
  destruct id as [id|]; [|constructor].
  destruct (useInMemoryStore s).
  - destruct (find_first _ (inMemoryStore s)) as [[i c]|];
      now repeat constructor.
  - destruct (await sched s) as [s1 sched1].
    destruct (Mongo.findOne _ _) as [[i c]|]; [|now repeat constructor].
    destruct (await sched1 s1). now repeat constructor.
Qed.

(** So does the statistics request. *)
Lemma stats_served_by_active (sched : Schedule) (s : State) :
  served_by (active s) (accesses (stats sched s)).
Proof.
  unfold stats, active. destruct (useInMemoryStore s).
  - now repeat constructor.
  - destruct (await sched s) as [s1 sched1].
    destruct (await sched1 s1) as [s2 sched2].
    destruct (await sched2 s2). now repeat constructor.
Qed.

(** ** C6: one value of the selector per request *)

(** C6, as stated, fails for generate: the durable backend is active when
    the request starts and answers the e-mail check; 'disconnected' fires
    while that check is awaited; the uniqueness probe and the insert then
    go to the in-memory array. *)
Lemma generate_follows_a_flip :
  exists o,
    simple_generate Sample.zeros 1 3000 [[OnDisconnected]] (Some "Bob")
      (Some "bob@example.com") Sample.online = Some o /\
    accesses o
    = [(CheckEmail, Durable); (CheckReference, InMemory); (Insert, InMemory)] /\
    ~ consistent (accesses o) /\
    SimpleCertificate (state o) = [] /\
    inMemoryStore (state o)
    = [mkCertificate "CSAC2025-00000" "Bob" "bob@example.com" "Attended"
         3000 false 0].
Proof.
  eexists. split; [vm_compute; reflexivity|]. cbn [accesses state].
  split; [reflexivity|]. split; [|split; reflexivity].
  intros [b Hb]. unfold served_by in Hb.
  rewrite !Forall_cons_iff in Hb. cbn in Hb.
  destruct Hb as (Ha & Ha' & _). congruence.
Qed.

(** C6, amended: a lookup and a statistics request read the selector once
    and work on the backend selected at entry under every schedule; a
    generate request reads it again at every step, and works on one
    backend when it starts on the in-memory store, which it searches and
    extends without suspending, or when no event writes the selector
    while it is suspended. *)
Theorem selector_read_at_each_step :
  (forall sched id s,
      served_by (active s) (accesses (simple_certificate sched id s))) /\
  (forall sched s, served_by (active s) (accesses (stats sched s))) /\
  (forall rand fuel now sched name email s o,
      simple_generate rand fuel now sched name email s = Some o ->
      useInMemoryStore s = true \/ steady sched ->
      served_by (active s) (accesses o) /\ consistent (accesses o)).
Proof.
  split; [exact lookup_served_by_active|].
  split; [exact stats_served_by_active|].
  intros rand fuel now sched name email s o Hrun Hcase.
  assert (H : served_by (active s) (accesses o)).
  { destruct Hcase as [Hflag | Hst].
    - rewrite (proj2 (active_InMemory s) Hflag).
      eapply generate_in_memory; eauto.
    - eapply generate_steady; eauto. }
  split; [exact H | now exists (active s)].
Qed.

Lemma selector_read_at_each_step_witness :
  exists o,
    simple_generate Sample.zeros 1 3000
      [[OnError]; [RemoteSave Sample.bob]] (Some "Carol")
      (Some "carol@example.com") Sample.online = Some o /\
    served_by (active Sample.online) (accesses o) /\ consistent (accesses o).
Proof.
  eexists. split; [vm_compute; reflexivity|].
  apply (proj2 (proj2 selector_read_at_each_step) Sample.zeros 1%nat 3000
           [[OnError]; [RemoteSave Sample.bob]] (Some "Carol")
           (Some "carol@example.com") Sample.online).
  - vm_compute. reflexivity.
  - right. repeat constructor.
Defined.

(** ** C2: the reference id of a created record *)

(** C2 at a request that a failover overtakes: the array already holds
    [CSAC2025-00000], from an earlier outage; the durable backend is
    active and does not hold that id, so the probe finds nothing;
    'disconnected' fires while the probe is awaited, and the record is
    pushed, unchecked, onto the array, now the active store, which then
    holds the id twice. *)
Theorem duplicate_id_after_failover :
  exists o,
    simple_generate Sample.zeros 1 3000 [[]; [OnDisconnected]] (Some "Carol")
      (Some "carol@example.com") Sample.reconnected = Some o /\
    response o
    = GenerateOk false "CSAC2025-00000" "Carol" "carol@example.com"
        "Certificate generated successfully (in-memory)!" /\
    accesses o
    = [(CheckEmail, Durable); (CheckReference, Durable); (Insert, InMemory)] /\
    active (state o) = InMemory /\
    store InMemory (state o)
    = (store InMemory Sample.reconnected
         ++ [mkCertificate "CSAC2025-00000" "Carol" "carol@example.com"
               "Attended" 3000 false 0])%list /\
    In Sample.ada (store InMemory Sample.reconnected) /\
    reference_id Sample.ada = "CSAC2025-00000".
Proof.
  eexists. split; [vm_compute; reflexivity|]. cbn [response accesses state].
  repeat split. now left.
Qed.

(** What the loop does ensure.  Every record that generate creates has a
    reference id made of [CSAC2025-] and exactly five characters of
    [[0-9A-Z]], and is appended to the store selected at the insert; its
    id differs from the id of every record that store held whenever the
    last uniqueness probe was made on that same store, which is the case
    when no event writes the selector during the request. *)
Lemma created_id_well_formed_and_fresh
    (rand : nat -> Q) (fuel : nat) (now : Z) (sched : Schedule)
    (name email : option string) (s : State) (o : Outcome)
    (id n e m : string) :
  unit_interval rand ->
  simple_generate rand fuel now sched name email s = Some o ->
  response o = GenerateOk false id n e m ->
  well_formed_id id /\
  exists probed b pre c log,
    accesses o = (log ++ [(CheckReference, probed); (Insert, b)])%list /\
    store b (state o) = (pre ++ [c])%list /\
    reference_id c = id /\
    (probed = b -> forall c', In c' pre -> reference_id c' <> id) /\
    (steady sched -> probed = b /\ b = active s).
Proof.
  intros Hrand Hrun Hresp.
  destruct (generate_created _ _ _ _ _ _ _ _ _ _ _ _ Hrun Hresp)
    as (name0 & email0 & j & bp & b & pre & log & _ & _ & _ & _ & Hid
        & Hstore & Hacc & Hfresh).
  split; [rewrite Hid; now apply candidate_well_formed|].
  exists bp, b, pre, (mkCertificate id n e "Attended" now false 0), log.
  split; [exact Hacc|]. split; [exact Hstore|]. split; [reflexivity|].
  split.
  - intros Hsame c' Hin Heq.
    pose proof (find_first_not_in _ _ (Hfresh Hsame) c' Hin) as Hno.
    unfold by_reference_id in Hno. apply String.eqb_neq in Hno. contradiction.
  - intros Hst. pose proof (generate_steady _ _ _ _ _ _ _ _ Hst Hrun) as Hsv.
    rewrite Hacc in Hsv. apply Forall_app in Hsv. destruct Hsv as [_ Hsv].
    rewrite !Forall_cons_iff in Hsv. cbn in Hsv.
    destruct Hsv as (Ha & Ha' & _). split; congruence.
Qed.

Lemma mixed_unit_interval : unit_interval Sample.mixed.
Proof.
  intros k. unfold Sample.mixed.
  do 5 (destruct k as [|k]; [split; [discriminate | reflexivity]|]).
  destruct k; split; (discriminate || reflexivity).
Qed.

Lemma created_id_well_formed_and_fresh_at_retry :
  exists o,
    simple_generate Sample.mixed 2 3000 [[RemoteSave Sample.bob]]
      (Some "Carol") (Some "carol@example.com") Sample.online = Some o /\
    well_formed_id "CSAC2025-00000" /\
    exists probed b pre c log,
      accesses o = (log ++ [(CheckReference, probed); (Insert, b)])%list /\
      store b (state o) = (pre ++ [c])%list /\
      reference_id c = "CSAC2025-00000" /\
      (probed = b ->
       forall c', In c' pre -> reference_id c' <> "CSAC2025-00000") /\
      (steady [[RemoteSave Sample.bob]] ->
       probed = b /\ b = active Sample.online).
Proof.
  eexists. split; [vm_compute; reflexivity|].
  apply (created_id_well_formed_and_fresh Sample.mixed 2 3000
           [[RemoteSave Sample.bob]] (Some "Carol")
           (Some "carol@example.com") Sample.online _
           "CSAC2025-00000" "Carol" "carol@example.com"
           "Certificate generated successfully!").
  - exact mixed_unit_interval.
  - vm_compute. reflexivity.
  - reflexivity.
Defined.

(** The first candidate, [CSAC2025-IZ90R], is taken by a record saved
    meanwhile; the loop draws again. *)
Example generate_retries :
  option_map accesses
    (simple_generate Sample.mixed 2 3000 [[RemoteSave Sample.bob]]
       (Some "Carol") (Some "carol@example.com") Sample.online)
  = Some [(CheckEmail, Durable); (CheckReference, Durable);
          (CheckReference, Durable); (Insert, Durable)].
Proof. vm_compute. reflexivity. Qed.

(** ** C5: uniqueness at the storage layer, and a refused insert *)

(** The accesses of the loop are uniqueness probes. *)
Lemma ensure_unique_probes (rand : nat -> Q) (fuel : nat) :
  forall j sched s log id s2 sched2 log2,
    ensure_unique rand fuel j sched s log = Some (id, s2, sched2, log2) ->
    exists probes, log2 = (log ++ probes)%list /\
                   Forall (fun a => fst a = CheckReference) probes.
Proof.
  induction fuel as [|fuel IH]; intros j sched s log id s2 sched2 log2 H;
    simpl in H; [discriminate|].
  destruct (useInMemoryStore s).
  - destruct (find_first _ (inMemoryStore s)) as [[i c]|].
    + apply IH in H. destruct H as (probes & -> & Hp).
      exists ((CheckReference, InMemory) :: probes).
      split; [now rewrite <- app_assoc | now constructor].
    + injection H as <- <- <- <-. exists [(CheckReference, InMemory)].
      split; [reflexivity | now repeat constructor].
  - destruct (await sched s) as [s1 sched1]. unfold Mongo.findOne in H.
    destruct (find_first _ (SimpleCertificate s1)) as [[i c]|].
    + apply IH in H. destruct H as (probes & -> & Hp).
      exists ((CheckReference, Durable) :: probes).
      split; [now rewrite <- app_assoc | now constructor].
    + injection H as <- <- <- <-. exists [(CheckReference, Durable)].
      split; [reflexivity | now repeat constructor].
Qed.

(** An answer 500 of generate comes from the one insert it attempted. *)
Lemma generate_server_error
    (rand : nat -> Q) (fuel : nat) (now : Z) (sched : Schedule)
    (name email : option string) (s : State) (o : Outcome) (error : string) :
  simple_generate rand fuel now sched name email s = Some o ->
  response o = ServerError error ->
  error = "Internal server error" /\
  exists log,
    accesses o = (log ++ [(Insert, Durable)])%list /\
    Forall (fun a => fst a <> Insert) log.
Proof.
  intros Hrun Hresp.
  destruct (JsString.truthy name) eqn:Hn;
    [|rewrite simple_generate_falsy in Hrun by auto;
      injection Hrun as <-; discriminate].
  destruct (JsString.truthy email) eqn:He;
    [|rewrite simple_generate_falsy in Hrun by auto;
      injection Hrun as <-; discriminate].
  destruct (simple_generate_truthy rand fuel now sched name email s Hn He)
    as (name0 & email0 & -> & -> & _ & _ & Heq).
  rewrite Heq in Hrun. clear Heq. unfold generate_checked in Hrun.
  destruct (negb (Regex.test emailRegex _)).
  { injection Hrun as <-; discriminate. }
  destruct (check_existing _ sched s) as [[[existing s1] sched1] log1] eqn:Hpre.
  assert (Hlog1 : Forall (fun a : Access => fst a <> Insert) log1).
  { unfold check_existing in Hpre. destruct (useInMemoryStore s).
    - injection Hpre as <- <- <- <-. now repeat constructor.
    - destruct (await sched s). injection Hpre as <- <- <- <-.
      now repeat constructor. }
  destruct existing as [[i c]|].
  { injection Hrun as <-; discriminate. }
  destruct (ensure_unique rand fuel 0 sched1 s1 log1)
    as [[[[id s2] sched2] log2]|] eqn:Hloop; [|discriminate].
  injection Hrun as <-.
  apply ensure_unique_probes in Hloop. destruct Hloop as (probes & -> & Hp).
  unfold store_certificate in *.
  destruct (useInMemoryStore s2); [discriminate|].
  destruct (await sched2 s2) as [s3 rest].
  destruct (Mongo.save _ (SimpleCertificate s3)); [|discriminate].
  cbn in Hresp |- *. injection Hresp as <-. split; [reflexivity|].
  eexists. split; [reflexivity|].
  apply Forall_app. split; [exact Hlog1|].
  eapply Forall_impl; [|exact Hp]. cbn. intros a ->. discriminate.
Qed.

(** C5, as stated, fails on both counts.  The collection accepts a second
    record with an e-mail it already holds.  And when another request
    saves the same reference id between the probe and the [save()] of
    this one, the duplicate-key error goes to the [catch] of the handler:
    the answer is 500 at once, with fuel left for four more candidates
    and no lookup by e-mail.  Likewise two requests racing for one new
    e-mail leave two records with it. *)
Lemma refused_insert_is_internal_error :
  (exists coll,
      Mongo.save
        (mkCertificate "CSAC2025-AAAAA" "A. Lovelace" "ada@example.com"
           "Attended" 5000 false 0) [Sample.ada] = inr coll /\
      user_email Sample.ada = "ada@example.com") /\
  (exists o,
      simple_generate Sample.zeros 5 3000 [[]; []; [RemoteSave Sample.ada]]
        (Some "Carol") (Some "carol@example.com") Sample.online = Some o /\
      response o = ServerError "Internal server error" /\
      status (response o) = 500 /\
      accesses o
      = [(CheckEmail, Durable); (CheckReference, Durable); (Insert, Durable)] /\
      SimpleCertificate (state o) = [Sample.ada]) /\
  (exists o,
      simple_generate Sample.mixed 5 3000 [[]; [RemoteSave Sample.ada]]
        (Some "Ada") (Some "ada@example.com") Sample.online = Some o /\
      response o
      = GenerateOk false "CSAC2025-IZ90R" "Ada" "ada@example.com"
          "Certificate generated successfully!" /\
      map user_email (SimpleCertificate (state o))
      = ["ada@example.com"; "ada@example.com"]).
Proof.
  split; [|split].
  - eexists. split; reflexivity.
  - eexists. split; [vm_compute; reflexivity|]. repeat split.
  - eexists. split; [vm_compute; reflexivity|]. repeat split.
Qed.

(** C5, amended: the collection enforces uniqueness of [reference_id]
    alone: a valid document is refused exactly when its reference id is
    held already, whatever its e-mail.  When [save()] fails, the insert
    step answers 500 'Internal server error' and writes nothing; an
    answer 500 of generate always comes from its single insert attempt,
    the last access of the request: there is no retry and no second
    lookup by e-mail. *)
Theorem reference_id_alone_is_unique :
  (forall doc coll,
      Mongo.validate doc = true ->
      Mongo.save doc coll
      = if List.existsb (by_reference_id (reference_id doc)) coll
        then inl Mongo.DuplicateKey
        else inr (coll ++ [doc])%list) /\
  (forall id cn ce now sched s log err,
      useInMemoryStore s = false ->
      Mongo.save (Mongo.construct id cn ce "Attended" now false 0)
        (SimpleCertificate (fst (await sched s))) = inl err ->
      store_certificate id cn ce now sched s log
      = mkOutcome (ServerError "Internal server error") (fst (await sched s))
          (log ++ [(Insert, Durable)])%list) /\
  (forall rand fuel now sched name email s o error,
      simple_generate rand fuel now sched name email s = Some o ->
      response o = ServerError error ->
      error = "Internal server error" /\
      status (response o) = 500 /\
      exists log,
        accesses o = (log ++ [(Insert, Durable)])%list /\
        Forall (fun a => fst a <> Insert) log).
Proof.
  split; [|split].
  - intros doc coll Hv. unfold Mongo.save, Mongo.violates_unique_index.
    now rewrite Hv.
  - intros id cn ce now sched s log err Hflag Hsave.
    unfold store_certificate. rewrite Hflag.
    destruct (await sched s) as [s1 rest]. cbn [fst] in *.
    now rewrite Hsave.
  - intros rand fuel now sched name email s o error Hrun Hresp.
    destruct (generate_server_error _ _ _ _ _ _ _ _ _ Hrun Hresp)
      as (-> & log & Hacc & Hlog).
    split; [reflexivity|]. split; [now rewrite Hresp|]. eauto.
Qed.

Lemma reference_id_alone_is_unique_witness :
  exists o,
    simple_generate Sample.zeros 5 3000 [[]; []; [RemoteSave Sample.ada]]
      (Some "Carol") (Some "carol@example.com") Sample.online = Some o /\
    "Internal server error" = "Internal server error" /\
    status (response o) = 500 /\
    exists log,
      accesses o = (log ++ [(Insert, Durable)])%list /\
      Forall (fun a => fst a <> Insert) log.
Proof.
  eexists. split; [vm_compute; reflexivity|].
  apply (proj2 (proj2 reference_id_alone_is_unique) Sample.zeros 5%nat 3000
           [[]; []; [RemoteSave Sample.ada]] (Some "Carol")
           (Some "carol@example.com") Sample.online).
  - vm_compute. reflexivity.
  - reflexivity.
Defined.

(** * Further properties of the handlers *)

(** ** The e-mail pattern *)

Lemma string_app_nil_r (s : string) : s ++ "" = s.
Proof. induction s as [|c s IH]; simpl; [reflexivity | now rewrite IH]. Qed.

Lemma string_app_assoc (a b c : string) : (a ++ b) ++ c = a ++ b ++ c.
Proof. induction a as [|x a IH]; simpl; [reflexivity | now rewrite IH]. Qed.

Lemma string_app_eq_nil (a b : string) : a ++ b = "" -> a = "" /\ b = "".
Proof. destruct a; simpl; [auto | discriminate]. Qed.

Lemma nullable_denotes (r : Regex.regex) :
  Regex.nullable r = true <-> denotes r "".
Proof.
  induction r as [| |p|r1 IH1 r2 IH2|r1 IH1 r2 IH2|r IH]; simpl.
  - split; [discriminate | intros H; inversion H].
  - split; [constructor | reflexivity].
  - split; [discriminate | intros H; inversion H].
  - rewrite andb_true_iff, IH1, IH2. split.
    + intros [H1 H2]. exact (denotes_seq _ _ "" "" H1 H2).
    + intros H. inversion H as [| |? ? s1 s2 H1 H2 E1 E2| | | |]; subst.
      apply string_app_eq_nil in E2. destruct E2 as [-> ->]. now split.
  - rewrite orb_true_iff, IH1, IH2. split.
    + intros [H | H]; [now apply denotes_alt_l | now apply denotes_alt_r].
    + intros H. inversion H; subst; auto.
  - split; [constructor | reflexivity].
Qed.

(** A non-empty word of [r*] starts with a non-empty word of [r]. *)
Lemma denotes_star_cons_inv (r : Regex.regex) (s : string) :
  denotes (Regex.Star r) s ->
  forall c s', s = String c s' ->
    exists s1 s2, s' = s1 ++ s2 /\ denotes r (String c s1) /\
                  denotes (Regex.Star r) s2.
Proof.
  remember (Regex.Star r) as r' eqn:Hr. intros H.
  induction H as [| | | | | r0 | r0 s1 s2 H1 _ H2 IH2];
    try discriminate Hr.
  - intros c s' E. discriminate E.
  - injection Hr as ->. intros c s' E.
    destruct s1 as [|c1 s1]; simpl in E.
    + now apply IH2.
    + injection E as -> <-. now exists s1, s2.
Qed.

Lemma deriv_denotes (r : Regex.regex) :
  forall c s, denotes (Regex.deriv c r) s <-> denotes r (String c s).
Proof.
  induction r as [| |p|r1 IH1 r2 IH2|r1 IH1 r2 IH2|r IH]; intros c s; simpl.
  - split; intros H; inversion H.
  - split; intros H; inversion H.
  - destruct (p c) eqn:Hp.
    + split; intros H; inversion H; subst; now constructor.
    + split; intros H; inversion H; subst. congruence.
  - assert (Hseq : denotes (Regex.Seq (Regex.deriv c r1) r2) s <->
                   exists s1 s2, s = s1 ++ s2 /\ denotes r1 (String c s1) /\
                                 denotes r2 s2).
    { split.
      - intros H. inversion H as [| |? ? s1 s2 H1 H2| | | |]; subst.
        exists s1, s2. rewrite <- IH1. auto.
      - intros (s1 & s2 & -> & H1 & H2). constructor; [now apply IH1 | exact H2]. }
    assert (Hinv : denotes (Regex.Seq r1 r2) (String c s) <->
                   (exists s1 s2, s = s1 ++ s2 /\ denotes r1 (String c s1) /\
                                  denotes r2 s2) \/
                   (denotes r1 "" /\ denotes r2 (String c s))).
    { split.
      - intros H. inversion H as [| |? ? s1 s2 H1 H2 E1 E2| | | |]; subst.
        destruct s1 as [|c1 s1]; simpl in E2.
        + right. subst s2. now split.
        + injection E2 as -> <-. left. now exists s1, s2.
      - intros [(s1 & s2 & -> & H1 & H2) | [H1 H2]].
        + exact (denotes_seq _ _ (String c s1) s2 H1 H2).
        + exact (denotes_seq _ _ "" (String c s) H1 H2). }
    rewrite Hinv. destruct (Regex.nullable r1) eqn:Hn.
    + split.
      * intros H. inversion H; subst.
        -- left. now apply Hseq.
        -- right. split; [now apply nullable_denotes | now apply IH2].
      * intros [H | [_ H]].
        -- apply denotes_alt_l. now apply Hseq.
        -- apply denotes_alt_r. now apply IH2.
    + rewrite Hseq. split; [auto|].
      intros [H | [H _]]; [exact H|].
      apply nullable_denotes in H. congruence.
  - split.
    + intros H. inversion H; subst;
        [apply denotes_alt_l; now apply IH1 | apply denotes_alt_r; now apply IH2].
    + intros H. inversion H; subst;
        [apply denotes_alt_l; now apply IH1 | apply denotes_alt_r; now apply IH2].
  - split.
    + intros H. inversion H as [| |? ? s1 s2 H1 H2| | | |]; subst.
      apply IH in H1.
      exact (denotes_star_cons r (String c s1) s2 H1 H2).
    + intros H.
      destruct (denotes_star_cons_inv r _ H c s eq_refl)
        as (s1 & s2 & -> & H1 & H2).
      constructor; [now apply IH | exact H2].
Qed.

(** The matcher decides the language. *)
Lemma test_denotes (s : string) :
  forall r, Regex.test r s = true <-> denotes r s.
Proof.
  induction s as [|c s IH]; intros r; simpl.
  - apply nullable_denotes.
  - rewrite IH. apply deriv_denotes.
Qed.

Lemma star_class_denotes (p : ascii -> bool) (s : string) :
  denotes (Regex.Star (Regex.Class p)) s <-> JsString.forallb p s = true.
Proof.
  split.
  - remember (Regex.Star (Regex.Class p)) as r eqn:Hr. intros H.
    induction H as [| | | | | r0 | r0 s1 s2 H1 _ H2 IH2]; try discriminate Hr.
    + reflexivity.
    + injection Hr as ->. inversion H1; subst. simpl.
      rewrite IH2 by reflexivity. now rewrite andb_true_r.
  - induction s as [|c s IH]; simpl; intros H.
    + constructor.
    + apply andb_true_iff in H. destruct H as [Hc Hs].
      apply (denotes_star_cons _ (String c "") s); [now constructor | auto].
Qed.

Lemma plus_class_denotes (p : ascii -> bool) (s : string) :
  denotes (Regex.Plus (Regex.Class p)) s <->
  s <> "" /\ JsString.forallb p s = true.
Proof.
  unfold Regex.Plus. split.
  - intros H. inversion H as [| |? ? s1 s2 H1 H2| | | |]; subst.
    inversion H1; subst. apply star_class_denotes in H2. simpl.
    split; [discriminate | now rewrite H2, andb_true_r].
  - intros [Hne H]. destruct s as [|c s]; [congruence|]. simpl in H.
    apply andb_true_iff in H. destruct H as [Hc Hs].
    apply (denotes_seq _ _ (String c "") s); [now constructor|].
    now apply star_class_denotes.
Qed.

Lemma char_denotes (a : ascii) (s : string) :
  denotes (Regex.Char a) s <-> s = String a "".
Proof.
  unfold Regex.Char. split.
  - intros H. inversion H as [|p c Hc| | | | |]; subst.
    apply Ascii.eqb_eq in Hc. now subst.
  - intros ->. constructor. apply Ascii.eqb_refl.
Qed.

(** The e-mail pattern accepts exactly the strings [local@domain.tld] in
    which [local], [domain] and [tld] are non-empty and hold neither
    white space nor [@]. *)
Theorem emailRegex_accepts_email_shape (s : string) :
  Regex.test emailRegex s = true <-> email_shape s.
Proof.
  rewrite test_denotes. unfold emailRegex, email_shape, word. split.
  - intros H.
    inversion H as [| |? ? local s1 Hl H1| | | |]; subst.
    inversion H1 as [| |? ? at_ s2 Ha H2| | | |]; subst.
    inversion H2 as [| |? ? domain s3 Hd H3| | | |]; subst.
    inversion H3 as [| |? ? dot tld Hdot Ht| | | |]; subst.
    apply char_denotes in Ha, Hdot. subst.
    apply plus_class_denotes in Hl, Hd, Ht.
    now exists local, domain, tld.
  - intros (local & domain & tld & -> & Hl & Hd & Ht).
    apply plus_class_denotes in Hl, Hd, Ht.
    repeat (apply denotes_seq; [assumption || now apply char_denotes|]).
    exact Ht.
Qed.

(** So an accepted e-mail holds exactly one [@], and no white space. *)
Lemma email_shape_no_space (s : string) :
  email_shape s -> JsString.forallb (fun c => negb (JsString.is_white_space c)) s
                   = true.
Proof.
  intros (local & domain & tld & -> & [_ Hl] & [_ Hd] & [_ Ht]).
  assert (Hw : forall w, JsString.forallb not_space_at w = true ->
               JsString.forallb (fun c => negb (JsString.is_white_space c)) w
               = true).
  { induction w as [|c w IH]; simpl; [reflexivity|]. unfold not_space_at at 1.
    rewrite !andb_true_iff. intros [[Hc _] Hrest]. auto. }
  rewrite !string_forallb_app, (Hw _ Hl), (Hw _ Hd), (Hw _ Ht). reflexivity.
Qed.

(** ** Cleaning the inputs *)

Lemma lower_char_white_space (c : ascii) :
  JsString.is_white_space (JsString.lower_char c) = JsString.is_white_space c.
Proof.
  destruct c as [b0 b1 b2 b3 b4 b5 b6 b7].
  destruct b0, b1, b2, b3, b4, b5, b6, b7; reflexivity.
Qed.

Lemma trimStart_lower (s : string) :
  JsString.trimStart (JsString.toLowerCase s)
  = JsString.toLowerCase (JsString.trimStart s).
Proof.
  induction s as [|c s IH]; simpl; [reflexivity|].
  rewrite lower_char_white_space.
  now destruct (JsString.is_white_space c).
Qed.

Lemma trimEnd_lower (s : string) :
  JsString.trimEnd (JsString.toLowerCase s)
  = JsString.toLowerCase (JsString.trimEnd s).
Proof.
  induction s as [|c s IH]; simpl; [reflexivity|].
  rewrite IH, lower_char_white_space.
  destruct (JsString.trimEnd s); simpl; [|reflexivity].
  now destruct (JsString.is_white_space c).
Qed.

Lemma trim_lower (s : string) :
  JsString.trim (JsString.toLowerCase s) = JsString.toLowerCase (JsString.trim s).
Proof. unfold JsString.trim. now rewrite trimStart_lower, trimEnd_lower. Qed.

Lemma trimStart_starts_clean (s : string) : starts_clean (JsString.trimStart s).
Proof.
  induction s as [|c s IH]; simpl; [exact I|].
  destruct (JsString.is_white_space c) eqn:Hc; [exact IH | exact Hc].
Qed.

Lemma trimStart_clean (s : string) :
  starts_clean s -> JsString.trimStart s = s.
Proof. destruct s as [|c s]; simpl; [reflexivity | now intros ->]. Qed.

Lemma trimEnd_starts_clean (s : string) :
  starts_clean s -> starts_clean (JsString.trimEnd s).
Proof.
  destruct s as [|c s]; simpl; [auto|]. intros Hc.
  destruct (JsString.trimEnd s); simpl; [now rewrite Hc | exact Hc].
Qed.

Lemma trimEnd_idem (s : string) :
  JsString.trimEnd (JsString.trimEnd s) = JsString.trimEnd s.
Proof.
  induction s as [|c s IH]; simpl; [reflexivity|].
  destruct (JsString.trimEnd s) as [|d t] eqn:Ht.
  - destruct (JsString.is_white_space c) eqn:Hc; simpl; [reflexivity|].
    now rewrite Hc.
  - simpl in IH |- *. now rewrite IH.
Qed.

Lemma trim_idem (s : string) : JsString.trim (JsString.trim s) = JsString.trim s.
Proof.
  unfold JsString.trim.
  rewrite (trimStart_clean (JsString.trimEnd (JsString.trimStart s))).
  - apply trimEnd_idem.
  - apply trimEnd_starts_clean, trimStart_starts_clean.
Qed.

(** Cleaning a name or an e-mail that is already clean changes nothing:
    the name and the e-mail that a response echoes, sent again, are
    stored and searched as they are. *)
Theorem cleaning_is_idempotent (name email : string) :
  JsString.trim (JsString.trim name) = JsString.trim name /\
  normalize (normalize email) = normalize email /\
  JsString.toLowerCase (normalize email) = normalize email /\
  JsString.trim (normalize email) = normalize email.
Proof.
  split; [apply trim_idem|].
  assert (Ht : JsString.trim (normalize email) = normalize email).
  { unfold normalize. now rewrite trim_lower, trim_idem. }
  split; [|split; [apply normalize_lower | exact Ht]].
  unfold normalize at 1. rewrite Ht. apply normalize_lower.
Qed.

(** ** One request, nothing interleaved *)

(** The loop takes the first candidate that the active store does not
    hold, after one probe for each candidate it passes over. *)
Lemma ensure_unique_first_free (rand : nat -> Q) (fuel : nat) :
  forall j s log id s2 sched2 log2,
    ensure_unique rand fuel j [] s log = Some (id, s2, sched2, log2) ->
    exists k,
      (k < fuel)%nat /\ id = candidate rand (j + k) /\
      (forall i, (i < k)%nat ->
         find_first (by_reference_id (candidate rand (j + i)))
           (store (active s) s) <> None) /\
      log2 = (log ++ repeat (CheckReference, active s) (S k))%list.
Proof.
  induction fuel as [|fuel IH]; intros j s log id s2 sched2 log2 H;
    simpl in H; [discriminate|].
  unfold active in *. destruct (useInMemoryStore s) eqn:Hflag; cbn [store].
  - destruct (find_first (by_reference_id (candidate rand j))
                (inMemoryStore s)) as [[i c]|] eqn:Hfind.
    + apply IH in H. rewrite Hflag in H. cbn [store] in H.
      destruct H as (k & Hk & Hid & Hbusy & Hlog). exists (S k).
      split; [lia|]. split; [now rewrite Nat.add_succ_r|]. split.
      * intros [|i'] Hi; [rewrite Nat.add_0_r, Hfind; discriminate|].
        rewrite Nat.add_succ_r. apply Hbusy. lia.
      * rewrite Hlog, <- app_assoc. reflexivity.
    + injection H as <- <- <- <-. exists O. split; [lia|].
      split; [now rewrite Nat.add_0_r|]. split; [intros i Hi; lia | reflexivity].
  - unfold Mongo.findOne in H.
    destruct (find_first (by_reference_id (candidate rand j))
                (SimpleCertificate s)) as [[i c]|] eqn:Hfind.
    + apply IH in H. rewrite Hflag in H. cbn [store] in H.
      destruct H as (k & Hk & Hid & Hbusy & Hlog). exists (S k).
      split; [lia|]. split; [now rewrite Nat.add_succ_r|]. split.
      * intros [|i'] Hi; [rewrite Nat.add_0_r, Hfind; discriminate|].
        rewrite Nat.add_succ_r. apply Hbusy. lia.
      * rewrite Hlog, <- app_assoc. reflexivity.
    + injection H as <- <- <- <-. exists O. split; [lia|].
      split; [now rewrite Nat.add_0_r|]. split; [intros i Hi; lia | reflexivity].
Qed.

Lemma set_store_active (l : list Certificate) (s : State) :
  useInMemoryStore (set_store (active s) l s) = useInMemoryStore s /\
  connectPromise (set_store (active s) l s) = connectPromise s /\
  store (active s) (set_store (active s) l s) = l /\
  store (standby s) (set_store (active s) l s) = store (standby s) s /\
  active (set_store (active s) l s) = active s.
Proof.
  unfold active, standby, set_store. destruct (useInMemoryStore s) eqn:H;
    cbn; rewrite ?H; auto.
Qed.

(** Either the state is left as it was, or a record has been created:
    then the e-mail was valid and new, the reference id is the first free
    candidate, and the record is appended to the active store with the
    cleaned name and e-mail, the request date, and no download. *)
Lemma generate_quiet
    (rand : nat -> Q) (fuel : nat) (now : Z) (name email : option string)
    (s : State) (o : Outcome) :
  simple_generate rand fuel now [] name email s = Some o ->
  (state o = s /\ forall id n e m, response o <> GenerateOk false id n e m) \/
  exists name0 email0 k m,
    name = Some name0 /\ email = Some email0 /\ valid_email email0 /\
    (k < fuel)%nat /\
    find_first (by_email (normalize email0)) (store (active s) s) = None /\
    find_first (by_reference_id (candidate rand k)) (store (active s) s)
    = None /\
    (forall i, (i < k)%nat ->
       find_first (by_reference_id (candidate rand i)) (store (active s) s)
       <> None) /\
    response o
    = GenerateOk false (candidate rand k) (JsString.trim name0)
        (normalize email0) m /\
    state o
    = set_store (active s)
        (store (active s) s
           ++ [mkCertificate (candidate rand k) (JsString.trim name0)
                 (normalize email0) "Attended" now false 0])%list s /\
    accesses o
    = ((CheckEmail, active s) :: repeat (CheckReference, active s) (S k)
         ++ [(Insert, active s)])%list.
Proof.
  intros Hrun.
  destruct (JsString.truthy name) eqn:Hn;
    [|rewrite simple_generate_falsy in Hrun by auto;
      injection Hrun as <-; left; split; [reflexivity | discriminate]].
  destruct (JsString.truthy email) eqn:He;
    [|rewrite simple_generate_falsy in Hrun by auto;
      injection Hrun as <-; left; split; [reflexivity | discriminate]].
  destruct (simple_generate_truthy rand fuel now [] name email s Hn He)
    as (name0 & email0 & -> & -> & _ & _ & Heq).
  rewrite Heq in Hrun. clear Heq. unfold generate_checked in Hrun.
  fold (normalize email0) in Hrun.
  destruct (Regex.test emailRegex (normalize email0)) eqn:Hre;
    cbn [negb] in Hrun;
    [|injection Hrun as <-; left; split; [reflexivity | discriminate]].
  rewrite check_existing_quiet in Hrun.
  destruct (find_first (by_email (normalize email0)) (store (active s) s))
    as [[i c]|] eqn:Hmail.
  { injection Hrun as <-; left; split; [reflexivity | discriminate]. }
  destruct (ensure_unique rand fuel 0 [] s [(CheckEmail, active s)])
    as [[[[id s2] sched2] log2]|] eqn:Hloop; [|discriminate].
  injection Hrun as <-.
  destruct (ensure_unique_first_free _ _ _ _ _ _ _ _ _ Hloop)
    as (k & Hk & Hid & Hbusy & Hlog).
  apply ensure_unique_quiet in Hloop. destruct Hloop as (-> & -> & Hfree).
  cbn [Nat.add] in Hid, Hbusy. subst id log2.
  unfold store_certificate.
  destruct (useInMemoryStore s) eqn:Hflag.
  - right. exists name0, email0, k. eexists.
    assert (Hact : active s = InMemory) by now apply active_InMemory.
    rewrite Hact in *. cbn [set_store store response state accesses] in *.
    repeat (split; [reflexivity || assumption|]).
    now rewrite <- app_assoc.
  - assert (Hact : active s = Durable) by now apply active_Durable.
    rewrite Hact in *. cbn [await store] in *.
    unfold Mongo.construct. rewrite normalize_lower.
    destruct (Mongo.save _ (SimpleCertificate s)) as [err|coll] eqn:Hsave.
    + left. split; [reflexivity | discriminate].
    + apply save_inr in Hsave. destruct Hsave as (_ & _ & ->).
      right. exists name0, email0, k. eexists.
      cbn [set_store response state accesses].
      repeat (split; [reflexivity || assumption|]).
      now rewrite <- app_assoc.
Qed.

Lemma update_at_ext_nth {A : Type} (f g : A -> A) (l : list A) (i : nat) (x : A) :
  nth_error l i = Some x -> f x = g x -> update_at i f l = update_at i g l.
Proof.
  revert i. induction l as [|y l IH]; intros [|i]; simpl; try discriminate.
  - intros [= ->] ->. reflexivity.
  - intros Hn Hx. now rewrite (IH i Hn Hx).
Qed.

(** A lookup either refuses a missing id, or finds nothing and changes
    nothing, or answers the first record with the id and marks that one
    record, in the active store, as downloaded once more. *)
Lemma lookup_quiet (id : option string) (s : State) :
  let o := simple_certificate [] id s in
  (JsString.truthy id = false /\
   o = mkOutcome (ClientError "Certificate ID is required") s []) \/
  (exists id0,
      id = Some id0 /\ id0 <> "" /\
      find_first (by_reference_id id0) (store (active s) s) = None /\
      state o = s /\
      response o
      = NotFound (if useInMemoryStore s
                  then "Certificate not found (in-memory)"
                  else "Certificate not found")) \/
  (exists id0 i c,
      id = Some id0 /\ id0 <> "" /\
      find_first (by_reference_id id0) (store (active s) s) = Some (i, c) /\
      response o = certificate_json c /\
      state o
      = set_store (active s)
          (update_at i mark_downloaded (store (active s) s)) s).
Proof.
  cbv zeta. unfold simple_certificate.
  destruct (JsString.truthy id) eqn:Ht; cbn [negb]; [|now left].
  destruct id as [id0|]; [|discriminate]. right.
  assert (Hne : id0 <> "") by (intros ->; discriminate).
  unfold active. destruct (useInMemoryStore s) eqn:Hflag; cbn [store await].
  - destruct (find_first (by_reference_id id0) (inMemoryStore s))
      as [[i c]|] eqn:Hfind.
    + right. exists id0, i, c. cbn [response state set_store].
      repeat (split; [reflexivity || assumption|]). f_equal.
      destruct (find_first_some _ _ _ _ Hfind) as [Hnth _].
      apply (update_at_ext_nth _ _ _ _ c Hnth).
      unfold mark_downloaded. now rewrite or_zero_id.
    + left. exists id0. auto.
  - unfold Mongo.findOne.
    destruct (find_first (by_reference_id id0) (SimpleCertificate s))
      as [[i c]|] eqn:Hfind.
    + right. exists id0, i, c. cbn [response state set_store].
      repeat (split; [reflexivity || assumption|]). f_equal.
      destruct (find_first_some _ _ _ _ Hfind) as [Hnth _].
      now apply (update_at_ext_nth _ _ _ _ c Hnth).
    + left. exists id0. auto.
Qed.

(** ** POST /api/simple_generate: what is answered and stored *)

(** Under any schedule, the record that generate creates is the last of
    the store it was written to, and holds the reference id answered, the
    trimmed name, the trimmed and lower-cased e-mail, the type
    ["Attended"], the date of the request, and no download; the insert is
    the last store access of the request. *)
Theorem created_record_is_stored
    (rand : nat -> Q) (fuel : nat) (now : Z) (sched : Schedule)
    (name email : string) (s : State) (o : Outcome) (id n e m : string) :
  simple_generate rand fuel now sched (Some name) (Some email) s = Some o ->
  response o = GenerateOk false id n e m ->
  n = JsString.trim name /\ e = normalize email /\
  exists b pre log,
    store b (state o)
    = (pre ++ [mkCertificate id (JsString.trim name) (normalize email)
                 "Attended" now false 0])%list /\
    accesses o = (log ++ [(Insert, b)])%list.
Proof.
  intros Hrun Hresp.
  destruct (generate_created _ _ _ _ _ _ _ _ _ _ _ _ Hrun Hresp)
    as (name0 & email0 & j & bp & b & pre & log & [= <-] & [= <-] & -> & ->
        & _ & Hstore & Hacc & _).
  split; [reflexivity|]. split; [reflexivity|].
  exists b, pre, (log ++ [(CheckReference, bp)])%list.
  split; [exact Hstore|]. rewrite Hacc, <- app_assoc. reflexivity.
Qed.

Lemma created_record_is_stored_witness :
  exists o,
    simple_generate Sample.mixed 2 3000 [[RemoteSave Sample.bob]]
      (Some "  Carol ") (Some " Carol@Example.COM") Sample.online = Some o /\
    "Carol" = JsString.trim "  Carol " /\
    "carol@example.com" = normalize " Carol@Example.COM" /\
    exists b pre log,
      store b (state o)
      = (pre ++ [mkCertificate "CSAC2025-00000" (JsString.trim "  Carol ")
                   (normalize " Carol@Example.COM") "Attended" 3000 false 0])%list /\
      accesses o = (log ++ [(Insert, b)])%list.
Proof.
  eexists. split; [vm_compute; reflexivity|].
  apply (created_record_is_stored Sample.mixed 2 3000
           [[RemoteSave Sample.bob]] "  Carol " " Carol@Example.COM"
           Sample.online _ "CSAC2025-00000" "Carol" "carol@example.com"
           "Certificate generated successfully!").
  - vm_compute. reflexivity.
  - reflexivity.
Defined.

(** With nothing interleaved, the reference id of a created record is the
    first candidate drawn that the active store does not hold: every
    candidate drawn before it is held, and the request makes one probe per
    candidate, between the e-mail check and the insert, all on the store
    active at entry. *)
Theorem reference_id_is_first_free_candidate
    (rand : nat -> Q) (fuel : nat) (now : Z) (name email : option string)
    (s : State) (o : Outcome) (id n e m : string) :
  simple_generate rand fuel now [] name email s = Some o ->
  response o = GenerateOk false id n e m ->
  exists k,
    (k < fuel)%nat /\ id = candidate rand k /\
    find_first (by_reference_id (candidate rand k)) (store (active s) s)
    = None /\
    (forall i, (i < k)%nat ->
       exists j c,
         find_first (by_reference_id (candidate rand i)) (store (active s) s)
         = Some (j, c)) /\
    accesses o
    = ((CheckEmail, active s) :: repeat (CheckReference, active s) (S k)
         ++ [(Insert, active s)])%list.
Proof.
  intros Hrun Hresp.
  destruct (generate_quiet _ _ _ _ _ _ _ Hrun)
    as [[_ Hno] | (name0 & email0 & k & m' & -> & -> & _ & Hk & _ & Hfree
                   & Hbusy & Hresp' & _ & Hacc)].
  { exfalso. exact (Hno _ _ _ _ Hresp). }
  rewrite Hresp' in Hresp. injection Hresp as <- _ _ _.
  exists k. split; [exact Hk|].
  split; [reflexivity|]. split; [exact Hfree|]. split; [|exact Hacc].
  intros i Hi. specialize (Hbusy i Hi).
  destruct (find_first (by_reference_id (candidate rand i))
              (store (active s) s)) as [[j c]|]; [eauto | congruence].
Qed.

Lemma counting_unit_interval : unit_interval Sample.counting.
Proof.
  intros k. unfold Sample.counting, Qle, Qlt. cbn [Qnum Qden].
  pose proof (Nat.mod_upper_bound k 36 ltac:(discriminate)) as Hk.
  generalize dependent (k mod 36)%nat. intros r Hr. lia.
Qed.

Lemma reference_id_is_first_free_candidate_witness :
  exists o,
    simple_generate Sample.counting 3 3000 [] (Some "Eve")
      (Some "eve@example.com") Sample.shelf = Some o /\
    exists k,
      (k < 3)%nat /\ "CSAC2025-56789" = candidate Sample.counting k /\
      find_first (by_reference_id (candidate Sample.counting k))
        (store (active Sample.shelf) Sample.shelf) = None /\
      (forall i, (i < k)%nat ->
         exists j c,
           find_first (by_reference_id (candidate Sample.counting i))
             (store (active Sample.shelf) Sample.shelf) = Some (j, c)) /\
      accesses o
      = ((CheckEmail, active Sample.shelf)
           :: repeat (CheckReference, active Sample.shelf) (S k)
           ++ [(Insert, active Sample.shelf)])%list.
Proof.
  eexists. split; [vm_compute; reflexivity|].
  apply (reference_id_is_first_free_candidate Sample.counting 3 3000
           (Some "Eve") (Some "eve@example.com") Sample.shelf _
           "CSAC2025-56789" "Eve" "eve@example.com"
           "Certificate generated successfully (in-memory)!").
  - vm_compute. reflexivity.
  - reflexivity.
Defined.

Lemma store_certificate_status
    (id cn ce : string) (now : Z) (sched : Schedule) (s : State)
    (log : list Access) :
  status (response (store_certificate id cn ce now sched s log)) <> 400.
Proof.
  unfold store_certificate. destruct (useInMemoryStore s); [discriminate|].
  destruct (await sched s) as [s1 rest].
  destruct (Mongo.save _ (SimpleCertificate s1)); discriminate.
Qed.

(** Under any schedule, generate answers 400 exactly when the name is
    empty, the e-mail is empty, or the e-mail, trimmed and lower-cased,
    is not of the shape [local@domain.tld]; it has then read and written
    neither store.  A name made of blanks is not refused. *)
Theorem client_error_iff_invalid_input
    (rand : nat -> Q) (fuel : nat) (now : Z) (sched : Schedule)
    (name email : string) (s : State) (o : Outcome) :
  simple_generate rand fuel now sched (Some name) (Some email) s = Some o ->
  (status (response o) = 400 <->
   name = "" \/ email = "" \/ ~ email_shape (normalize email)) /\
  (status (response o) = 400 -> state o = s /\ accesses o = []).
Proof.
  intros Hrun.
  destruct (JsString.truthy (Some name)) eqn:Hn.
  2:{ rewrite simple_generate_falsy in Hrun by auto. injection Hrun as <-.
      split; [|now auto]. split; [|reflexivity]. intros _. left.
      destruct name; [reflexivity | discriminate]. }
  destruct (JsString.truthy (Some email)) eqn:He.
  2:{ rewrite simple_generate_falsy in Hrun by auto. injection Hrun as <-.
      split; [|now auto]. split; [|reflexivity]. intros _. right. left.
      destruct email; [reflexivity | discriminate]. }
  destruct (simple_generate_truthy rand fuel now sched _ _ s Hn He)
    as (name0 & email0 & [= <-] & [= <-] & Hname & Hemail & Heq).
  rewrite Heq in Hrun. clear Heq. unfold generate_checked in Hrun.
  fold (normalize email) in Hrun.
  destruct (Regex.test emailRegex (normalize email)) eqn:Hre;
    cbn [negb] in Hrun.
  2:{ injection Hrun as <-. split; [|now auto]. split; [|reflexivity].
      intros _. right. right. rewrite <- emailRegex_accepts_email_shape.
      congruence. }
  assert (Hok : status (response o) <> 400).
  { destruct (check_existing _ sched s) as [[[existing s1] sched1] log1].
    destruct existing as [[i c]|]; [injection Hrun as <-; discriminate|].
    destruct (ensure_unique rand fuel 0 sched1 s1 log1)
      as [[[[id s2] sched2] log2]|]; [|discriminate].
    injection Hrun as <-. apply store_certificate_status. }
  split; [|intros H; contradiction].
  split; [intros H; contradiction|].
  intros [H | [H | H]]; [contradiction | contradiction |].
  exfalso. apply H. now apply emailRegex_accepts_email_shape.
Qed.

Lemma client_error_iff_invalid_input_witness :
  (status (response
             (mkOutcome (ClientError "Invalid email format") Sample.archive []))
   = 400 <->
   "Bob" = "" \/ "bob@example" = "" \/ ~ email_shape (normalize "bob@example")) /\
  (status (response
             (mkOutcome (ClientError "Invalid email format") Sample.archive []))
   = 400 ->
   state (mkOutcome (ClientError "Invalid email format") Sample.archive [])
   = Sample.archive /\
   accesses (mkOutcome (ClientError "Invalid email format") Sample.archive [])
   = []).
Proof.
  apply (client_error_iff_invalid_input Sample.zeros 1 3000 [[OnConnected]]
           "Bob" "bob@example" Sample.archive).
  reflexivity.
Defined.

(** ** What generate leaves in place *)

Lemma extends_refl (l : list Certificate) : extends l l.
Proof. exists []. now rewrite app_nil_r. Qed.

Lemma extends_trans (l1 l2 l3 : list Certificate) :
  extends l1 l2 -> extends l2 l3 -> extends l1 l3.
Proof.
  intros [a ->] [b ->]. exists (a ++ b)%list. now rewrite app_assoc.
Qed.

Lemma fire_extends (s : State) (e : Event) :
  extends (SimpleCertificate s) (SimpleCertificate (fire s e)).
Proof.
  destruct e; simpl; try apply extends_refl.
  - destruct (connectPromise s); apply extends_refl.
  - destruct (connectPromise s); apply extends_refl.
  - destruct (Mongo.save doc (SimpleCertificate s)) as [err|coll] eqn:Hs.
    + apply extends_refl.
    + apply save_inr in Hs. destruct Hs as (_ & _ & ->). now exists [doc].
Qed.

Lemma await_extends (sched : Schedule) (s : State) :
  extends (SimpleCertificate s) (SimpleCertificate (fst (await sched s))).
Proof.
  destruct sched as [|batch rest]; simpl; [apply extends_refl|].
  revert s. induction batch as [|e batch IH]; intros s; simpl.
  - apply extends_refl.
  - eapply extends_trans; [apply fire_extends | apply IH].
Qed.

Lemma ensure_unique_extends (rand : nat -> Q) (fuel : nat) :
  forall j sched s log id s2 sched2 log2,
    ensure_unique rand fuel j sched s log = Some (id, s2, sched2, log2) ->
    extends (SimpleCertificate s) (SimpleCertificate s2).
Proof.
  induction fuel as [|fuel IH]; intros j sched s log id s2 sched2 log2 H;
    simpl in H; [discriminate|].
  destruct (useInMemoryStore s).
  - destruct (find_first _ (inMemoryStore s)) as [[i c]|].
    + now apply IH in H.
    + injection H as <- <- <- <-. apply extends_refl.
  - pose proof (await_extends sched s) as Hext.
    destruct (await sched s) as [s1 sched1]. cbn [fst] in Hext.
    unfold Mongo.findOne in H.
    destruct (find_first _ (SimpleCertificate s1)) as [[i c]|].
    + apply IH in H. eapply extends_trans; eauto.
    + injection H as <- <- <- <-. exact Hext.
Qed.

(** Under a schedule of connection events and of saves by other
    requests, the collection that generate leaves is the one it found
    with records added at the end, and the array is the one it found with
    at most one record added at the end. *)
Lemma generate_only_appends
    (rand : nat -> Q) (fuel : nat) (now : Z) (sched : Schedule)
    (name email : option string) (s : State) (o : Outcome) :
  simple_generate rand fuel now sched name email s = Some o ->
  extends (SimpleCertificate s) (SimpleCertificate (state o)) /\
  (inMemoryStore (state o) = inMemoryStore s \/
   exists c, inMemoryStore (state o) = (inMemoryStore s ++ [c])%list).
Proof.
  intros Hrun.
  destruct (JsString.truthy name) eqn:Hn;
    [|rewrite simple_generate_falsy in Hrun by auto;
      injection Hrun as <-; split; [apply extends_refl | now left]].
  destruct (JsString.truthy email) eqn:He;
    [|rewrite simple_generate_falsy in Hrun by auto;
      injection Hrun as <-; split; [apply extends_refl | now left]].
  destruct (simple_generate_truthy rand fuel now sched name email s Hn He)
    as (name0 & email0 & -> & -> & _ & _ & Heq).
  rewrite Heq in Hrun. clear Heq. unfold generate_checked in Hrun.
  destruct (negb (Regex.test emailRegex _)).
  { injection Hrun as <-. split; [apply extends_refl | now left]. }
  destruct (check_existing _ sched s) as [[[existing s1] sched1] log1] eqn:Hpre.
  assert (Hs1 : extends (SimpleCertificate s) (SimpleCertificate s1) /\
                inMemoryStore s1 = inMemoryStore s).
  { unfold check_existing in Hpre. destruct (useInMemoryStore s).
    - injection Hpre as <- <- <- <-. split; [apply extends_refl | reflexivity].
    - pose proof (await_extends sched s) as Hext.
      pose proof (await_inMemoryStore sched s) as Hmem.
      destruct (await sched s) as [s' sched']. cbn [fst] in *.
      injection Hpre as <- <- <- <-. now split. }
  destruct Hs1 as [Hext1 Hmem1].
  destruct existing as [[i c]|].
  { injection Hrun as <-. cbn [state]. split; [exact Hext1 | now left]. }
  destruct (ensure_unique rand fuel 0 sched1 s1 log1)
    as [[[[id s2] sched2] log2]|] eqn:Hloop; [|discriminate].
  injection Hrun as <-.
  pose proof (ensure_unique_extends _ _ _ _ _ _ _ _ _ _ Hloop) as Hext2.
  destruct (ensure_unique_spec _ _ _ _ _ _ _ _ _ _ Hloop)
    as (_ & _ & _ & _ & _ & _ & _ & _ & Hmem2).
  unfold store_certificate. destruct (useInMemoryStore s2).
  - cbn [state set_inMemoryStore SimpleCertificate inMemoryStore].
    split; [eapply extends_trans; eauto|].
    right. rewrite Hmem2, Hmem1. eauto.
  - pose proof (await_extends sched2 s2) as Hext3.
    pose proof (await_inMemoryStore sched2 s2) as Hmem3.
    destruct (await sched2 s2) as [s3 rest]. cbn [fst] in *.
    assert (Hs3 : extends (SimpleCertificate s) (SimpleCertificate s3))
      by (eapply extends_trans; [|exact Hext3];
          eapply extends_trans; eauto).
    destruct (Mongo.save _ (SimpleCertificate s3)) as [err|coll] eqn:Hsave;
      cbn [state set_SimpleCertificate SimpleCertificate inMemoryStore].
    + split; [exact Hs3 | left; congruence].
    + apply save_inr in Hsave. destruct Hsave as (_ & _ & ->).
      split; [|left; congruence].
      eapply extends_trans; [exact Hs3|]. now eexists.
Qed.

Lemma fire_connection_collection (s : State) (e : Event) :
  connection_event e -> SimpleCertificate (fire s e) = SimpleCertificate s.
Proof.
  destruct e; simpl; try contradiction; intros _; auto;
    now destruct (connectPromise s).
Qed.

Lemma await_connection_events (sched : Schedule) (s : State) :
  Forall (Forall connection_event) sched ->
  inMemoryStore (fst (await sched s)) = inMemoryStore s /\
  SimpleCertificate (fst (await sched s)) = SimpleCertificate s /\
  Forall (Forall connection_event) (snd (await sched s)).
Proof.
  intros Hsched. destruct sched as [|batch rest]; simpl; [auto|].
  inversion Hsched as [|? ? Hbatch Hrest]; subst.
  split; [|split; [|exact Hrest]].
  - apply batch_inMemoryStore.
  - clear Hsched. revert s.
    induction batch as [|e batch IH]; intros s; simpl; [reflexivity|].
    inversion Hbatch as [|? ? He Hb]; subst.
    rewrite (IH Hb). now apply fire_connection_collection.
Qed.

Lemma ensure_unique_connection_events (rand : nat -> Q) (fuel : nat) :
  forall j sched s log id s2 sched2 log2,
    Forall (Forall connection_event) sched ->
    ensure_unique rand fuel j sched s log = Some (id, s2, sched2, log2) ->
    inMemoryStore s2 = inMemoryStore s /\
    SimpleCertificate s2 = SimpleCertificate s /\
    Forall (Forall connection_event) sched2.
Proof.
  induction fuel as [|fuel IH]; intros j sched s log id s2 sched2 log2 Hs H;
    simpl in H; [discriminate|].
  destruct (useInMemoryStore s).
  - destruct (find_first _ (inMemoryStore s)) as [[i c]|].
    + now apply IH in H.
    + injection H as <- <- <- <-. auto.
  - destruct (await_connection_events sched s Hs) as (Hm & Hd & Hrest).
    destruct (await sched s) as [s1 sched1]. cbn [fst snd] in *.
    unfold Mongo.findOne in H.
    destruct (find_first _ (SimpleCertificate s1)) as [[i c]|].
    + apply IH in H; [|exact Hrest]. destruct H as (Hm' & Hd' & Hrest').
      split; [congruence|]. split; [congruence | exact Hrest'].
    + injection H as <- <- <- <-. auto.
Qed.

(** While no other request is interleaved, whatever connection callbacks
    fire at its awaits, generate removes and alters no stored record: it
    leaves both stores as it found them, or exactly one of them with one
    record added at the end. *)
Theorem generate_appends_at_most_one_record
    (rand : nat -> Q) (fuel : nat) (now : Z) (sched : Schedule)
    (name email : option string) (s : State) (o : Outcome) :
  Forall (Forall connection_event) sched ->
  simple_generate rand fuel now sched name email s = Some o ->
  (inMemoryStore (state o) = inMemoryStore s /\
   SimpleCertificate (state o) = SimpleCertificate s) \/
  (exists c,
      inMemoryStore (state o) = (inMemoryStore s ++ [c])%list /\
      SimpleCertificate (state o) = SimpleCertificate s) \/
  (exists c,
      inMemoryStore (state o) = inMemoryStore s /\
      SimpleCertificate (state o) = (SimpleCertificate s ++ [c])%list).
Proof.
  intros Hsched Hrun.
  destruct (JsString.truthy name) eqn:Hn;
    [|rewrite simple_generate_falsy in Hrun by auto;
      injection Hrun as <-; now left].
  destruct (JsString.truthy email) eqn:He;
    [|rewrite simple_generate_falsy in Hrun by auto;
      injection Hrun as <-; now left].
  destruct (simple_generate_truthy rand fuel now sched name email s Hn He)
    as (name0 & email0 & -> & -> & _ & _ & Heq).
  rewrite Heq in Hrun. clear Heq. unfold generate_checked in Hrun.
  destruct (negb (Regex.test emailRegex _));
    [injection Hrun as <-; now left|].
  destruct (check_existing _ sched s) as [[[existing s1] sched1] log1] eqn:Hpre.
  assert (H1 : inMemoryStore s1 = inMemoryStore s /\
               SimpleCertificate s1 = SimpleCertificate s /\
               Forall (Forall connection_event) sched1).
  { unfold check_existing in Hpre. destruct (useInMemoryStore s).
    - injection Hpre as <- <- <- <-. auto.
    - destruct (await_connection_events sched s Hsched) as (Hm & Hd & Hrest).
      destruct (await sched s) as [s' sched']. cbn [fst snd] in *.
      injection Hpre as <- <- <- <-. auto. }
  destruct H1 as (Hm1 & Hd1 & Hs1).
  destruct existing as [[i c]|]; [injection Hrun as <-; now left|].
  destruct (ensure_unique rand fuel 0 sched1 s1 log1)
    as [[[[id s2] sched2] log2]|] eqn:Hloop; [|discriminate].
  injection Hrun as <-.
  apply ensure_unique_connection_events in Hloop; [|exact Hs1].
  destruct Hloop as (Hm2 & Hd2 & Hs2).
  unfold store_certificate. destruct (useInMemoryStore s2).
  - right. left. eexists.
    cbn [state set_inMemoryStore inMemoryStore SimpleCertificate].
    split; [f_equal|]; congruence.
  - destruct (await_connection_events sched2 s2 Hs2) as (Hm3 & Hd3 & _).
    destruct (await sched2 s2) as [s3 rest]. cbn [fst] in *.
    destruct (Mongo.save _ (SimpleCertificate s3)) as [err|coll] eqn:Hsave;
      cbn [state set_SimpleCertificate inMemoryStore SimpleCertificate].
    + left. split; congruence.
    + apply save_inr in Hsave. destruct Hsave as (_ & _ & ->).
      right. right. eexists. split; [congruence|]. f_equal. congruence.
Qed.

Lemma generate_appends_at_most_one_record_witness :
  exists o,
    simple_generate Sample.zeros 1 3000 [[OnError]; [OnDisconnected]]
      (Some "Carol") (Some "carol@example.com") Sample.reconnected = Some o /\
    ((inMemoryStore (state o) = inMemoryStore Sample.reconnected /\
      SimpleCertificate (state o) = SimpleCertificate Sample.reconnected) \/
     (exists c,
         inMemoryStore (state o)
         = (inMemoryStore Sample.reconnected ++ [c])%list /\
         SimpleCertificate (state o) = SimpleCertificate Sample.reconnected) \/
     (exists c,
         inMemoryStore (state o) = inMemoryStore Sample.reconnected /\
         SimpleCertificate (state o)
         = (SimpleCertificate Sample.reconnected ++ [c])%list)).
Proof.
  eexists. split; [vm_compute; reflexivity|].
  apply (generate_appends_at_most_one_record Sample.zeros 1 3000
           [[OnError]; [OnDisconnected]] (Some "Carol")
           (Some "carol@example.com") Sample.reconnected).
  - repeat constructor.
  - vm_compute. reflexivity.
Defined.

(** ** GET /api/simple_certificate: what a lookup finds and writes *)

Lemma find_first_absent (id : string) (l : list Certificate) :
  (forall c, In c l -> reference_id c <> id) ->
  find_first (by_reference_id id) l = None.
Proof.
  intros H. apply find_first_none.
  destruct (List.existsb (by_reference_id id) l) eqn:Hex; [|reflexivity].
  apply existsb_exists in Hex. destruct Hex as (c & Hin & Hc).
  apply String.eqb_eq in Hc. now apply H in Hin.
Qed.

(** An id that no record of the active store carries is answered 404,
    with a message that names the in-memory store when it is the active
    one, after a single search of the active store; nothing is written.
    Records of the other store are not looked at. *)
Theorem unknown_id_is_not_found (id : string) (s : State) :
  id <> "" ->
  (forall c, In c (store (active s) s) -> reference_id c <> id) ->
  simple_certificate [] (Some id) s
  = mkOutcome
      (NotFound (if useInMemoryStore s
                 then "Certificate not found (in-memory)"
                 else "Certificate not found"))
      s [(Fetch, active s)].
Proof.
  intros Hid Habs. apply find_first_absent in Habs.
  unfold simple_certificate.
  rewrite (truthy_nonempty _ Hid). cbn [negb].
  unfold active in *. destruct (useInMemoryStore s); cbn [store await] in *.
  - now rewrite Habs.
  - unfold Mongo.findOne. now rewrite Habs.
Qed.

Lemma unknown_id_is_not_found_witness :
  simple_certificate [] (Some "CSAC2025-00000") Sample.reconnected
  = mkOutcome
      (NotFound (if useInMemoryStore Sample.reconnected
                 then "Certificate not found (in-memory)"
                 else "Certificate not found"))
      Sample.reconnected [(Fetch, active Sample.reconnected)].
Proof.
  apply (unknown_id_is_not_found "CSAC2025-00000" Sample.reconnected).
  - discriminate.
  - intros c [].
Defined.

Lemma map_identity_update (i : nat) (l : list Certificate) :
  map identity (update_at i mark_downloaded l) = map identity l.
Proof.
  revert i. induction l as [|c l IH]; intros [|i]; simpl; auto.
  now rewrite IH.
Qed.

Lemma update_at_monotone (i : nat) (l : list Certificate) :
  Forall2
    (fun c c' =>
       download_count c <= download_count c' /\
       (downloaded c = true -> downloaded c' = true))
    l (update_at i mark_downloaded l).
Proof.
  assert (Hrefl : forall l : list Certificate,
             Forall2
               (fun c c' =>
                  download_count c <= download_count c' /\
                  (downloaded c = true -> downloaded c' = true)) l l).
  { induction l0; constructor; auto. split; [lia | auto]. }
  revert i. induction l as [|c l IH]; intros [|i]; simpl.
  - constructor.
  - constructor.
  - constructor; [|apply Hrefl]. simpl. split; [lia | reflexivity].
  - constructor; [split; [lia | auto] | apply IH].
Qed.

Lemma set_store_store (b b' : Backend) (l : list Certificate) (s : State) :
  store b' (set_store b l s)
  = match b, b' with
    | InMemory, InMemory | Durable, Durable => l
    | _, _ => store b' s
    end.
Proof. now destruct b, b'. Qed.

(** A lookup with nothing interleaved adds, removes and reorders no
    record in either store, and changes no reference id, name, e-mail,
    type or timestamp; no download counter goes down, and no record
    marked as downloaded loses the mark.  The selector and the store that
    is not active are left as they were. *)
Theorem lookup_writes_download_fields_only (id : option string) (s : State) :
  let o := simple_certificate [] id s in
  (forall b, map identity (store b (state o)) = map identity (store b s)) /\
  (forall b,
      Forall2
        (fun c c' =>
           download_count c <= download_count c' /\
           (downloaded c = true -> downloaded c' = true))
        (store b s) (store b (state o))) /\
  store (standby s) (state o) = store (standby s) s /\
  useInMemoryStore (state o) = useInMemoryStore s.
Proof.
  cbv zeta.
  assert (Hrefl : forall l : list Certificate,
             Forall2
               (fun c c' =>
                  download_count c <= download_count c' /\
                  (downloaded c = true -> downloaded c' = true)) l l).
  { induction l; constructor; auto. split; [lia | auto]. }
  destruct (lookup_quiet id s)
    as [[_ ->] | [(id0 & _ & _ & _ & -> & _) | (id0 & i & c & _ & _ & _ & _ & ->)]];
    cbn [state]; try (repeat split; auto; fail).
  destruct (set_store_active
              (update_at i mark_downloaded (store (active s) s)) s)
    as (Hflag & _ & _ & Hstandby & _).
  split; [|split; [|split; [exact Hstandby | exact Hflag]]].
  - intros b. rewrite set_store_store.
    destruct (active s), b; auto using map_identity_update.
  - intros b. rewrite set_store_store.
    destruct (active s), b; auto using update_at_monotone.
Qed.

(** ** GET /api/stats and GET /api/certificates *)

Lemma stats_quiet (s : State) :
  stats [] s
  = mkOutcome
      (StatsOk (Z.of_nat (List.length (store (active s) s)))
         (Z.of_nat (List.length (List.filter downloaded (store (active s) s))))
         (Z.of_nat (List.length (store (active s) s))
          - Z.of_nat (List.length
                        (List.filter downloaded (store (active s) s))))
         (map select_row
            (firstn 10 (sort newest_first (store (active s) s)))))
      s [(Count, active s); (Count, active s); (Recent, active s)].
Proof.
  unfold stats, active.
  destruct (useInMemoryStore s); cbn [await store]; [reflexivity|].
  unfold Mongo.countDocuments, Mongo.find_sorted_limit.
  now rewrite filter_true.
Qed.

Lemma filter_partition_length {A : Type} (p : A -> bool) (l : list A) :
  (List.length (List.filter p l)
   + List.length (List.filter (fun x => negb (p x)) l))%nat
  = List.length l.
Proof.
  induction l as [|x l IH]; simpl; [reflexivity|].
  destruct (p x); simpl; lia.
Qed.

(** In the statistics, [pending] is the number of records of the active
    store that are not marked as downloaded; [downloaded] and [pending]
    lie between 0 and [total]. *)
Theorem stats_pending_counts_the_rest (s : State) :
  exists total done pending recent,
    response (stats [] s) = StatsOk total done pending recent /\
    pending
    = Z.of_nat (List.length
                  (List.filter (fun c => negb (downloaded c))
                     (store (active s) s))) /\
    0 <= done <= total /\ 0 <= pending <= total.
Proof.
  rewrite stats_quiet. cbn [response]. do 4 eexists.
  split; [reflexivity|].
  pose proof (filter_partition_length downloaded (store (active s) s)).
  lia.
Qed.

(** The figures of the statistics. *)
Lemma stats_figures (s : State) (total done pending : Z) (recent : list Row) :
  response (stats [] s) = StatsOk total done pending recent ->
  total = Z.of_nat (List.length (store (active s) s)) /\
  done = Z.of_nat (List.length (List.filter downloaded (store (active s) s))) /\
  pending = total - done.
Proof. rewrite stats_quiet. cbn [response]. now intros [= <- <- <- _]. Qed.

(** A record created raises [total] and [pending] by one and leaves
    [downloaded] as it was. *)
Theorem stats_after_generate
    (rand : nat -> Q) (fuel : nat) (now : Z) (name email : option string)
    (s : State) (o : Outcome) (id n e m : string)
    (total done pending : Z) (recent : list Row) :
  simple_generate rand fuel now [] name email s = Some o ->
  response o = GenerateOk false id n e m ->
  response (stats [] s) = StatsOk total done pending recent ->
  exists recent',
    response (stats [] (state o))
    = StatsOk (total + 1) done (pending + 1) recent'.
Proof.
  intros Hrun Hresp Hstats.
  destruct (generate_quiet _ _ _ _ _ _ _ Hrun)
    as [[_ Hno] | (name0 & email0 & k & m' & _ & _ & _ & _ & _ & _ & _ & _
                   & Hstate & _)].
  { exfalso. exact (Hno _ _ _ _ Hresp). }
  destruct (stats_figures _ _ _ _ _ Hstats) as (-> & -> & ->).
  rewrite stats_quiet. cbn [response]. rewrite Hstate.
  set (l := store (active s) s) in *.
  set (c := mkCertificate _ _ _ _ _ _ _) in *.
  destruct (set_store_active (l ++ [c])%list s) as (_ & _ & Hst & _ & Hact).
  rewrite Hact, Hst. rewrite filter_app, !length_app. cbn.
  rewrite Nat.add_0_r. eexists. f_equal; lia.
Qed.

Lemma filter_update_downloaded (l : list Certificate) :
  forall i c,
    nth_error l i = Some c ->
    List.length (List.filter downloaded (update_at i mark_downloaded l))
    = (List.length (List.filter downloaded l)
       + (if downloaded c then 0 else 1))%nat.
Proof.
  induction l as [|x l IH]; intros [|i] c; simpl; try discriminate.
  - intros [= ->]. destruct (downloaded c); simpl; lia.
  - intros Hn. destruct (downloaded x); simpl; rewrite (IH i c Hn); lia.
Qed.

(** A lookup that finds its record leaves [total] as it was; the first
    download of the record moves one unit from [pending] to
    [downloaded], a later one changes no figure. *)
Theorem stats_after_lookup
    (id : string) (s : State) (i : nat) (c : Certificate)
    (total done pending : Z) (recent : list Row) :
  id <> "" ->
  find_first (by_reference_id id) (store (active s) s) = Some (i, c) ->
  response (stats [] s) = StatsOk total done pending recent ->
  let first := if downloaded c then 0 else 1 in
  exists recent',
    response (stats [] (state (simple_certificate [] (Some id) s)))
    = StatsOk total (done + first) (pending - first) recent'.
Proof.
  intros Hid Hfind Hstats. cbv zeta.
  destruct (lookup_quiet (Some id) s)
    as [[Ht _] | [(id0 & [= <-] & _ & Hnone & _)
                 | (id0 & i' & c' & [= <-] & _ & Hfind' & _ & Hstate)]].
  { now rewrite (truthy_nonempty _ Hid) in Ht. }
  { congruence. }
  rewrite Hfind in Hfind'. injection Hfind' as <- <-.
  destruct (stats_figures _ _ _ _ _ Hstats) as (-> & -> & ->).
  rewrite stats_quiet. cbn [response]. rewrite Hstate.
  set (l := store (active s) s) in *.
  destruct (set_store_active (update_at i mark_downloaded l) s)
    as (_ & _ & Hst & _ & Hact).
  rewrite Hact, Hst, update_at_length.
  destruct (find_first_some _ _ _ _ Hfind) as [Hnth _].
  rewrite (filter_update_downloaded l i c Hnth).
  eexists. f_equal; destruct (downloaded c); lia.
Qed.

Lemma list_certificates_quiet (s : State) :
  list_certificates [] s
  = (mkListing (Z.of_nat (List.length (store (active s) s)))
       (map select_listed (sort newest_first (store (active s) s))), s).
Proof.
  unfold list_certificates, active.
  destruct (useInMemoryStore s); cbn [await store];
    now rewrite length_map, <- (Permutation_length (sort_perm newest_first _)).
Qed.

(** The listing holds every record of the active store, once each, none
    left out, newest timestamp first; [count] is their number; the state
    is left as it was. *)
Theorem listing_is_the_active_store (s : State) :
  let listing := fst (list_certificates [] s) in
  Permutation (map select_listed (store (active s) s))
    (listing_certificates listing) /\
  newest_first_sorted (map listed_timestamp (listing_certificates listing)) /\
  listing_count listing = Z.of_nat (List.length (store (active s) s)) /\
  listing_count listing
  = Z.of_nat (List.length (listing_certificates listing)) /\
  snd (list_certificates [] s) = s.
Proof.
  cbv zeta. rewrite list_certificates_quiet.
  cbn [fst snd listing_count listing_certificates].
  split; [apply Permutation_map, sort_perm|].
  split; [rewrite map_map; apply sort_newest_first|].
  split; [reflexivity|]. split; [|reflexivity].
  now rewrite length_map, <- (Permutation_length (sort_perm newest_first _)).
Qed.

(** Where the order of the records by timestamp is determined, that is
    on the in-memory store, whose sort is stable, and on a collection in
    which no two records share a timestamp, the [recent] of the
    statistics is the head of the listing: its first ten rows, without
    their [certificate_type]. *)
Theorem recent_is_the_head_of_the_listing (s : State) :
  useInMemoryStore s = true \/ NoDup (map timestamp (SimpleCertificate s)) ->
  exists total done pending,
    response (stats [] s)
    = StatsOk total done pending
        (map listed_to_row
           (firstn 10 (listing_certificates (fst (list_certificates [] s))))).
Proof.
  intros _. rewrite stats_quiet, list_certificates_quiet.
  cbn [response fst listing_certificates].
  do 3 eexists. f_equal.
  rewrite firstn_map, map_map. reflexivity.
Qed.

Lemma recent_is_the_head_of_the_listing_witness :
  exists total done pending,
    response (stats [] Sample.filed)
    = StatsOk total done pending
        (map listed_to_row
           (firstn 10
              (listing_certificates (fst (list_certificates [] Sample.filed))))).
Proof.
  apply (recent_is_the_head_of_the_listing Sample.filed).
  right. cbn. repeat constructor; cbn; intuition discriminate.
Defined.

(** ** Requests served one at a time *)

Lemma map_update_at {A B : Type} (f : A -> B) (g : A -> A) (i : nat)
    (l : list A) :
  (forall x, f (g x) = f x) -> map f (update_at i g l) = map f l.
Proof.
  intros Hfg. revert i. induction l as [|x l IH]; intros [|i]; simpl; auto.
  - now rewrite Hfg.
  - now rewrite IH.
Qed.

Lemma Forall_update_at {A : Type} (P : A -> Prop) (g : A -> A) (i : nat)
    (l : list A) :
  (forall x, P x -> P (g x)) -> Forall P l -> Forall P (update_at i g l).
Proof.
  intros Hg. revert i. induction l as [|x l IH]; intros [|i] H; simpl; auto;
    inversion H; subst; constructor; auto.
Qed.

Lemma NoDup_snoc {A : Type} (l : list A) (x : A) :
  NoDup l -> ~ In x l -> NoDup (l ++ [x]).
Proof.
  intros Hnd Hx.
  apply (Permutation_NoDup (l := x :: l)).
  - apply Permutation_cons_append.
  - now constructor.
Qed.

Lemma issued_mark_downloaded (c : Certificate) :
  issued c -> issued (mark_downloaded c).
Proof.
  intros (Hid & Hre & Hnorm & Htrim & Htype & Hcount & _).
  repeat split; auto; cbn; try lia.
Qed.

Lemma store_ok_update (i : nat) (l : list Certificate) :
  store_ok l -> store_ok (update_at i mark_downloaded l).
Proof.
  intros (Hids & Hmails & Hall). repeat split.
  - now rewrite map_update_at.
  - now rewrite map_update_at.
  - apply Forall_update_at; [apply issued_mark_downloaded | exact Hall].
Qed.

Lemma store_ok_snoc (l : list Certificate) (c : Certificate) :
  store_ok l -> issued c ->
  find_first (by_reference_id (reference_id c)) l = None ->
  find_first (by_email (user_email c)) l = None ->
  store_ok (l ++ [c]).
Proof.
  intros (Hids & Hmails & Hall) Hc Hid Hmail. repeat split.
  - rewrite map_app. apply NoDup_snoc; [exact Hids|].
    intros Hin. apply in_map_iff in Hin. destruct Hin as (x & Hx & Hin).
    pose proof (find_first_not_in _ _ Hid x Hin) as Hno.
    unfold by_reference_id in Hno. apply String.eqb_neq in Hno. congruence.
  - rewrite map_app. apply NoDup_snoc; [exact Hmails|].
    intros Hin. apply in_map_iff in Hin. destruct Hin as (x & Hx & Hin).
    pose proof (find_first_not_in _ _ Hmail x Hin) as Hno.
    unfold by_email in Hno. apply String.eqb_neq in Hno. congruence.
  - apply Forall_app. split; [exact Hall | now constructor].
Qed.

Lemma invariant_set_store (b : Backend) (l : list Certificate) (s : State) :
  invariant s -> store_ok l -> invariant (set_store b l s).
Proof. intros [Hm Hd] Hl. destruct b; split; assumption. Qed.

Lemma invariant_store (b : Backend) (s : State) :
  invariant s -> store_ok (store b s).
Proof. intros [Hm Hd]. now destruct b. Qed.

Lemma fire_connection_event (s : State) (e : Event) :
  connection_event e ->
  inMemoryStore (fire s e) = inMemoryStore s /\
  SimpleCertificate (fire s e) = SimpleCertificate s.
Proof.
  destruct e; simpl; try contradiction; intros _; auto;
    now destruct (connectPromise s).
Qed.

(** One request served with nothing interleaved keeps the stores in
    order. *)
Lemma serve_invariant (r : Request) (s : State) (o : Outcome) :
  admissible r -> serve r s = Some o -> invariant s -> invariant (state o).
Proof.
  intros Hadm Hserve Hinv. destruct r as [rand fuel now name email|id|];
    cbn [serve admissible] in *.
  - destruct (generate_quiet _ _ _ _ _ _ _ Hserve)
      as [[-> _] | (name0 & email0 & k & m & _ & _ & Hvalid & _ & Hmail
                    & Hfree & _ & _ & -> & _)]; [exact Hinv|].
    apply invariant_set_store; [exact Hinv|].
    apply store_ok_snoc; auto using invariant_store.
    repeat split; cbn; try lia; try discriminate.
    + now apply candidate_well_formed.
    + exact Hvalid.
    + apply cleaning_is_idempotent; exact "".
    + apply trim_idem.
  - injection Hserve as <-.
    destruct (lookup_quiet id s)
      as [[_ ->] | [(id0 & _ & _ & _ & -> & _)
                   | (id0 & i & c & _ & _ & _ & _ & ->)]];
      try exact Hinv.
    apply invariant_set_store; [exact Hinv|].
    apply store_ok_update, invariant_store, Hinv.
  - injection Hserve as <-. now rewrite stats_quiet.
Qed.

(** In every state that the process reaches by serving its requests one
    at a time, from an empty database, while the connection comes and
    goes: no two records of a store share a reference id, no two share an
    e-mail, and every record has a reference id [CSAC2025-] plus five
    characters of [[0-9A-Z]], an e-mail accepted by the pattern and
    already clean, a trimmed name, the type ["Attended"], a counter that
    is not negative, and the mark [downloaded] exactly when the counter
    is positive. *)
Theorem reachable_states_are_in_order (s : State) :
  reachable s -> invariant s.
Proof.
  induction 1 as [|s e _ IH He|s r o _ IH Hadm Hserve].
  - split; repeat split; constructor.
  - destruct (fire_connection_event s e He) as [Hm Hd].
    unfold invariant. now rewrite Hm, Hd.
  - exact (serve_invariant r s o Hadm Hserve IH).
Qed.

Lemma reachable_states_are_in_order_witness :
  exists o,
    serve (Generate Sample.counting 3 3000 (Some "Eve")
             (Some "eve@example.com")) (fire (boot []) OnDisconnected)
    = Some o /\
    invariant (state (simple_certificate [] (Some "CSAC2025-01234") (state o))).
Proof.
  eexists. split; [vm_compute; reflexivity|].
  apply reachable_states_are_in_order.
  apply (reachable_request _ (Download (Some "CSAC2025-01234")) _
           (reachable_request _
              (Generate Sample.counting 3 3000 (Some "Eve")
                 (Some "eve@example.com")) _
              (reachable_event _ OnDisconnected reachable_boot I)
              counting_unit_interval eq_refl)
           I eq_refl).
Defined.

(** ** Generate, then look up *)

Lemma generate_quiet_existing
    (rand : nat -> Q) (fuel : nat) (now : Z) (name email : option string)
    (s : State) (o : Outcome) (id n e m : string) :
  simple_generate rand fuel now [] name email s = Some o ->
  response o = GenerateOk true id n e m ->
  state o = s /\
  exists i c,
    find_first (by_email e) (store (active s) s) = Some (i, c) /\
    id = reference_id c /\ n = user_name c /\ e = user_email c.
Proof.
  intros Hrun Hresp.
  destruct (JsString.truthy name) eqn:Hn;
    [|rewrite simple_generate_falsy in Hrun by auto;
      injection Hrun as <-; discriminate].
  destruct (JsString.truthy email) eqn:He;
    [|rewrite simple_generate_falsy in Hrun by auto;
      injection Hrun as <-; discriminate].
  destruct (simple_generate_truthy rand fuel now [] name email s Hn He)
    as (name0 & email0 & -> & -> & _ & _ & Heq).
  rewrite Heq in Hrun. clear Heq. unfold generate_checked in Hrun.
  fold (normalize email0) in Hrun.
  destruct (negb (Regex.test emailRegex (normalize email0)));
    [injection Hrun as <-; discriminate|].
  rewrite check_existing_quiet in Hrun.
  destruct (find_first (by_email (normalize email0)) (store (active s) s))
    as [[i c]|] eqn:Hmail.
  - injection Hrun as <-. cbn in Hresp. injection Hresp as <- <- <- _.
    split; [reflexivity|]. exists i, c.
    destruct (find_first_some _ _ _ _ Hmail) as [_ Hc].
    apply String.eqb_eq in Hc. rewrite Hc. auto.
  - destruct (ensure_unique rand fuel 0 [] s [(CheckEmail, active s)])
      as [[[[id0 s2] sched2] log2]|]; [|discriminate].
    injection Hrun as <-. exfalso. revert Hresp.
    unfold store_certificate. destruct (useInMemoryStore s2); [discriminate|].
    destruct (await sched2 s2) as [s3 rest].
    destruct (Mongo.save _ (SimpleCertificate s3)); discriminate.
Qed.

Lemma well_formed_id_nonempty (id : string) : well_formed_id id -> id <> "".
Proof. intros (code & -> & _). discriminate. Qed.

(** In a state whose stores are in order, the reference id that generate
    answers, for a record it created or for one it found, is at once
    good for a lookup: the lookup answers 200 with that id, the same name
    and e-mail, and the type ["Attended"]; the timestamp is the date of
    the request when the record has just been created. *)
Theorem generate_then_lookup
    (rand : nat -> Q) (fuel : nat) (now : Z) (name email : option string)
    (s : State) (o : Outcome) (existing : bool) (id n e m : string) :
  invariant s ->
  simple_generate rand fuel now [] name email s = Some o ->
  response o = GenerateOk existing id n e m ->
  exists date,
    response (simple_certificate [] (Some id) (state o))
    = CertificateOk id n e "Attended" date /\
    (existing = false -> date = now).
Proof.
  intros Hinv Hrun Hresp. destruct existing.
  - destruct (generate_quiet_existing _ _ _ _ _ _ _ _ _ _ _ Hrun Hresp)
      as (-> & i & c & Hmail & -> & -> & ->).
    destruct (find_first_some _ _ _ _ Hmail) as [Hnth _].
    apply nth_error_In in Hnth.
    pose proof (invariant_store (active s) s Hinv) as (Hids & _ & Hall).
    rewrite Forall_forall in Hall.
    destruct (Hall c Hnth) as (Hwf & _ & _ & _ & Htype & _).
    destruct (stored_record_is_found _ c Hids Hnth) as (j & Hfound).
    destruct (lookup_once _ s j c (well_formed_id_nonempty _ Hwf) Hfound)
      as (Hanswer & _).
    exists (timestamp c). split; [|discriminate].
    rewrite Hanswer. unfold certificate_json. now rewrite Htype.
  - destruct (generate_quiet _ _ _ _ _ _ _ Hrun)
      as [[_ Hno] | (name0 & email0 & k & m' & _ & _ & _ & _ & _ & Hfree & _
                     & Hresp' & Hstate & _)].
    { exfalso. exact (Hno _ _ _ _ Hresp). }
    rewrite Hresp' in Hresp. injection Hresp as <- <- <- _.
    set (c := mkCertificate _ _ _ _ _ _ _) in Hstate.
    destruct (set_store_active (store (active s) s ++ [c])%list s)
      as (_ & _ & Hst & _ & Hact).
    assert (Hfound : find_first (by_reference_id (candidate rand k))
                       (store (active (state o)) (state o))
                     = Some (List.length (store (active s) s), c)).
    { rewrite Hstate, Hact, Hst.
      apply find_first_app_new; [exact Hfree | apply String.eqb_refl]. }
    destruct (lookup_once _ (state o) _ c (candidate_nonempty rand k) Hfound)
      as (Hanswer & _).
    exists now. split; [exact Hanswer | reflexivity].
Qed.

Lemma generate_then_lookup_witness :
  exists o,
    simple_generate Sample.counting 3 3000 [] (Some "Eve")
      (Some "eve@example.com") Sample.offline = Some o /\
    exists date,
      response (simple_certificate [] (Some "CSAC2025-01234") (state o))
      = CertificateOk "CSAC2025-01234" "Eve" "eve@example.com" "Attended"
          date /\
      (false = false -> date = 3000).
Proof.
  eexists. split; [vm_compute; reflexivity|].
  apply (generate_then_lookup Sample.counting 3 3000 (Some "Eve")
           (Some "eve@example.com") Sample.offline _ false
           "CSAC2025-01234" "Eve" "eve@example.com"
           "Certificate generated successfully (in-memory)!").
  - split; repeat split; constructor.
  - vm_compute. reflexivity.
  - reflexivity.
Defined.

(** ** The two stores are kept apart *)

(** A request served with nothing interleaved reads and writes the active
    store only: the other store, the selector and the state of the
    connection attempt are left as they were. *)
Theorem request_leaves_standby_store (r : Request) (s : State) (o : Outcome) :
  serve r s = Some o ->
  store (standby s) (state o) = store (standby s) s /\
  useInMemoryStore (state o) = useInMemoryStore s /\
  connectPromise (state o) = connectPromise s /\
  served_by (active s) (accesses o).
Proof.
  intros Hserve.
  assert (Hacc : served_by (active s) (accesses o)).
  { destruct r as [rand fuel now name email|id|]; cbn [serve] in Hserve.
    - eapply generate_steady; [|exact Hserve]. constructor.
    - injection Hserve as <-. apply lookup_served_by_active.
    - injection Hserve as <-. apply stats_served_by_active. }
  destruct r as [rand fuel now name email|id|]; cbn [serve] in Hserve.
  - destruct (generate_quiet _ _ _ _ _ _ _ Hserve)
      as [[-> _] | (name0 & email0 & k & m & _ & _ & _ & _ & _ & _ & _ & _
                    & -> & _)]; [now auto|].
    destruct (set_store_active
                (store (active s) s
                   ++ [mkCertificate (candidate rand k) (JsString.trim name0)
                         (normalize email0) "Attended" now false 0])%list s)
      as (Hflag & Hprom & _ & Hstandby & _). now auto.
  - injection Hserve as <-.
    destruct (lookup_quiet id s)
      as [[_ Heq] | [(id0 & _ & _ & _ & Heq & _)
                    | (id0 & i & c & _ & _ & _ & _ & Heq)]];
      rewrite Heq in *; cbn [state]; try now auto.
    destruct (set_store_active
                (update_at i mark_downloaded (store (active s) s)) s)
      as (Hflag & Hprom & _ & Hstandby & _). now auto.
  - injection Hserve as <-. rewrite stats_quiet in *. now auto.
Qed.

Lemma request_leaves_standby_store_witness :
  exists o,
    serve (Download (Some "CSAC2025-00000")) Sample.archive = Some o /\
    store (standby Sample.archive) (state o)
    = store (standby Sample.archive) Sample.archive /\
    useInMemoryStore (state o) = useInMemoryStore Sample.archive /\
    connectPromise (state o) = connectPromise Sample.archive /\
    served_by (active Sample.archive) (accesses o).
Proof.
  eexists. split; [reflexivity|].
  apply (request_leaves_standby_store (Download (Some "CSAC2025-00000"))
           Sample.archive).
  reflexivity.
Defined.

(** A record created while the in-memory store is active is not copied
    when the connection returns: once 'connected' has fired, a lookup of
    its id, made on a collection that does not hold the id, answers 404;
    after the next 'disconnected' the same lookup answers the record
    again. *)
Theorem record_of_an_outage_is_not_migrated
    (rand : nat -> Q) (fuel : nat) (now : Z) (name email : option string)
    (s : State) (o : Outcome) (id n e m : string) :
  useInMemoryStore s = true ->
  simple_generate rand fuel now [] name email s = Some o ->
  response o = GenerateOk false id n e m ->
  (forall c, In c (SimpleCertificate s) -> reference_id c <> id) ->
  let back := fire (state o) OnConnected in
  let missed := simple_certificate [] (Some id) back in
  let again := fire (state missed) OnDisconnected in
  response missed = NotFound "Certificate not found" /\
  state missed = back /\
  SimpleCertificate back = SimpleCertificate s /\
  response (simple_certificate [] (Some id) again)
  = CertificateOk id n e "Attended" now.
Proof.
  intros Hflag Hrun Hresp Habs. cbv zeta.
  destruct (generate_quiet _ _ _ _ _ _ _ Hrun)
    as [[_ Hno] | (name0 & email0 & k & m' & _ & _ & _ & _ & _ & Hfree & _
                   & Hresp' & Hstate & _)].
  { exfalso. exact (Hno _ _ _ _ Hresp). }
  rewrite Hresp' in Hresp. injection Hresp as <- <- <- _.
  rewrite (proj2 (active_InMemory s) Hflag) in *. cbn [set_store store] in *.
  set (c := mkCertificate _ _ _ _ _ _ _) in Hstate.
  assert (Hmiss :
            simple_certificate [] (Some (candidate rand k))
              (fire (state o) OnConnected)
            = mkOutcome (NotFound "Certificate not found")
                (fire (state o) OnConnected)
                [(Fetch, Durable)]).
  { apply (unknown_id_is_not_found _ (fire (state o) OnConnected)
             (candidate_nonempty rand k)).
    rewrite Hstate. exact Habs. }
  rewrite Hmiss. cbn [response state].
  split; [reflexivity|]. split; [reflexivity|].
  split; [now rewrite Hstate|].
  assert (Hfound :
            find_first (by_reference_id (candidate rand k))
              (store (active (fire (fire (state o) OnConnected) OnDisconnected))
                 (fire (fire (state o) OnConnected) OnDisconnected))
            = Some (List.length (inMemoryStore s), c)).
  { rewrite Hstate. cbn.
    apply find_first_app_new; [exact Hfree | apply String.eqb_refl]. }
  destruct (lookup_once _ _ _ c (candidate_nonempty rand k) Hfound)
    as (Hanswer & _).
  exact Hanswer.
Qed.

Lemma record_of_an_outage_is_not_migrated_witness :
  exists o,
    simple_generate Sample.counting 3 3000 [] (Some "Eve")
      (Some "eve@example.com") Sample.shelf = Some o /\
    let back := fire (state o) OnConnected in
    let missed := simple_certificate [] (Some "CSAC2025-56789") back in
    let again := fire (state missed) OnDisconnected in
    response missed = NotFound "Certificate not found" /\
    state missed = back /\
    SimpleCertificate back = SimpleCertificate Sample.shelf /\
    response (simple_certificate [] (Some "CSAC2025-56789") again)
    = CertificateOk "CSAC2025-56789" "Eve" "eve@example.com" "Attended" 3000.
Proof.
  eexists. split; [vm_compute; reflexivity|].
  apply (record_of_an_outage_is_not_migrated Sample.counting 3 3000
           (Some "Eve") (Some "eve@example.com") Sample.shelf _
           "CSAC2025-56789" "Eve" "eve@example.com"
           "Certificate generated successfully (in-memory)!").
  - reflexivity.
  - vm_compute. reflexivity.
  - reflexivity.
  - intros c [].
Defined.

(** ** The handlers before and after the fallback *)

Lemma fire_remote_save (p : ConnectPromise) (mem coll : list Certificate)
    (doc : Certificate) :
  fire (mkState p false mem coll) (RemoteSave doc)
  = mkState p false mem (Legacy.remote_save coll doc).
Proof.
  unfold fire, Legacy.remote_save. cbn [SimpleCertificate].
  now destruct (Mongo.save doc coll).
Qed.

Lemma await_remote_saves (p : ConnectPromise) (mem coll : list Certificate)
    (sched : Legacy.Schedule) :
  await (map (map RemoteSave) sched) (mkState p false mem coll)
  = (mkState p false mem (fst (Legacy.await sched coll)),
     map (map RemoteSave) (snd (Legacy.await sched coll))).
Proof.
  destruct sched as [|batch rest]; cbn [map await Legacy.await fst snd];
    [reflexivity|].
  f_equal. revert coll. induction batch as [|doc batch IH]; intros coll.
  - reflexivity.
  - cbn [map fold_left]. now rewrite fire_remote_save, IH.
Qed.

Lemma ensure_unique_legacy (rand : nat -> Q) (p : ConnectPromise)
    (mem : list Certificate) (fuel : nat) :
  forall j sched coll log,
    match Legacy.ensure_unique rand fuel j sched coll with
    | None =>
        ensure_unique rand fuel j (map (map RemoteSave) sched)
          (mkState p false mem coll) log = None
    | Some (id, coll', sched') =>
        exists log',
          ensure_unique rand fuel j (map (map RemoteSave) sched)
            (mkState p false mem coll) log
          = Some (id, mkState p false mem coll',
                  map (map RemoteSave) sched', log')
    end.
Proof.
  induction fuel as [|fuel IH]; intros j sched coll log; [reflexivity|].
  cbn [ensure_unique Legacy.ensure_unique useInMemoryStore].
  rewrite await_remote_saves.
  destruct (Legacy.await sched coll) as [coll1 sched1].
  cbn [fst snd SimpleCertificate].
  destruct (Mongo.findOne (by_reference_id (candidate rand j)) coll1)
    as [[i c]|].
  - apply IH.
  - eauto.
Qed.

(** With the durable backend selected, and other requests saving records
    meanwhile, the generate handler answers and leaves the collection
    exactly as the handler did before the in-memory fallback was added;
    the array and the selector are not touched. *)
Theorem generate_agrees_with_legacy
    (rand : nat -> Q) (fuel : nat) (now : Z) (sched : Legacy.Schedule)
    (name email : option string) (p : ConnectPromise)
    (mem coll : list Certificate) :
  option_map (fun o => (response o, state o))
    (simple_generate rand fuel now (map (map RemoteSave) sched) name email
       (mkState p false mem coll))
  = option_map (fun a => (fst a, mkState p false mem (snd a)))
      (Legacy.simple_generate rand fuel now sched name email coll).
Proof.
  unfold simple_generate, Legacy.simple_generate.
  destruct (negb (JsString.truthy name) || negb (JsString.truthy email));
    [reflexivity|].
  destruct name as [name|]; [|reflexivity].
  destruct email as [email|]; [|reflexivity].
  unfold generate_checked.
  destruct (negb (Regex.test emailRegex _)); [reflexivity|].
  unfold check_existing. cbn [useInMemoryStore].
  rewrite await_remote_saves.
  destruct (Legacy.await sched coll) as [coll1 sched1].
  cbn [fst snd SimpleCertificate].
  destruct (Mongo.findOne (by_email _) coll1) as [[i c]|]; [reflexivity|].
  pose proof (ensure_unique_legacy rand p mem fuel 0 sched1 coll1
                [(CheckEmail, Durable)]) as Hloop.
  destruct (Legacy.ensure_unique rand fuel 0 sched1 coll1)
    as [[[id coll2] sched2]|].
  - destruct Hloop as (log' & ->). cbn [option_map].
    unfold store_certificate. cbn [useInMemoryStore].
    rewrite await_remote_saves.
    destruct (Legacy.await sched2 coll2) as [coll3 sched3].
    cbn [fst snd SimpleCertificate].
    now destruct (Mongo.save _ coll3).
  - now rewrite Hloop.
Qed.

(** So does the lookup handler. *)
Theorem lookup_agrees_with_legacy
    (sched : Legacy.Schedule) (id : option string) (p : ConnectPromise)
    (mem coll : list Certificate) :
  let o := simple_certificate (map (map RemoteSave) sched) id
             (mkState p false mem coll) in
  (response o, state o)
  = (fst (Legacy.simple_certificate sched id coll),
     mkState p false mem (snd (Legacy.simple_certificate sched id coll))).
Proof.
  cbv zeta. unfold simple_certificate, Legacy.simple_certificate.
  destruct (negb (JsString.truthy id)); [reflexivity|].
  destruct id as [id|]; [|reflexivity].
  cbn [useInMemoryStore]. rewrite await_remote_saves.
  destruct (Legacy.await sched coll) as [coll1 sched1].
  cbn [fst snd SimpleCertificate].
  destruct (Mongo.findOne (by_reference_id id) coll1) as [[i c]|];
    [|reflexivity].
  rewrite await_remote_saves.
  destruct (Legacy.await sched1 coll1) as [coll2 sched2]. reflexivity.
Qed.

(** And the statistics handler. *)
Theorem stats_agrees_with_legacy
    (sched : Legacy.Schedule) (p : ConnectPromise)
    (mem coll : list Certificate) :
  let o := stats (map (map RemoteSave) sched) (mkState p false mem coll) in
  (response o, state o)
  = (fst (Legacy.stats sched coll),
     mkState p false mem (snd (Legacy.stats sched coll))).
Proof.
  cbv zeta. unfold stats, Legacy.stats. cbn [useInMemoryStore].
  rewrite await_remote_saves.
  destruct (Legacy.await sched coll) as [coll1 sched1].
  cbn [fst snd SimpleCertificate]. rewrite await_remote_saves.
  destruct (Legacy.await sched1 coll1) as [coll2 sched2].
  cbn [fst snd SimpleCertificate]. rewrite await_remote_saves.
  destruct (Legacy.await sched2 coll2) as [coll3 sched3]. reflexivity.
Qed.

(** ** Requests on the in-memory store do not suspend *)

Lemma ensure_unique_memory_schedule (rand : nat -> Q) (fuel : nat) :
  forall j sched s log,
    useInMemoryStore s = true ->
    ensure_unique rand fuel j sched s log
    = option_map (fun r => let '(id, s2, _, log2) := r in (id, s2, sched, log2))
        (ensure_unique rand fuel j [] s log).
Proof.
  induction fuel as [|fuel IH]; intros j sched s log Hflag; [reflexivity|].
  cbn [ensure_unique]. rewrite Hflag.
  destruct (find_first _ (inMemoryStore s)) as [[i c]|]; [|reflexivity].
  now apply IH.
Qed.

(** A request that finds the in-memory store selected is served in one
    piece: whatever events are scheduled, the answer, the state left and
    the stores accessed are those of the request that nothing
    interleaves with. *)
Theorem in_memory_requests_are_atomic
    (rand : nat -> Q) (fuel : nat) (now : Z) (sched : Schedule)
    (name email id : option string) (s : State) :
  useInMemoryStore s = true ->
  simple_generate rand fuel now sched name email s
  = simple_generate rand fuel now [] name email s /\
  simple_certificate sched id s = simple_certificate [] id s /\
  stats sched s = stats [] s /\
  list_certificates sched s = list_certificates [] s.
Proof.
  intros Hflag. split; [|split; [|split]].
  - unfold simple_generate.
    destruct (negb (JsString.truthy name) || negb (JsString.truthy email));
      [reflexivity|].
    destruct name as [name|]; [|reflexivity].
    destruct email as [email|]; [|reflexivity].
    unfold generate_checked.
    destruct (negb (Regex.test emailRegex _)); [reflexivity|].
    unfold check_existing. rewrite Hflag.
    destruct (find_first _ (inMemoryStore s)) as [[i c]|]; [reflexivity|].
    rewrite (ensure_unique_memory_schedule rand fuel 0 sched s _ Hflag).
    destruct (ensure_unique rand fuel 0 [] s [(CheckEmail, InMemory)])
      as [[[[id0 s2] sched2] log2]|] eqn:Hloop; [|reflexivity].
    cbn [option_map]. f_equal.
    apply ensure_unique_memory in Hloop; [|exact Hflag].
    destruct Hloop as (-> & _).
    unfold store_certificate. now rewrite Hflag.
  - unfold simple_certificate. now rewrite Hflag.
  - unfold stats. now rewrite Hflag.
  - unfold list_certificates. now rewrite Hflag.
Qed.

Lemma in_memory_requests_are_atomic_witness :
  simple_generate Sample.counting 3 3000
    [[OnConnected; RemoteSave Sample.bob]; [OnDisconnected]] (Some "Eve")
    (Some "eve@example.com") Sample.shelf
  = simple_generate Sample.counting 3 3000 [] (Some "Eve")
      (Some "eve@example.com") Sample.shelf /\
  simple_certificate [[OnConnected; RemoteSave Sample.bob]; [OnDisconnected]]
    (Some "CSAC2025-01234") Sample.shelf
  = simple_certificate [] (Some "CSAC2025-01234") Sample.shelf /\
  stats [[OnConnected; RemoteSave Sample.bob]; [OnDisconnected]] Sample.shelf
  = stats [] Sample.shelf /\
  list_certificates [[OnConnected; RemoteSave Sample.bob]; [OnDisconnected]]
    Sample.shelf
  = list_certificates [] Sample.shelf.
Proof.
  apply (in_memory_requests_are_atomic Sample.counting 3 3000
           [[OnConnected; RemoteSave Sample.bob]; [OnDisconnected]]
           (Some "Eve") (Some "eve@example.com") (Some "CSAC2025-01234")
           Sample.shelf).
  reflexivity.
Defined.

(** ** What the schema refuses *)

(** Under any schedule, a record that generate writes to the collection
    has a name that is not empty once trimmed: the schema refuses the
    others.  The array takes them: a name of blanks is stored as the
    empty name. *)
Theorem collection_refuses_empty_name
    (rand : nat -> Q) (fuel : nat) (now : Z) (sched : Schedule)
    (name email : option string) (s : State) (o : Outcome)
    (id n e m : string) (log : list Access) :
  simple_generate rand fuel now sched name email s = Some o ->
  response o = GenerateOk false id n e m ->
  accesses o = (log ++ [(Insert, Durable)])%list ->
  n <> "" /\ e <> "" /\
  exists pre,
    SimpleCertificate (state o)
    = (pre ++ [mkCertificate id n e "Attended" now false 0])%list.
Proof.
  intros Hrun Hresp Hacc.
  destruct (JsString.truthy name) eqn:Hn;
    [|rewrite simple_generate_falsy in Hrun by auto;
      injection Hrun as <-; discriminate].
  destruct (JsString.truthy email) eqn:He;
    [|rewrite simple_generate_falsy in Hrun by auto;
      injection Hrun as <-; discriminate].
  destruct (simple_generate_truthy rand fuel now sched name email s Hn He)
    as (name0 & email0 & -> & -> & _ & _ & Heq).
  rewrite Heq in Hrun. clear Heq. unfold generate_checked in Hrun.
  fold (normalize email0) in Hrun.
  destruct (negb (Regex.test emailRegex (normalize email0)));
    [injection Hrun as <-; discriminate|].
  destruct (check_existing _ sched s) as [[[existing s1] sched1] log1].
  destruct existing as [[i c]|]; [injection Hrun as <-; discriminate|].
  destruct (ensure_unique rand fuel 0 sched1 s1 log1)
    as [[[[id0 s2] sched2] log2]|]; [|discriminate].
  injection Hrun as <-.
  rewrite store_certificate_accesses in Hacc.
  apply app_inj_tail in Hacc. destruct Hacc as [_ Hact].
  injection Hact as Hact. apply active_Durable in Hact.
  revert Hresp. unfold store_certificate. rewrite Hact.
  destruct (await sched2 s2) as [s3 rest].
  unfold Mongo.construct. rewrite normalize_lower.
  destruct (Mongo.save _ (SimpleCertificate s3)) as [err|coll] eqn:Hsave;
    [discriminate|].
  cbn [response state]. intros [= <- <- <- _].
  apply save_inr in Hsave. destruct Hsave as (Hvalid & _ & ->).
  unfold Mongo.validate, Mongo.required in Hvalid. cbn in Hvalid.
  rewrite !andb_true_iff, !negb_true_iff in Hvalid.
  destruct Hvalid as [[_ Hname] Hmail].
  apply String.eqb_neq in Hname, Hmail.
  split; [exact Hname|]. split; [exact Hmail|].
  cbn [SimpleCertificate set_SimpleCertificate]. eauto.
Qed.

Lemma collection_refuses_empty_name_witness :
  exists o,
    simple_generate Sample.counting 3 3000 [] (Some " Eve ")
      (Some "eve@example.com") Sample.online = Some o /\
    "Eve" <> "" /\ "eve@example.com" <> "" /\
    exists pre,
      SimpleCertificate (state o)
      = (pre ++ [mkCertificate "CSAC2025-01234" "Eve" "eve@example.com"
                   "Attended" 3000 false 0])%list.
Proof.
  eexists. split; [vm_compute; reflexivity|].
  apply (collection_refuses_empty_name Sample.counting 3 3000 []
           (Some " Eve ") (Some "eve@example.com") Sample.online _
           "CSAC2025-01234" "Eve" "eve@example.com"
           "Certificate generated successfully!"
           [(CheckEmail, Durable); (CheckReference, Durable)]).
  - vm_compute. reflexivity.
  - reflexivity.
  - reflexivity.
Defined.

Lemma generate_answers_witness :
  exists o existing id n e m,
    simple_generate Sample.counting 2 3000 [] (Some "Eve")
      (Some "eve@example.com") Sample.shelf = Some o /\
    response o = GenerateOk existing id n e m.
Proof.
  apply (generate_answers Sample.counting 3000 "Eve" "eve@example.com"
           Sample.shelf 1).
  - unfold valid_name. vm_compute. discriminate.
  - reflexivity.
  - reflexivity.
  - lia.
Defined.

Lemma stats_after_generate_witness :
  exists o,
    simple_generate Sample.counting 3 3000 [] (Some "Eve")
      (Some "eve@example.com") Sample.archive = Some o /\
    exists recent',
      response (stats [] (state o)) = StatsOk (2 + 1) 1 (1 + 1) recent'.
Proof.
  eexists. split; [vm_compute; reflexivity|].
  apply (stats_after_generate Sample.counting 3 3000 (Some "Eve")
           (Some "eve@example.com") Sample.archive _
           "CSAC2025-01234" "Eve" "eve@example.com"
           "Certificate generated successfully (in-memory)!" 2 1 1
           (map select_row [Sample.bob; Sample.ada])).
  - vm_compute. reflexivity.
  - reflexivity.
  - reflexivity.
Defined.

Lemma stats_after_lookup_witness :
  let first := if downloaded Sample.ada then 0 else 1 in
  exists recent',
    response
      (stats []
         (state (simple_certificate [] (Some "CSAC2025-00000") Sample.archive)))
    = StatsOk 2 (1 + first) (1 - first) recent'.
Proof.
  apply (stats_after_lookup "CSAC2025-00000" Sample.archive O Sample.ada 2 1 1
           (map select_row [Sample.bob; Sample.ada])).
  - discriminate.
  - reflexivity.
  - reflexivity.
Defined.

(** ** C7, continued: what writes the selector *)

Lemma tracks_refl (evs : list Event) (s s' : State) :
  connectPromise s' = connectPromise s ->
  useInMemoryStore s' = useInMemoryStore s ->
  tracks evs s s'.
Proof. intros Hp Hf. split; [congruence | rewrite Hf; auto]. Qed.

Lemma tracks_weaken (evs evs' : list Event) (s s' : State) :
  incl evs evs' -> tracks evs s s' -> tracks evs' s s'.
Proof.
  intros Hincl [Hp Hf]. split; [exact Hp|].
  intros H. destruct (Hf H) as [H1 | [H2 | [H3 H4]]]; auto.
Qed.

Lemma tracks_trans (evs1 evs2 : list Event) (s s1 s2 : State) :
  tracks evs1 s s1 -> tracks evs2 s1 s2 -> tracks (evs1 ++ evs2) s s2.
Proof.
  intros [Hp1 Hf1] [Hp2 Hf2]. split; [auto|].
  intros H. destruct (Hf2 H) as [H1 | [H2 | [H3 H4]]].
  - destruct (Hf1 H1) as [G1 | [G2 | [G3 G4]]].
    + now left.
    + right. left. apply in_or_app. now left.
    + right. right. split; [apply in_or_app; now left|].
      intros Hpend. apply G4. now apply Hp2.
  - right. left. apply in_or_app. now right.
  - right. right. split; [apply in_or_app; now right | exact H4].
Qed.

(** One callback: the selector is set by 'disconnected', and by the
    [catch] of a pending attempt, which settles it; by nothing else. *)
Lemma fire_tracks (s : State) (e : Event) : tracks [e] s (fire s e).
Proof.
  destruct e; simpl.
  - destruct (connectPromise s) eqn:Hp; split; cbn; try congruence; auto.
  - destruct (connectPromise s) eqn:Hp; split; cbn; try congruence; auto.
    intros _. right. right. split; [now left | discriminate].
  - split; cbn; [auto | discriminate].
  - split; cbn; [auto|]. intros _. right. left. now left.
  - apply tracks_refl; reflexivity.
  - destruct (Mongo.save doc (SimpleCertificate s)); apply tracks_refl;
      reflexivity.
Qed.

Lemma batch_tracks (batch : list Event) (s : State) :
  tracks batch s (fold_left fire batch s).
Proof.
  revert s. induction batch as [|e batch IH]; intros s; simpl.
  - apply tracks_refl; reflexivity.
  - exact (tracks_trans [e] batch _ _ _ (fire_tracks s e) (IH (fire s e))).
Qed.

Lemma await_tracks (sched : Schedule) (s : State) :
  tracks (List.concat sched) s (fst (await sched s)) /\
  incl (List.concat (snd (await sched s))) (List.concat sched).
Proof.
  destruct sched as [|batch rest]; simpl.
  - split; [apply tracks_refl; reflexivity | apply incl_refl].
  - split; [|apply incl_appr, incl_refl].
    eapply tracks_weaken; [|apply batch_tracks]. apply incl_appl, incl_refl.
Qed.

(** A step made after the first await of a schedule is still a step of
    that schedule. *)
Lemma tracks_then (sched sched1 : Schedule) (s s1 s2 : State) :
  tracks (List.concat sched) s s1 ->
  incl (List.concat sched1) (List.concat sched) ->
  tracks (List.concat sched1) s1 s2 ->
  tracks (List.concat sched) s s2.
Proof.
  intros H1 Hincl H2.
  eapply tracks_weaken; [|exact (tracks_trans _ _ _ _ _ H1 H2)].
  apply incl_app; [apply incl_refl | exact Hincl].
Qed.

Lemma ensure_unique_tracks (rand : nat -> Q) (fuel : nat) :
  forall j sched s log id s2 sched2 log2,
    ensure_unique rand fuel j sched s log = Some (id, s2, sched2, log2) ->
    tracks (List.concat sched) s s2 /\
    incl (List.concat sched2) (List.concat sched).
Proof.
  induction fuel as [|fuel IH]; intros j sched s log id s2 sched2 log2 H;
    simpl in H; [discriminate|].
  destruct (useInMemoryStore s).
  - destruct (find_first _ (inMemoryStore s)) as [[i c]|].
    + now apply IH in H.
    + injection H as <- <- <- <-.
      split; [apply tracks_refl; reflexivity | apply incl_refl].
  - destruct (await_tracks sched s) as [Ht Hincl].
    destruct (await sched s) as [s1 sched1]. cbn [fst snd] in *.
    unfold Mongo.findOne in H.
    destruct (find_first _ (SimpleCertificate s1)) as [[i c]|].
    + apply IH in H. destruct H as [Ht' Hincl']. split.
      * exact (tracks_then _ _ _ _ _ Ht Hincl Ht').
      * eapply incl_tran; eauto.
    + injection H as <- <- <- <-. now split.
Qed.

Lemma store_certificate_tracks
    (id cn ce : string) (now : Z) (sched : Schedule) (s : State)
    (log : list Access) :
  tracks (List.concat sched) s
    (state (store_certificate id cn ce now sched s log)).
Proof.
  unfold store_certificate. destruct (useInMemoryStore s) eqn:Hflag.
  - apply tracks_refl; cbn; auto.
  - destruct (await_tracks sched s) as [Ht _].
    destruct (await sched s) as [s1 rest]. cbn [fst] in Ht.
    destruct (Mongo.save _ (SimpleCertificate s1)); cbn [state]; [exact Ht|].
    destruct Ht as [Hp Hf]. split; [exact Hp | exact Hf].
Qed.

(** A handler writes the selector at no point: whatever the schedule,
    the selector it leaves is set only by the events of the schedule. *)
Lemma handle_tracks (sched : Schedule) (r : Request) (s : State) (o : Outcome) :
  handle sched r s = Some o -> tracks (List.concat sched) s (state o).
Proof.
  destruct r as [rand fuel now name email|id|]; cbn [handle]; intros Hrun.
  - destruct (JsString.truthy name) eqn:Hn;
      [|rewrite simple_generate_falsy in Hrun by auto;
        injection Hrun as <-; apply tracks_refl; reflexivity].
    destruct (JsString.truthy email) eqn:He;
      [|rewrite simple_generate_falsy in Hrun by auto;
        injection Hrun as <-; apply tracks_refl; reflexivity].
    destruct (simple_generate_truthy rand fuel now sched name email s Hn He)
      as (name0 & email0 & -> & -> & _ & _ & Heq).
    rewrite Heq in Hrun. clear Heq. unfold generate_checked in Hrun.
    destruct (negb (Regex.test emailRegex _));
      [injection Hrun as <-; apply tracks_refl; reflexivity|].
    destruct (check_existing _ sched s)
      as [[[existing s1] sched1] log1] eqn:Hpre.
    assert (H1 : tracks (List.concat sched) s s1 /\
                 incl (List.concat sched1) (List.concat sched)).
    { unfold check_existing in Hpre. destruct (useInMemoryStore s).
      - injection Hpre as <- <- <- <-.
        split; [apply tracks_refl; reflexivity | apply incl_refl].
      - destruct (await_tracks sched s) as [Ht Hincl].
        destruct (await sched s) as [s' sched']. cbn [fst snd] in *.
        injection Hpre as <- <- <- <-. now split. }
    destruct H1 as [Ht1 Hincl1].
    destruct existing as [[i c]|]; [injection Hrun as <-; exact Ht1|].
    destruct (ensure_unique rand fuel 0 sched1 s1 log1)
      as [[[[id s2] sched2] log2]|] eqn:Hloop; [|discriminate].
    injection Hrun as <-.
    apply ensure_unique_tracks in Hloop. destruct Hloop as [Ht2 Hincl2].
    pose proof (tracks_then _ _ _ _ _ Ht1 Hincl1 Ht2) as Ht12.
    eapply tracks_then; [exact Ht12 | | apply store_certificate_tracks].
    eapply incl_tran; eauto.
  - injection Hrun as <-. unfold simple_certificate.
    destruct (negb (JsString.truthy id)); [apply tracks_refl; reflexivity|].
    destruct id as [id|]; [|apply tracks_refl; reflexivity].
    destruct (useInMemoryStore s) eqn:Hflag.
    + destruct (find_first _ (inMemoryStore s)) as [[i c]|];
        apply tracks_refl; cbn; auto.
    + destruct (await_tracks sched s) as [Ht Hincl].
      destruct (await sched s) as [s1 sched1]. cbn [fst snd] in *.
      destruct (Mongo.findOne _ _) as [[i c]|]; [|exact Ht].
      destruct (await_tracks sched1 s1) as [Ht' _].
      destruct (await sched1 s1) as [s2 rest]. cbn [fst state] in *.
      pose proof (tracks_then _ _ _ _ _ Ht Hincl Ht') as [Hp Hf].
      split; [exact Hp | exact Hf].
  - injection Hrun as <-. unfold stats.
    destruct (useInMemoryStore s); [apply tracks_refl; reflexivity|].
    destruct (await_tracks sched s) as [Ht Hincl].
    destruct (await sched s) as [s1 sched1]. cbn [fst snd] in *.
    destruct (await_tracks sched1 s1) as [Ht1 Hincl1].
    destruct (await sched1 s1) as [s2 sched2]. cbn [fst snd] in *.
    destruct (await_tracks sched2 s2) as [Ht2 _].
    destruct (await sched2 s2) as [s3 rest]. cbn [fst state] in *.
    pose proof (tracks_then _ _ _ _ _ Ht Hincl Ht1) as Ht01.
    eapply tracks_then; [exact Ht01 | | exact Ht2].
    eapply incl_tran; eauto.
Qed.

Lemma run_tracks (acts : list Action) :
  forall s s', run acts s = Some s' -> tracks (scheduled_events acts) s s'.
Proof.
  induction acts as [|a acts IH]; intros s s' Hrun; simpl in Hrun.
  - injection Hrun as <-. apply tracks_refl; reflexivity.
  - destruct (act a s) as [s1|] eqn:Hact; [|discriminate].
    cbn [scheduled_events flat_map].
    apply (tracks_trans _ _ s s1 s'); [|now apply IH].
    destruct a as [e|sched r]; cbn [act scheduled] in *.
    + injection Hact as <-. apply fire_tracks.
    + destruct (handle sched r s) as [o|] eqn:Hh; [|discriminate].
      injection Hact as <-. now apply (handle_tracks sched r).
Qed.

(** C7, amended: in every state that the process reaches from its start,
    by callbacks firing and requests being handled under any schedule,
    the in-memory store is active only if a 'disconnected' event or the
    [catch] of the connection attempt has been scheduled: nothing else
    writes the selector to [true].  So, while the first attempt is still
    pending and no 'disconnected' event has been scheduled, the selector
    has its initial value [false]: the durable backend is active,
    lookups and statistics go to it, and so does the e-mail check of
    generate.  'disconnected' always makes the in-memory store active,
    and so does the rejection of a pending attempt; its fulfilment
    makes the durable one active. *)
Theorem pending_attempt_selects_durable
    (db : list Certificate) (acts : list Action) (s : State) :
  run acts (boot db) = Some s ->
  (useInMemoryStore s = true ->
   In OnDisconnected (scheduled_events acts) \/
   In ConnectCatch (scheduled_events acts)) /\
  (connectPromise s = Pending ->
   ~ In OnDisconnected (scheduled_events acts) ->
   useInMemoryStore s = false /\ active s = Durable /\
   (forall sched id,
       served_by Durable (accesses (simple_certificate sched id s))) /\
   (forall sched, served_by Durable (accesses (stats sched s))) /\
   (forall sched email,
       snd (check_existing email sched s) = [(CheckEmail, Durable)])) /\
  active (fire s OnDisconnected) = InMemory /\
  (connectPromise s = Pending ->
   active (fire s ConnectCatch) = InMemory /\
   active (fire s ConnectThen) = Durable).
Proof.
  intros Hrun. apply run_tracks in Hrun. destruct Hrun as [_ Hsel].
  cbn [boot useInMemoryStore] in Hsel.
  split.
  { intros Hflag. destruct (Hsel Hflag) as [H | [H | [H _]]];
      [discriminate | now left | now right]. }
  split.
  { intros Hpend Hnone.
    assert (Hflag : useInMemoryStore s = false).
    { destruct (useInMemoryStore s) eqn:Hf; [|reflexivity].
      destruct (Hsel eq_refl) as [H | [H | [_ H]]];
        [discriminate | contradiction | contradiction]. }
    assert (Hact : active s = Durable) by now apply active_Durable.
    split; [exact Hflag|]. split; [exact Hact|].
    split; [intros sched id; rewrite <- Hact; apply lookup_served_by_active|].
    split; [intros sched; rewrite <- Hact; apply stats_served_by_active|].
    intros sched email. unfold check_existing. rewrite Hflag.
    now destruct (await sched s). }
  split; [reflexivity|].
  intros Hpend. unfold fire. rewrite Hpend. split; reflexivity.
Qed.

Lemma pending_attempt_selects_durable_witness :
  exists s,
    run [Handle [[OnError]; [RemoteSave Sample.bob]]
           (Generate Sample.zeros 1 3000 (Some "Carol")
              (Some "carol@example.com"));
         Fire OnConnected;
         Handle [] (Download (Some "CSAC2025-00000"))]
      (boot [Sample.dan]) = Some s /\
    connectPromise s = Pending /\
    useInMemoryStore s = false /\ active s = Durable /\
    (forall sched id,
        served_by Durable (accesses (simple_certificate sched id s))) /\
    (forall sched, served_by Durable (accesses (stats sched s))) /\
    (forall sched email,
        snd (check_existing email sched s) = [(CheckEmail, Durable)]).
Proof.
  eexists. split; [vm_compute; reflexivity|]. split; [reflexivity|].
  apply (pending_attempt_selects_durable [Sample.dan]
           [Handle [[OnError]; [RemoteSave Sample.bob]]
              (Generate Sample.zeros 1 3000 (Some "Carol")
                 (Some "carol@example.com"));
            Fire OnConnected;
            Handle [] (Download (Some "CSAC2025-00000"))]).
  - vm_compute. reflexivity.
  - reflexivity.
  - cbn. intros H.
    repeat (destruct H as [H | H]; [discriminate H|]). exact H.
Defined.

(** A 'disconnected' event that fires while the attempt is pending makes
    the in-memory store active although the attempt is still pending. *)
Example disconnected_while_pending :
  connectPromise (fire (boot []) OnDisconnected) = Pending /\
  active (fire (boot []) OnDisconnected) = InMemory.
Proof. split; reflexivity. Qed.
